(** * A verified model of the Relative Rotation Graph dashboard ([app.py])

    The program fetches close prices, derives two relative-strength
    indicators per equity with a thrice-used rolling weighted average,
    rescales them to zero mean and unit deviation, and plots a trail.

    Numbers.  The program computes in IEEE binary64 through numpy and
    pandas.  Here a float is a value of [fnum A]: the not-a-number marker,
    a signed infinity, or a finite number of the carrier [A].  Finite
    numbers are exact: rationals ([Qc]) in the indicator engine, which
    only adds, multiplies and divides, and reals ([R]) in the normaliser,
    which takes a square root.  Rounding, overflow to infinity and the sign
    of zero are therefore outside the model; the special values and the
    rules by which they arise and propagate are inside it.

    Where rounding decides the outcome, the normaliser of a column whose
    entries are all equal, the normaliser is given a second time over the
    machine's binary64 numbers (module [Binary64]). *)

From Stdlib Require Import ZArith QArith Qcanon Reals Lra.
From Stdlib Require Import List Bool Lia Arith String Ascii.
From Stdlib Require PrimFloat Uint63 SpecFloat FloatOps FloatAxioms.
Import ListNotations.

Set Implicit Arguments.

(** ** Errors raised by the Python code *)

Inductive exn : Set :=
| ValueError      (* numpy: operands of different lengths *)
| IndexError      (* pandas: positional indexer out of bounds *)
| KeyError        (* pandas: no such column *)
| ProviderError.  (* the download failed as a whole *)

Inductive result (A : Type) : Type :=
| Ok (a : A)
| Raise (e : exn).
Arguments Ok {A} a.
Arguments Raise {A} e.

Definition bind {A B : Type} (m : result A) (k : A -> result B) : result B :=
  match m with
  | Ok a => k a
  | Raise e => Raise e
  end.

Notation "x <- m ;; k" := (bind m (fun x => k))
  (at level 61, m at next level, right associativity).

Fixpoint mapM {A B : Type} (f : A -> result B) (l : list A) : result (list B) :=
  match l with
  | [] => Ok []
  | a :: l' => b <- f a ;; bs <- mapM f l' ;; Ok (b :: bs)
  end.

(** ** Floating-point values with their special members *)

Inductive fnum (A : Type) : Type :=
| NaN
| Inf (neg : bool)
| Num (a : A).
Arguments NaN {A}.
Arguments Inf {A} neg.
Arguments Num {A} a.

Definition isnan {A} (x : fnum A) : bool :=
  match x with NaN => true | _ => false end.

Definition isinf {A} (x : fnum A) : bool :=
  match x with Inf _ => true | _ => false end.

Definition isfinite {A} (x : fnum A) : bool :=
  match x with Num _ => true | _ => false end.

Definition fmap {A B} (f : A -> B) (x : fnum A) : fnum B :=
  match x with
  | NaN => NaN
  | Inf s => Inf s
  | Num a => Num (f a)
  end.

(** The IEEE rules for the four operations, over any carrier that can
    tell a zero and a negative number. *)
Section ExtendedArithmetic.
Variable A : Type.
Variable zero : A.
Variables add sub mul div : A -> A -> A.
Variables is_zero is_neg : A -> bool.

Definition fadd (x y : fnum A) : fnum A :=
  match x, y with
  | NaN, _ | _, NaN => NaN
  | Inf a, Inf b => if Bool.eqb a b then Inf a else NaN
  | Inf a, Num _ => Inf a
  | Num _, Inf b => Inf b
  | Num p, Num q => Num (add p q)
  end.

Definition fsub (x y : fnum A) : fnum A :=
  match x, y with
  | NaN, _ | _, NaN => NaN
  | Inf a, Inf b => if Bool.eqb a b then NaN else Inf a
  | Inf a, Num _ => Inf a
  | Num _, Inf b => Inf (negb b)
  | Num p, Num q => Num (sub p q)
  end.

Definition fmul (x y : fnum A) : fnum A :=
  match x, y with
  | NaN, _ | _, NaN => NaN
  | Inf a, Inf b => Inf (xorb a b)
  | Inf a, Num q | Num q, Inf a =>
      if is_zero q then NaN else Inf (xorb a (is_neg q))
  | Num p, Num q => Num (mul p q)
  end.

Definition fdiv (x y : fnum A) : fnum A :=
  match x, y with
  | NaN, _ | _, NaN => NaN
  | Inf _, Inf _ => NaN
  | Inf a, Num q => Inf (xorb a (is_neg q))
  | Num _, Inf _ => Num zero
  | Num p, Num q =>
      if is_zero q
      then (if is_zero p then NaN else Inf (is_neg p))
      else Num (div p q)
  end.
End ExtendedArithmetic.

(** ** The rational instance, used by the indicator engine *)

Definition Qc_is_zero (q : Qc) : bool := Qeq_bool q 0.
Definition Qc_is_neg (q : Qc) : bool :=
  match (q ?= 0)%Qc with Lt => true | _ => false end.

Abbreviation qnum := (fnum Qc).
Abbreviation series := (list (fnum Qc)).

Definition qadd : qnum -> qnum -> qnum := fadd Qcplus.
Definition qmul : qnum -> qnum -> qnum := fmul Qcmult Qc_is_zero Qc_is_neg.
Definition qdiv : qnum -> qnum -> qnum :=
  fdiv (0 : Qc) Qcdiv Qc_is_zero Qc_is_neg.

Definition of_nat (n : nat) : Qc := Q2Qc (inject_Z (Z.of_nat n)).
Definition of_Z (z : Z) : Qc := Q2Qc (inject_Z z).

(** ** The pandas and numpy operations the engine calls *)

(** [np.arange(1, length + 1)]. *)
Definition arange1 (length : nat) : list nat := seq 1 length.

(** The elementwise product of a Series and an array of the same
    length; a [ValueError] when the lengths differ. *)
Fixpoint times_rows (x : series) (w : list nat) : result series :=
  match x, w with
  | [], [] => Ok []
  | a :: x', k :: w' =>
      r <- times_rows x' w' ;; Ok (qmul a (Num (of_nat k)) :: r)
  | _, _ => Raise ValueError
  end.

(** [x * np.arange(1, length + 1)] for a Series [x].  numpy broadcasts an
    array of one element over the rows of [x], whatever their number;
    arrays of equal length are multiplied row by row; every other pair of
    lengths is a [ValueError] (numpy refuses the shapes, or, for a Series
    of one row, pandas refuses to put the longer product on its index). *)
Definition series_times (x : series) (w : list nat) : result series :=
  match w with
  | [k] => Ok (map (fun a => qmul a (Num (of_nat k))) x)
  | _ => times_rows x w
  end.

(** [np.sum] of a Series dispatches to [Series.sum], which skips
    not-a-number entries and starts from zero. *)
Definition series_sum (x : series) : qnum :=
  fold_left qadd (filter (fun v => negb (isnan v)) x) (Num (0 : Qc)).

(** [np.sum] of an integer array. *)
Definition np_sum (w : list nat) : nat := fold_left Nat.add w 0%nat.

(** The function handed to [rolling(...).apply], the same text at each of
    its three uses:
    [lambda x: np.sum(x * np.arange(1, length + 1))
               / np.sum(np.arange(1, length + 1))]. *)
Definition weighted_mean (length : nat) (x : series) : result qnum :=
  p <- series_times x (arange1 length) ;;
  Ok (qdiv (series_sum p) (Num (of_nat (np_sum (arange1 length))))).

(** pandas prepares the values of a rolling window by replacing the
    infinities with not-a-number. *)
Definition prep_value (v : qnum) : qnum :=
  match v with Inf _ => NaN | _ => v end.

(** [values[s:e]] for [0 <= s <= e]. *)
Definition slice {A} (s e : nat) (l : list A) : list A :=
  firstn (e - s) (skipn s l).

Definition count_finite (w : series) : nat :=
  List.length (filter isfinite w).

(** [Series.rolling(window=length, center=False).apply(f)]: the window of
    row [i] is the rows [max(0, i + 1 - length) .. i]; [min_periods] is
    the window length, so [f] runs only on a window holding that many
    finite observations and every other row is not-a-number. *)
Definition rolling_apply (length : nat) (f : series -> result qnum)
    (values : series) : result series :=
  let v := map prep_value values in
  mapM (fun i =>
          let w := slice (i + 1 - length) (i + 1) v in
          if (length <=? count_finite w)%nat then f w else Ok NaN)
       (seq 0 (List.length v)).

(** Elementwise division of two columns aligned on their row labels; a
    row present on one side only is not-a-number. *)
Fixpoint series_div (x y : series) : series :=
  match x, y with
  | [], _ => map (fun _ => NaN) y
  | _, [] => map (fun _ => NaN) x
  | a :: x', b :: y' => qdiv a b :: series_div x' y'
  end.

(** [column * 100]. *)
Definition times100 (x : series) : series :=
  map (fun v => qmul v (Num (of_Z 100))) x.

Local Open Scope string_scope.
Local Open Scope list_scope.

(** ** Tables *)

(** A Python [str] is a sequence of Unicode code points. *)
Abbreviation str := (list N).

(** A string literal of the source, one code point per character (the
    source's literals are ASCII). *)
Fixpoint lit (s : string) : str :=
  match s with
  | EmptyString => []
  | String c s' => N_of_ascii c :: lit s'
  end.

(** A DataFrame: labelled columns over one date axis, in column order. *)
Definition frame (A : Type) : Type := list (str * list (fnum A)).

Definition frame_map {A B} (f : list (fnum A) -> list (fnum B))
    (d : frame A) : frame B :=
  map (fun c => (fst c, f (snd c))) d.

(** The values of column number [j]. *)
Definition column_at {A} (d : frame A) (j : nat) : list (fnum A) :=
  snd (nth j d ([], [])).

(** [data.div(benchmark, axis=0)]: every column divided by the one
    benchmark column, row by row. *)
Definition frame_div_axis0 (data : frame Qc) (benchmark : series) : frame Qc :=
  frame_map (fun col => series_div col benchmark) data.

(** [x / y] for two frames with the same columns. *)
Fixpoint frame_div (x y : frame Qc) : frame Qc :=
  match x, y with
  | (name, a) :: x', (_, b) :: y' => (name, series_div a b) :: frame_div x' y'
  | _, _ => []
  end.

(** [frame.rolling(window=length, center=False).apply(f)], column by
    column. *)
Definition frame_rolling_apply (length : nat) (f : series -> result qnum)
    (d : frame Qc) : result (frame Qc) :=
  mapM (fun c => r <- rolling_apply length f (snd c) ;; Ok (fst c, r)) d.

(** ** The indicator engine *)

Definition default_length : nat := 14.

(** [calculate_rrg_components_improved(data, benchmark, length=14)]. *)
Definition calculate_rrg_components_improved (data : frame Qc)
    (benchmark : series) (length : nat) : result (frame Qc * frame Qc) :=
  let rs := frame_div_axis0 data benchmark in
  wma_rs <- frame_rolling_apply length (weighted_mean length) rs ;;
  smoothed <- frame_rolling_apply length (weighted_mean length)
                (frame_div rs wma_rs) ;;
  let rs_ratio := frame_map times100 smoothed in
  wma_ratio <- frame_rolling_apply length (weighted_mean length) rs_ratio ;;
  let rs_momentum := frame_map times100 (frame_div rs_ratio wma_ratio) in
  Ok (rs_ratio, rs_momentum).

(** ** The real instance, used by the normaliser *)

Definition R_is_zero (r : R) : bool := if Req_dec_T r 0 then true else false.
Definition R_is_neg (r : R) : bool := if Rlt_dec r 0 then true else false.

Abbreviation rnum := (fnum R).

Definition radd : rnum -> rnum -> rnum := fadd Rplus.
Definition rsub : rnum -> rnum -> rnum := fsub Rminus.
Definition rmul : rnum -> rnum -> rnum := fmul Rmult R_is_zero R_is_neg.
Definition rdiv : rnum -> rnum -> rnum := fdiv 0%R Rdiv R_is_zero R_is_neg.

Definition rsqrt (x : rnum) : rnum :=
  match x with
  | NaN => NaN
  | Inf neg => if neg then NaN else Inf false
  | Num r => if R_is_neg r then NaN else Num (sqrt r)
  end.

(** The engine's rationals read as reals. *)
Definition to_real (x : qnum) : rnum := fmap (fun q : Qc => Q2R q) x.

(** ** The normaliser *)

(** The entries pandas does not skip. *)
Definition valid (x : list rnum) : list rnum :=
  filter (fun v => negb (isnan v)) x.

Definition rsum (x : list rnum) : rnum := fold_left radd x (Num 0%R).

(** [column.mean()]: not-a-number entries are skipped; no entry left
    gives not-a-number. *)
Definition mean (x : list rnum) : rnum :=
  match List.length (valid x) with
  | O => NaN
  | S _ as count => rdiv (rsum (valid x)) (Num (INR count))
  end.

(** [column.std()]: the sample deviation ([ddof = 1]) of the entries not
    skipped, by the two-pass formula; fewer than two entries give
    not-a-number. *)
Definition var (x : list rnum) : rnum :=
  match List.length (valid x) with
  | O | S O => NaN
  | S (S _ as d) as count =>
      let avg := rdiv (rsum (valid x)) (Num (INR count)) in
      let sqr := map (fun v => let e := rsub avg v in rmul e e) (valid x) in
      rdiv (rsum sqr) (Num (INR d))
  end.

Definition std (x : list rnum) : rnum := rsqrt (var x).

(** One column of [normalize_data]. *)
Definition normalize_column (x : list rnum) : list rnum :=
  let m := mean x in
  let s := std x in
  map (fun v => rdiv (rsub v m) s) x.

(** [normalize_data(data)]: [(data - data.mean()) / data.std()], the mean
    and deviation taken per column. *)
Definition normalize_data (data : frame R) : frame R :=
  frame_map normalize_column data.

(** ** The normaliser in binary64

    The same function over the machine's numbers, where not-a-number and
    the infinities are floats like the others.  pandas computes the mean
    as the sum of the column, zero standing for each not-a-number entry,
    over the count of the entries that are numbers; the deviation
    ([ddof = 1]) from the squares of [avg - v], zero again standing for
    each not-a-number entry, summed and divided by the count less one,
    and not-a-number for a count below two.  The order in which numpy adds
    the rows depends on their number and on the layout of the table, so
    the sum is a parameter, [np_sum]; fewer than eight rows are added in
    row order, [sum_in_order]. *)

Module Binary64.
Import PrimFloat.

(** A count as a float. *)
Definition of_count (n : nat) : float :=
  of_uint63 (Uint63.of_Z (Z.of_nat n)).

Section Normaliser.
Variable np_sum : list float -> float.

Definition filled (x : list float) : list float :=
  map (fun v => if is_nan v then zero else v) x.

Definition count (x : list float) : nat :=
  List.length (filter (fun v => negb (is_nan v)) x).

(** [column.mean()]. *)
Definition mean64 (x : list float) : float :=
  match count x with
  | O => nan
  | S _ as n => div (np_sum (filled x)) (of_count n)
  end.

Definition var64 (x : list float) : float :=
  match count x with
  | O | S O => nan
  | S (S _ as d) as n =>
      let avg := div (np_sum (filled x)) (of_count n) in
      let sqr := map (fun v => if is_nan v then zero
                               else mul (sub avg v) (sub avg v)) x in
      div (np_sum sqr) (of_count d)
  end.

(** [column.std()]. *)
Definition std64 (x : list float) : float := sqrt (var64 x).

(** One column of [normalize_data]. *)
Definition normalize_column64 (x : list float) : list float :=
  map (fun v => div (sub v (mean64 x)) (std64 x)) x.
End Normaliser.

(** The sum of fewer than eight rows: from zero, one row after the
    other. *)
Definition sum_in_order (x : list float) : float := fold_left add x zero.

(** The float nearest to 0.1. *)
Definition tenth : float := 0x1.999999999999ap-4%float.

(** Zero of either sign, or not-a-number. *)
Definition is_zero_or_nan (v : float) : Prop :=
  v = zero \/ v = neg_zero \/ v = nan.
End Binary64.

(** ** The plot builder *)

(** [x.iloc[start:]] with Python's rule for a negative or too large
    start. *)
Definition iloc_from {A} (start : Z) (x : list A) : list A :=
  let len := Z.of_nat (List.length x) in
  let s := if (start <? 0)%Z then Z.max 0 (len + start) else Z.min start len in
  skipn (Z.to_nat s) x.

(** [x.iloc[-1]]: the last entry, an [IndexError] on an empty series. *)
Definition iloc_last {A} (x : list A) : result A :=
  match rev x with
  | [] => Raise IndexError
  | a :: _ => Ok a
  end.

Record line : Type := { x0 : Z; y0 : Z; x1 : Z; y1 : Z }.

Record figure : Type := {
  trail_x : list rnum;
  trail_y : list rnum;
  marker_x : rnum;
  marker_y : rnum;
  marker_name : str;
  shapes : list line;
  title : str
}.

(** [create_rrg_plot(normalized_rs_ratio, normalized_rs_momentum, ticker,
    trail_length)]. *)
Definition create_rrg_plot (normalized_rs_ratio normalized_rs_momentum
    : list rnum) (ticker : str) (trail_length : Z) : result figure :=
  let tx := iloc_from (- (trail_length * 5)) normalized_rs_ratio in
  let ty := iloc_from (- (trail_length * 5)) normalized_rs_momentum in
  mx <- iloc_last normalized_rs_ratio ;;
  my <- iloc_last normalized_rs_momentum ;;
  Ok {| trail_x := tx; trail_y := ty;
        marker_x := mx; marker_y := my; marker_name := ticker;
        shapes := [ {| x0 := 0; y0 := -6; x1 := 0; y1 := 6 |};
                    {| x0 := -6; y0 := 0; x1 := 6; y1 := 0 |} ];
        title := lit "RRG for " ++ ticker |}.

(** ** The dashboard shell *)

(** [datetime.date]: ordered as the triple (year, month, day). *)
Record date : Type := { year : Z; month : Z; day : Z }.

Definition date_cmp (a b : date) : comparison :=
  match (year a ?= year b)%Z with
  | Eq => match (month a ?= month b)%Z with
          | Eq => (day a ?= day b)%Z
          | c => c
          end
  | c => c
  end.

(** [a < b] and [a >= b] on dates. *)
Definition date_lt (a b : date) : bool :=
  match date_cmp a b with Lt => true | _ => false end.
Definition date_ge (a b : date) : bool :=
  match date_cmp a b with Lt => false | _ => true end.

(** [str.isspace] on one code point. *)
Definition isspace (c : N) : bool :=
  ((9 <=? c) && (c <=? 13) || (28 <=? c) && (c <=? 32)
   || (c =? 133) || (c =? 160) || (c =? 5760)
   || (8192 <=? c) && (c <=? 8202)
   || (c =? 8232) || (c =? 8233) || (c =? 8239) || (c =? 8287)
   || (c =? 12288))%N.

Fixpoint lstrip (s : str) : str :=
  match s with
  | [] => []
  | c :: s' => if isspace c then lstrip s' else s
  end.

Definition rstrip (s : str) : str := rev (lstrip (rev s)).

(** [s.strip()]. *)
Definition strip (s : str) : str := rstrip (lstrip s).

Definition newline : N := 10.

(** [s.split('\n')]: one piece more than there are newlines. *)
Fixpoint split_newline (s : str) : list str :=
  match s with
  | [] => [[]]
  | c :: s' =>
      if (c =? newline)%N then [] :: split_newline s'
      else match split_newline s' with
           | piece :: rest => (c :: piece) :: rest
           | [] => [[c]]
           end
  end.

(** Truth value of a Python string or list: non-empty. *)
Definition truthy {A} (l : list A) : bool :=
  match l with [] => false | _ => true end.

(** [[ticker.strip() for ticker in equity_input.split('\n')
      if ticker.strip()]]. *)
Definition parse_tickers (equity_input : str) : list str :=
  map strip (filter (fun ticker => truthy (strip ticker))
                    (split_newline equity_input)).

(** Joins the lines of a preset with newlines, as its literal has them. *)
Fixpoint lines (l : list string) : str :=
  match l with
  | [] => []
  | [s] => lit s
  | s :: l' => lit s ++ newline :: lines l'
  end.

(** What the sidebar widgets return in one run of the script. *)
Record inputs : Type := {
  equity_input : str;
  benchmark_index : str;
  start_date : date;
  end_date : date;
  trail_length : Z;
  button_IT : bool;
  button_Banks : bool;
  button_Auto : bool;
  button_Energy : bool
}.

(** The four preset buttons, each overwriting both fields when pressed,
    in the order of the script. *)
Definition apply_presets (i : inputs) : str * str :=
  let s0 := (equity_input i, benchmark_index i) in
  let s1 := if button_IT i
            then (lines ["TCS.NS"; "INFY.NS"; "HCLTECH.NS"; "WIPRO.NS";
                         "LTIM.NS"; "TECHM.NS"; "OFSS.NS"; "PERSISTENT.NS";
                         "MPHASIS.NS"; "KPITTECH.NS"; "COFORGE.NS"],
                  lit "^CNXIT")
            else s0 in
  let s2 := if button_Banks i
            then (lines ["HDFCBANK.NS"; "ICICIBANK.NS"; "SBIN.NS";
                         "KOTAKBANK.NS"; "AXISBANK.NS"; "PNB.NS";
                         "BANKBARODA.NS"; "INDUSINDBK.NS"; "IOB.BO";
                         "INDIANB.NS"; "YESBANK.NS"],
                  lit "^NSEBANK")
            else s1 in
  let s3 := if button_Auto i
            then (lines ["MARUTI.NS"; "TATAMOTORS.NS"; "M&M.NS";
                         "BAJAJ-AUTO.NS"; "EICHERMOT.NS"; "TVSMOTOR.NS";
                         "BOSCHLTD.NS"; "HEROMOTOCO.NS"; "MOTHERSON.BO";
                         "TIINDIA.BO"; "ASHOKLEY.NS"],
                  lit "^CNXAUTO")
            else s2 in
  if button_Energy i
  then (lines ["RELIANCE.NS"; "ONGC.NS"; "NTPC.NS"; "ADANIGREEN.NS";
               "POWERGRID.NS"; "ADANIPOWER.NS"; "IOC.NS"; "TATAPOWER.NS";
               "GAIL.NS"; "BPCL.NS"; "ADANIENSOL.NS"; "JSWENERGY.NS";
               "NHPC.NS"],
        lit "^CNXENERGY")
  else s3.

(** What one run of the script does that can be seen from outside, in
    order. *)
Inductive event : Type :=
| Text (body : str)                                   (* [st.text] *)
| Error (message : str)                               (* [st.error] *)
| Download (tickers : list str) (start stop : date)   (* [download_data] *)
| Chart (column : nat) (fig : figure).                (* [plotly_chart] *)

(** A script step: the events so far and a value or the exception that
    ended the run. *)
Definition script (A : Type) : Type := list event * result A.

Definition emit (e : event) : script unit := ([e], Ok tt).
Definition lift {A} (r : result A) : script A := ([], r).

Definition then_ {A B} (m : script A) (k : A -> script B) : script B :=
  match m with
  | (t, Ok a) => let (t', r) := k a in (t ++ t', r)
  | (t, Raise e) => (t, Raise e)
  end.

Notation "x <~ m ;; k" := (then_ m (fun x => k))
  (at level 61, m at next level, right associativity).
Notation "m ;;; k" := (then_ m (fun _ => k))
  (at level 61, right associativity).

(** [for i, x in enumerate(l): body], counting from [i]. *)
Fixpoint for_enumerate {A} (i : nat) (l : list A)
    (body : nat -> A -> script unit) : script unit :=
  match l with
  | [] => ([], Ok tt)
  | a :: l' => body i a ;;; for_enumerate (S i) l' body
  end.

Definition str_eqb (a b : str) : bool :=
  if list_eq_dec N.eq_dec a b then true else false.

(** [data[name]]: the column of that label, [KeyError] when no column
    carries it.  The labels of a table are taken to be distinct; for a
    label carried by several columns pandas returns the table of those
    columns, which is not a column, and the statements that read the
    column's entries assume distinct labels. *)
Fixpoint column {A} (data : frame A) (name : str) : result (list (fnum A)) :=
  match data with
  | [] => Raise KeyError
  | (n, c) :: data' => if str_eqb n name then Ok c else column data' name
  end.

(** [data[names]]: the columns of those labels, in the order asked, for
    distinct names and a table of distinct labels. *)
Definition columns {A} (data : frame A) (names : list str) : result (frame A) :=
  mapM (fun n => c <- column data n ;; Ok (n, c)) names.

Definition msg_dates : str := lit "Error: End date must be after start date.".
Definition msg_equity : str :=
  lit "Error: Please enter at least one equity ticker.".
Definition msg_benchmark : str :=
  lit "Error: Please enter a benchmark index ticker.".

Definition when (b : bool) (m : script unit) : script unit :=
  if b then m else ([], Ok tt).

Section Main.
(** The price fetcher, outside this program: the table of adjusted
    closes for the tickers and dates asked, or a failure. *)
Variable download_data : list str -> date -> date -> result (frame Qc).

(** [main()], from the widgets' values on. *)
Definition main (i : inputs) : script unit :=
  let '(equity_input, benchmark_index) := apply_presets i in
  let start_date := start_date i in
  let end_date := end_date i in
  let equity := parse_tickers equity_input in
  emit (Text (lit "VS " ++ benchmark_index)) ;;;
  if date_lt start_date end_date && truthy equity && truthy benchmark_index
  then
    let tickers := equity ++ [benchmark_index] in
    emit (Download tickers start_date end_date) ;;;
    data <~ lift (download_data tickers start_date end_date) ;;
    selected <~ lift (columns data equity) ;;
    benchmark <~ lift (column data benchmark_index) ;;
    indicators <~ lift (calculate_rrg_components_improved
                          selected benchmark default_length) ;;
    let normalized_rs_ratio :=
      normalize_data (frame_map (map to_real) (fst indicators)) in
    let normalized_rs_momentum :=
      normalize_data (frame_map (map to_real) (snd indicators)) in
    for_enumerate 0 equity (fun k ticker =>
      x <~ lift (column normalized_rs_ratio ticker) ;;
      y <~ lift (column normalized_rs_momentum ticker) ;;
      fig <~ lift (create_rrg_plot x y ticker (trail_length i)) ;;
      emit (Chart (k mod 2) fig))
  else
    when (date_ge start_date end_date) (emit (Error msg_dates)) ;;;
    when (negb (truthy equity)) (emit (Error msg_equity)) ;;;
    when (negb (truthy benchmark_index)) (emit (Error msg_benchmark)).
End Main.

(** ** The indicator definition of the specification

    A second definition, written from the specification's words and by
    row index, to compare the engine with.  A value is defined when it is
    a finite number. *)

Definition entry {A} (x : list (fnum A)) (i : nat) : fnum A := nth i x NaN.

Definition value (v : qnum) : Qc :=
  match v with Num q => q | _ => 0%Qc end.

Section Reference.
Variable length : nat.

(** The sum of weight times value over the [n] oldest rows of the
    window starting at row [base]: weight [k] for the [k]-th oldest. *)
Fixpoint weighted_total (x : series) (base n : nat) : Qc :=
  match n with
  | O => 0%Qc
  | S n' => (weighted_total x base n'
             + of_nat n * value (entry x (base + n')))%Qc
  end.

Definition all_defined (x : series) (base n : nat) : bool :=
  forallb (fun k => isfinite (entry x (base + k))) (seq 0 n).

(** The sum of the weights [1 .. length]. *)
Definition weight_sum : nat := (length * (length + 1) / 2)%nat.

(** The linearly-weighted moving average: undefined while the window is
    not filled or holds an undefined value. *)
Definition ref_wma (x : series) : series :=
  map (fun i =>
         if (length <=? i + 1)%nat && all_defined x (i + 1 - length) length
         then Num (weighted_total x (i + 1 - length) length
                   / of_nat weight_sum)%Qc
         else NaN)
      (seq 0 (List.length x)).

(** Row-by-row quotient over the common date axis. *)
Definition ref_quot (x y : series) : series :=
  map (fun i => qdiv (entry x i) (entry y i))
      (seq 0 (Nat.max (List.length x) (List.length y))).

Definition ref_scaled (x : series) : series :=
  map (fun v => qmul v (Num (of_Z 100))) x.

Definition ref_raw_ratio (price benchmark : series) : series :=
  ref_quot price benchmark.

Definition ref_rs_ratio (price benchmark : series) : series :=
  let raw := ref_raw_ratio price benchmark in
  ref_scaled (ref_wma (ref_quot raw (ref_wma raw))).

Definition ref_rs_momentum (price benchmark : series) : series :=
  let ratio := ref_rs_ratio price benchmark in
  ref_scaled (ref_quot ratio (ref_wma ratio)).
End Reference.

(** ** Predicates and data the statements below are written with *)

(** Rows before [k] are not-a-number, rows from [k] on are positive
    numbers. *)
Definition positive_from (k : nat) (x : series) : Prop :=
  forall i, (i < List.length x)%nat ->
    if (i <? k)%nat then entry x i = NaN
    else exists q, (0 < q)%Qc /\ entry x i = Num q.

Definition Qc_ltb (a b : Qc) : bool :=
  match (a ?= b)%Qc with Lt => true | _ => false end.

(** Every row is a number and each is smaller than the one before by
    more than [gap]. *)
Fixpoint falling (gap : Qc) (x : series) : bool :=
  match x with
  | [] => true
  | Num a :: rest =>
      match rest with
      | [] => true
      | Num b :: _ => Qc_ltb (b + gap) a && falling gap rest
      | _ => false
      end
  | _ => false
  end.

(** A fiftieth: far above the rounding error of a binary64 computation on
    values near 100. *)
Definition margin : Qc := Q2Qc (1 # 50).

(** The scenario of the specification: forty days of prices 100, 101,
    ..., 139 against a benchmark flat at 100. *)
Definition scenario_price : series :=
  map (fun k => Num (of_nat (100 + k))) (seq 0 40).
Definition scenario_benchmark : series := repeat (Num (of_Z 100)) 40.
Definition scenario_data : frame Qc := [(lit "A", scenario_price)].

(** The normaliser's formula in the specification's words, over the
    defined values of a column. *)
Fixpoint numbers (x : list rnum) : list R :=
  match x with
  | [] => []
  | Num r :: x' => r :: numbers x'
  | _ :: x' => numbers x'
  end.

Definition total (l : list R) : R := fold_right Rplus 0%R l.

Definition average (l : list R) : R := (total l / INR (List.length l))%R.

(** The sample standard deviation. *)
Definition deviation (l : list R) : R :=
  sqrt (total (map (fun r => Rsqr (r - average l)) l)
        / INR (List.length l - 1)).

(** The last [n] entries of a list, all of it when it has fewer. *)
Definition last_points {A} (n : nat) (x : list A) : list A :=
  skipn (List.length x - n) x.

(** The ticker text and the benchmark the script works with, after the
    preset buttons. *)
Definition effective_equity_input (i : inputs) : str := fst (apply_presets i).
Definition effective_benchmark (i : inputs) : str := snd (apply_presets i).

Definition no_preset (i : inputs) : bool :=
  negb (button_IT i || button_Banks i || button_Auto i || button_Energy i).

(** What a run showed and fetched. *)
Definition errors_of (t : list event) : list str :=
  flat_map (fun e => match e with Error m => [m] | _ => [] end) t.
Definition charts_of (t : list event) : list figure :=
  flat_map (fun e => match e with Chart _ f => [f] | _ => [] end) t.
Definition downloads_of (t : list event) : list (list str) :=
  flat_map (fun e => match e with Download ts _ _ => [ts] | _ => [] end) t.

(** Text made of whitespace only (a newline is whitespace). *)
Definition blank (s : str) : Prop := Forall (fun c => isspace c = true) s.

(** The three checks of the script, and the messages it owes when they
    fail: one per failed check, in the script's order. *)
Definition checks_pass (i : inputs) : bool :=
  date_lt (start_date i) (end_date i)
  && truthy (parse_tickers (effective_equity_input i))
  && truthy (effective_benchmark i).

Definition expected_errors (i : inputs) : list str :=
  (if date_lt (start_date i) (end_date i) then [] else [msg_dates])
  ++ (if truthy (parse_tickers (effective_equity_input i))
      then [] else [msg_equity])
  ++ (if truthy (effective_benchmark i) then [] else [msg_benchmark]).

(** What the script does once the three checks have passed: one download,
    then nothing but charts. *)
Definition after_checks (e : event) : Prop :=
  match e with Download _ _ _ | Chart _ _ => True | _ => False end.

(** The scenario of the specification: two tickers, a benchmark, and a
    start date after the end date. *)
Definition example_inputs : inputs :=
  {| equity_input := lines ["AAA"; "BBB"];
     benchmark_index := lit "CCC";
     start_date := {| year := 2024; month := 7; day := 2 |};
     end_date := {| year := 2024; month := 7; day := 1 |};
     trail_length := 6;
     button_IT := false; button_Banks := false;
     button_Auto := false; button_Energy := false |}.

(** Ticker text of spaces, a tab and newlines only, with dates in order
    and a benchmark. *)
Definition blank_inputs : inputs :=
  {| equity_input := [32; 32; 10; 9; 32; 10]%N;
     benchmark_index := lit "CCC";
     start_date := {| year := 2024; month := 7; day := 1 |};
     end_date := {| year := 2024; month := 7; day := 2 |};
     trail_length := 6;
     button_IT := false; button_Banks := false;
     button_Auto := false; button_Energy := false |}.

(** ** Further notions the later statements are written with *)

(** The column labels of a table, in column order. *)
Definition labels {A} (d : frame A) : list str := map fst d.

(** A column with every entry multiplied by [c]. *)
Definition scaled_by (c : Qc) (x : series) : series :=
  map (fun v => qmul v (Num c)) x.

(** Rows before [k] are not-a-number, rows from [k] on are the number
    [c]. *)
Definition constant_from (k : nat) (c : Qc) (x : series) : Prop :=
  forall i, (i < List.length x)%nat ->
    entry x i = if (i <? k)%nat then NaN else Num c.

(** The column [a * x + b]. *)
Definition affine (a b : R) (x : list rnum) : list rnum :=
  map (fun v => radd (rmul v (Num a)) (Num b)) x.

(** ["\n".join(pieces)], the inverse of splitting at newlines. *)
Fixpoint join_newline (pieces : list str) : str :=
  match pieces with
  | [] => []
  | [s] => s
  | s :: rest => s ++ newline :: join_newline rest
  end.

(** A ticker as the parser returns it: non-empty, without a newline, and
    with no whitespace at either end. *)
Definition clean (ticker : str) : Prop :=
  ticker <> []
  /\ Forall (fun c => c <> newline) ticker
  /\ isspace (hd 0%N ticker) = false
  /\ isspace (last ticker 0%N) = false.

(** A chart event. *)
Definition is_chart (e : event) : Prop :=
  match e with Chart _ _ => True | _ => False end.

(** The column a lookup finds, the empty column when there is none. *)
Definition found {A} (d : frame A) (name : str) : list (fnum A) :=
  match column d name with Ok c => c | Raise _ => [] end.

(** The events of a loop whose every pass draws one chart. *)
Definition grid (start : nat) (figs : list figure) : list event :=
  map (fun p => Chart (fst p mod 2) (snd p))
      (combine (seq start (List.length figs)) figs).

(** The part of [main] that follows the download request, as the script
    has it. *)
Definition render
    (download_data : list str -> date -> date -> result (frame Qc))
    (equity : list str) (benchmark_index : str) (start_date end_date : date)
    (trail_length : Z) : script unit :=
  data <~ lift (download_data (equity ++ [benchmark_index])
                  start_date end_date) ;;
  selected <~ lift (columns data equity) ;;
  benchmark <~ lift (column data benchmark_index) ;;
  indicators <~ lift (calculate_rrg_components_improved
                        selected benchmark default_length) ;;
  let normalized_rs_ratio :=
    normalize_data (frame_map (map to_real) (fst indicators)) in
  let normalized_rs_momentum :=
    normalize_data (frame_map (map to_real) (snd indicators)) in
  for_enumerate 0 equity (fun k ticker =>
    x <~ lift (column normalized_rs_ratio ticker) ;;
    y <~ lift (column normalized_rs_momentum ticker) ;;
    fig <~ lift (create_rrg_plot x y ticker trail_length) ;;
    emit (Chart (k mod 2) fig)).

(** Inputs that pass the three checks, and a table for them. *)
Definition ordered_inputs : inputs :=
  {| equity_input := lines ["AAA"; "BBB"];
     benchmark_index := lit "CCC";
     start_date := {| year := 2024; month := 7; day := 1 |};
     end_date := {| year := 2024; month := 7; day := 2 |};
     trail_length := 6;
     button_IT := false; button_Banks := false;
     button_Auto := false; button_Energy := false |}.

Definition table_of (a b c : series) : frame Qc :=
  [(lit "AAA", a); (lit "BBB", b); (lit "CCC", c)].

(** ** The earlier indicator function

    [calculate_rrg_components], which the script defines and no longer
    calls.  It takes a logarithm, so its numbers are reals. *)

(** Elementwise [x op y] for two columns aligned on their row labels; a
    row present on one side only is not-a-number. *)
Fixpoint aligned (op : rnum -> rnum -> rnum) (x y : list rnum) : list rnum :=
  match x, y with
  | [], _ => map (fun _ => NaN) y
  | _, [] => map (fun _ => NaN) x
  | a :: x', b :: y' => op a b :: aligned op x' y'
  end.

(** [column.ffill()]: a not-a-number entry takes the last entry before it
    that is not one; leading ones stay. *)
Fixpoint ffill_from (last : rnum) (x : list rnum) : list rnum :=
  match x with
  | [] => []
  | v :: x' =>
      if isnan v then last :: ffill_from last x' else v :: ffill_from v x'
  end.

Definition ffill (x : list rnum) : list rnum := ffill_from NaN x.

(** [column.shift(periods)]: the rows move down by [periods], the first
    [periods] rows are not-a-number and the column keeps its length. *)
Definition shift (periods : nat) (x : list rnum) : list rnum :=
  firstn (List.length x) (repeat NaN periods ++ x).

(** [column.pct_change(periods=periods)] with the fill method pandas 2
    defaults to: forward fill, then [data / data.shift(periods) - 1]. *)
Definition pct_change (periods : nat) (x : list rnum) : list rnum :=
  let data := ffill x in
  map (fun v => rsub v (Num 1%R)) (aligned rdiv data (shift periods data)).

(** [np.log] on one value. *)
Definition rlog (v : rnum) : rnum :=
  match v with
  | NaN => NaN
  | Inf neg => if neg then NaN else Inf false
  | Num r => if R_is_neg r then NaN
             else if R_is_zero r then Inf true
             else Num (ln r)
  end.

(** [np.log(1 + column.pct_change(periods=periods))]. *)
Definition log_change (periods : nat) (x : list rnum) : list rnum :=
  map (fun v => rlog (radd (Num 1%R) v)) (pct_change periods x).

(** [x - y] for two frames with the same columns. *)
Fixpoint frame_sub (x y : frame R) : frame R :=
  match x, y with
  | (name, a) :: x', (_, b) :: y' => (name, aligned rsub a b) :: frame_sub x' y'
  | _, _ => []
  end.

(** [calculate_rrg_components(data, benchmark)]. *)
Definition calculate_rrg_components (data : frame R) (benchmark : list rnum)
  : frame R * frame R :=
  let rs_ratio :=
    frame_map (fun col => map (fun v => rmul v (Num 100%R))
                              (aligned rdiv col benchmark)) data in
  let r12 := frame_map (log_change 252) data in
  let r1 := frame_map (log_change 21) data in
  let rs_momentum := frame_sub r12 r1 in
  (rs_ratio, rs_momentum).

(** Every row of the column is a positive number. *)
Definition positive_column (x : list rnum) : Prop :=
  forall i, (i < List.length x)%nat ->
    exists p, (0 < p)%R /\ entry x i = Num p.

(** * Properties *)

(** ** The error monad *)

Lemma mapM_ok {A B} (f : A -> result B) (g : A -> B) (l : list A) :
  (forall a, In a l -> f a = Ok (g a)) -> mapM f l = Ok (map g l).
Proof.
  induction l as [|a l IH]; intros H; simpl; [reflexivity|].
  rewrite (H a (or_introl eq_refl)). simpl.
  rewrite IH by (intros; apply H; right; assumption). reflexivity.
Qed.

(** ** Rational arithmetic *)

Lemma this_Q2Qc (q : Q) : (this (Q2Qc q) == q)%Q.
Proof. unfold Q2Qc, this. apply Qred_correct. Qed.

Lemma Qclt_irrefl (a : Qc) : ~ (a < a)%Qc.
Proof. unfold Qclt. apply Qlt_irrefl. Qed.

Lemma Qc_pos_add (a b : Qc) : (0 < a -> 0 < b -> 0 < a + b)%Qc.
Proof.
  unfold Qclt, Qcplus. intros Ha Hb. rewrite (this_Q2Qc (a + b)).
  change (this 0%Qc) with 0%Q in *.
  rewrite <- (Qplus_0_l 0).
  apply Qplus_lt_le_compat; [assumption|apply Qlt_le_weak; assumption].
Qed.

Lemma Qc_pos_mul (a b : Qc) : (0 < a -> 0 < b -> 0 < a * b)%Qc.
Proof.
  unfold Qclt, Qcmult. intros Ha Hb. rewrite (this_Q2Qc (a * b)).
  apply Qmult_lt_0_compat; assumption.
Qed.

Lemma Qc_pos_div (a b : Qc) : (0 < a -> 0 < b -> 0 < a / b)%Qc.
Proof.
  intros Ha Hb. unfold Qcdiv. apply Qc_pos_mul; [assumption|].
  unfold Qclt, Qcinv in *. rewrite (this_Q2Qc (/ b)).
  apply Qinv_lt_0_compat; assumption.
Qed.

Lemma of_nat_pos (n : nat) : (0 < n)%nat -> (0 < of_nat n)%Qc.
Proof.
  intros H. unfold of_nat, Qclt. rewrite (this_Q2Qc (inject_Z _)).
  change (this 0%Qc) with 0%Q. unfold Qlt, inject_Z. simpl. lia.
Qed.

Lemma Qc_is_zero_true (q : Qc) : Qc_is_zero q = true <-> q = 0%Qc.
Proof.
  unfold Qc_is_zero. rewrite Qeq_bool_iff. split.
  - intros H. apply Qc_is_canon. exact H.
  - intros ->. reflexivity.
Qed.

Lemma Qc_is_zero_pos (q : Qc) : (0 < q)%Qc -> Qc_is_zero q = false.
Proof.
  intros H. destruct (Qc_is_zero q) eqn:E; [|reflexivity].
  apply Qc_is_zero_true in E. subst q. exfalso. revert H. apply Qclt_irrefl.
Qed.

Lemma Qc_is_neg_pos (q : Qc) : (0 < q)%Qc -> Qc_is_neg q = false.
Proof.
  intros H. unfold Qc_is_neg.
  destruct (q ?= 0)%Qc eqn:E; try reflexivity.
  exfalso. apply (@Qclt_irrefl 0%Qc).
  apply Qclt_trans with q; [exact H|apply Qclt_alt; exact E].
Qed.

(** ** Lists by index *)

Lemma firstn_by_index {A} (d : A) (l : list A) (n : nat) :
  (n <= List.length l)%nat ->
  firstn n l = map (fun k => nth k l d) (seq 0 n).
Proof.
  revert n. induction l as [|a l IH]; intros n Hn; simpl in Hn.
  - assert (n = 0%nat) by lia. subst. reflexivity.
  - destruct n as [|n]; [reflexivity|].
    simpl. f_equal. rewrite <- seq_shift, map_map. apply IH. lia.
Qed.

Lemma nth_skipn {A} (d : A) (l : list A) (s k : nat) :
  nth k (skipn s l) d = nth (s + k) l d.
Proof.
  revert l. induction s as [|s IH]; intros l; [reflexivity|].
  destruct l as [|a l]; [destruct k; reflexivity|]. simpl. apply IH.
Qed.

Lemma slice_by_index {A} (d : A) (l : list A) (s e : nat) :
  (e <= List.length l)%nat ->
  slice s e l = map (fun k => nth (s + k) l d) (seq 0 (e - s)).
Proof.
  intros He. unfold slice.
  rewrite (firstn_by_index d) by (rewrite length_skipn; lia).
  apply map_ext. intros k. apply nth_skipn.
Qed.

Lemma filter_all {A} (p : A -> bool) (l : list A) :
  (List.length l <=? List.length (filter p l))%nat = forallb p l.
Proof.
  induction l as [|a l IH]; [reflexivity|].
  cbn [filter forallb]. destruct (p a); cbn [andb].
  - exact IH.
  - pose proof (filter_length_le p l). apply Nat.leb_gt. simpl. lia.
Qed.

Lemma forallb_map_pointwise {A B} (p : B -> bool) (q : A -> bool)
    (f : A -> B) (l : list A) :
  (forall a, p (f a) = q a) -> forallb p (map f l) = forallb q l.
Proof.
  intros H. induction l as [|a l IH]; [reflexivity|].
  simpl. rewrite H, IH. reflexivity.
Qed.

Lemma map_const_seq {A B} (b : B) (l : list A) :
  map (fun _ => b) l = map (fun _ => b) (seq 0 (List.length l)).
Proof.
  generalize 0%nat. induction l as [|a l IH]; intros s; simpl; [reflexivity|].
  f_equal. apply IH.
Qed.

(** ** The weighted mean of a filled window *)

Lemma np_sum_arange (n : nat) : np_sum (arange1 n) = weight_sum n.
Proof.
  unfold np_sum, arange1, weight_sum.
  induction n as [|n IH]; [reflexivity|].
  rewrite seq_S, fold_left_app, IH. cbn [fold_left].
  replace (S n * (S n + 1))%nat with (n * (n + 1) + (S n) * 2)%nat by lia.
  rewrite Nat.div_add by lia. reflexivity.
Qed.

Lemma weight_sum_pos (n : nat) : (1 <= n)%nat -> (0 < weight_sum n)%nat.
Proof.
  intros H. unfold weight_sum.
  apply Nat.div_str_pos. nia.
Qed.

Lemma series_times_rows (x : series) (w : list nat) :
  List.length x = List.length w -> series_times x w = times_rows x w.
Proof.
  intros H. destruct w as [|k [|k' w]]; try reflexivity.
  destruct x as [|a [|a' x]]; try discriminate H. reflexivity.
Qed.

Lemma times_rows_finite (g : nat -> Qc) (n a : nat) :
  times_rows (map (fun k => Num (g k)) (seq a n)) (seq (S a) n)
  = Ok (map (fun k => Num (g k * of_nat (S k))%Qc) (seq a n)).
Proof.
  revert a. induction n as [|n IH]; intros a; [reflexivity|].
  simpl. rewrite IH. reflexivity.
Qed.

Lemma series_times_finite (g : nat -> Qc) (n a : nat) :
  series_times (map (fun k => Num (g k)) (seq a n)) (seq (S a) n)
  = Ok (map (fun k => Num (g k * of_nat (S k))%Qc) (seq a n)).
Proof.
  rewrite series_times_rows by (rewrite length_map, !length_seq; reflexivity).
  apply times_rows_finite.
Qed.

Lemma series_sum_finite (h : nat -> Qc) (n : nat) (acc : Qc) :
  fold_left qadd (filter (fun v => negb (isnan v))
                         (map (fun k => Num (h k)) (seq 0 n))) (Num acc)
  = Num (fold_left Qcplus (map h (seq 0 n)) acc).
Proof.
  generalize 0%nat. revert acc.
  induction n as [|n IH]; intros acc s; [reflexivity|].
  simpl. apply IH.
Qed.

Lemma weighted_total_fold (x : series) (base n : nat) :
  fold_left Qcplus
    (map (fun k => (value (entry x (base + k)) * of_nat (S k))%Qc) (seq 0 n))
    0%Qc
  = weighted_total x base n.
Proof.
  induction n as [|n IH]; [reflexivity|].
  rewrite seq_S, map_app, fold_left_app, IH. simpl. ring.
Qed.

Lemma qdiv_by_weight (s : Qc) (n : nat) :
  (0 < n)%nat -> qdiv (Num s) (Num (of_nat n)) = Num (s / of_nat n)%Qc.
Proof.
  intros H. unfold qdiv, fdiv.
  rewrite Qc_is_zero_pos by (apply of_nat_pos; exact H). reflexivity.
Qed.

Lemma finite_is_value (v : qnum) : isfinite v = true -> v = Num (value v).
Proof. destruct v; simpl; congruence. Qed.

Lemma isfinite_prep (v : qnum) : isfinite (prep_value v) = isfinite v.
Proof. destruct v; reflexivity. Qed.

Lemma prep_finite (v : qnum) : isfinite v = true -> prep_value v = v.
Proof. destruct v; simpl; congruence. Qed.

Lemma weighted_mean_filled (x : series) (base n : nat) :
  (1 <= n)%nat ->
  all_defined x base n = true ->
  weighted_mean n (map (fun k => prep_value (entry x (base + k))) (seq 0 n))
  = Ok (Num (weighted_total x base n / of_nat (weight_sum n))%Qc).
Proof.
  intros Hn Hall. unfold weighted_mean, arange1.
  assert (E : map (fun k => prep_value (entry x (base + k))) (seq 0 n)
              = map (fun k => Num (value (entry x (base + k)))) (seq 0 n)).
  { apply map_ext_in. intros k Hk. unfold all_defined in Hall.
    rewrite forallb_forall in Hall. specialize (Hall k Hk).
    rewrite prep_finite by exact Hall. apply finite_is_value. exact Hall. }
  rewrite E, series_times_finite. simpl.
  unfold series_sum. rewrite series_sum_finite, weighted_total_fold.
  fold (arange1 n). rewrite np_sum_arange.
  rewrite qdiv_by_weight by (apply weight_sum_pos; exact Hn). reflexivity.
Qed.

(** ** The rolling window against the index definition *)

Lemma entry_prep (x : series) (j : nat) :
  nth j (map prep_value x) NaN = prep_value (entry x j).
Proof. unfold entry. change NaN with (prep_value NaN) at 1. apply map_nth. Qed.

Lemma rolling_weighted_mean (length : nat) (x : series) :
  (1 <= length)%nat ->
  rolling_apply length (weighted_mean length) x = Ok (ref_wma length x).
Proof.
  intros HL. unfold rolling_apply, ref_wma. rewrite length_map.
  apply mapM_ok. intros i Hi. apply in_seq in Hi. cbv beta zeta.
  rewrite (@slice_by_index qnum NaN) by (rewrite length_map; lia).
  erewrite map_ext by (intros k; apply entry_prep).
  unfold count_finite.
  destruct (length <=? i + 1)%nat eqn:Hw; cbn [andb].
  - apply Nat.leb_le in Hw.
    replace (i + 1 - (i + 1 - length))%nat with length by lia.
    set (w := map _ (seq 0 length)).
    assert (Hlen : List.length w = length)
      by (unfold w; rewrite length_map, length_seq; reflexivity).
    replace (length <=? List.length (filter isfinite w))%nat
      with (forallb isfinite w)
      by (rewrite <- (filter_all isfinite w); f_equal; exact Hlen).
    assert (Hd : forallb isfinite w = all_defined x (i + 1 - length) length).
    { unfold w, all_defined. apply forallb_map_pointwise.
      intros k. apply isfinite_prep. }
    rewrite Hd. destruct (all_defined x (i + 1 - length) length) eqn:Hall.
    + unfold w. apply weighted_mean_filled; assumption.
    + reflexivity.
  - apply Nat.leb_gt in Hw.
    set (w := map _ _).
    assert (Hlen : (List.length w < length)%nat)
      by (unfold w; rewrite length_map, length_seq; lia).
    pose proof (filter_length_le isfinite w).
    destruct (length <=? _)%nat eqn:Hc; [|reflexivity].
    apply Nat.leb_le in Hc. lia.
Qed.

(** ** Division row by row *)

Lemma qdiv_nan_l (v : qnum) : qdiv NaN v = NaN.
Proof. reflexivity. Qed.

Lemma qdiv_nan_r (v : qnum) : qdiv v NaN = NaN.
Proof. destruct v; reflexivity. Qed.

Lemma entry_nil {A} (i : nat) : entry (@nil (fnum A)) i = NaN.
Proof. destruct i; reflexivity. Qed.

Lemma series_div_by_index (x y : series) :
  series_div x y = ref_quot x y.
Proof.
  unfold ref_quot. revert y.
  induction x as [|a x IH]; intros y.
  - simpl. rewrite map_const_seq. apply map_ext. intros i.
    rewrite entry_nil. reflexivity.
  - destruct y as [|b y].
    + cbn [series_div]. rewrite Nat.max_0_r, map_const_seq.
      apply map_ext. intros i. rewrite entry_nil, qdiv_nan_r. reflexivity.
    + cbn [series_div List.length Nat.max seq map]. f_equal.
      rewrite <- seq_shift, map_map. apply IH.
Qed.

Lemma series_div_length (x y : series) :
  List.length (series_div x y) = Nat.max (List.length x) (List.length y).
Proof.
  rewrite series_div_by_index. unfold ref_quot.
  rewrite length_map, length_seq. reflexivity.
Qed.

(** ** The engine, column by column *)

Lemma frame_rolling_weighted_mean (length : nat) (d : frame Qc) :
  (1 <= length)%nat ->
  frame_rolling_apply length (weighted_mean length) d
  = Ok (frame_map (ref_wma length) d).
Proof.
  intros HL. unfold frame_rolling_apply, frame_map.
  apply mapM_ok. intros c _.
  rewrite rolling_weighted_mean by exact HL. reflexivity.
Qed.

Lemma frame_div_map (g : series -> series) (d : frame Qc) :
  frame_div d (frame_map g d) = frame_map (fun c => series_div c (g c)) d.
Proof.
  induction d as [|[name c] d IH]; [reflexivity|].
  simpl. f_equal. exact IH.
Qed.

Lemma frame_map_map {A B C} (f : list (fnum A) -> list (fnum B))
    (g : list (fnum B) -> list (fnum C)) (d : frame A) :
  frame_map g (frame_map f d) = frame_map (fun c => g (f c)) d.
Proof. unfold frame_map. rewrite map_map. reflexivity. Qed.

Lemma frame_map_ext {A B} (f g : list (fnum A) -> list (fnum B)) (d : frame A) :
  (forall c, f c = g c) -> frame_map f d = frame_map g d.
Proof. intros H. unfold frame_map. apply map_ext. intros c. rewrite H. reflexivity. Qed.

Lemma engine_by_index (data : frame Qc) (benchmark : series) (length : nat) :
  (1 <= length)%nat ->
  calculate_rrg_components_improved data benchmark length
  = Ok (frame_map (fun price => ref_rs_ratio length price benchmark) data,
        frame_map (fun price => ref_rs_momentum length price benchmark) data).
Proof.
  intros HL. unfold calculate_rrg_components_improved, frame_div_axis0.
  rewrite frame_rolling_weighted_mean by exact HL. cbn [bind].
  rewrite frame_div_map, frame_rolling_weighted_mean by exact HL. cbn [bind].
  rewrite frame_rolling_weighted_mean by exact HL. cbn [bind].
  rewrite frame_div_map. rewrite !frame_map_map.
  f_equal. f_equal.
  - apply frame_map_ext. intros c.
    unfold ref_rs_ratio, ref_raw_ratio, ref_scaled, times100.
    rewrite !series_div_by_index. reflexivity.
  - apply frame_map_ext. intros c.
    unfold ref_rs_momentum, ref_rs_ratio, ref_raw_ratio, ref_scaled, times100.
    rewrite !series_div_by_index. reflexivity.
Qed.

(** ** Warm-up: from which row on a series is defined *)

Lemma entry_map_seq {A} (F : nat -> fnum A) (n i : nat) :
  (i < n)%nat -> entry (map F (seq 0 n)) i = F i.
Proof.
  intros H. unfold entry.
  rewrite (nth_indep _ NaN (F 0%nat)) by (rewrite length_map, length_seq; exact H).
  rewrite map_nth, seq_nth by exact H. reflexivity.
Qed.

Lemma ref_wma_length (length : nat) (x : series) :
  List.length (ref_wma length x) = List.length x.
Proof. unfold ref_wma. rewrite length_map, length_seq. reflexivity. Qed.

Lemma weighted_total_pos (x : series) (base n : nat) :
  (1 <= n)%nat ->
  (forall k, (k < n)%nat -> exists q, (0 < q)%Qc /\ entry x (base + k) = Num q) ->
  (0 < weighted_total x base n)%Qc.
Proof.
  induction n as [|n IH]; intros Hn H; [lia|].
  cbn [weighted_total].
  destruct (H n (Nat.lt_succ_diag_r n)) as (q & Hq & Eq). rewrite Eq. cbn [value].
  assert (Hterm : (0 < of_nat (S n) * q)%Qc)
    by (apply Qc_pos_mul; [apply of_nat_pos; lia|exact Hq]).
  destruct n as [|n].
  - cbn [weighted_total]. rewrite Qcplus_0_l. exact Hterm.
  - apply Qc_pos_add; [|exact Hterm].
    apply IH; [lia|]. intros k Hk. apply H. lia.
Qed.

Lemma all_defined_true (x : series) (base n : nat) :
  (forall k, (k < n)%nat -> isfinite (entry x (base + k)) = true) ->
  all_defined x base n = true.
Proof.
  intros H. unfold all_defined. apply forallb_forall.
  intros k Hk. apply in_seq in Hk. apply H. lia.
Qed.

Lemma all_defined_false (x : series) (base n k : nat) :
  (k < n)%nat -> isfinite (entry x (base + k)) = false ->
  all_defined x base n = false.
Proof.
  intros Hk Hf. unfold all_defined.
  destruct (forallb _ _) eqn:E; [|reflexivity].
  rewrite forallb_forall in E.
  rewrite E in Hf by (apply in_seq; lia). discriminate.
Qed.

Lemma ref_wma_positive_from (length k : nat) (x : series) :
  (1 <= length)%nat ->
  positive_from k x ->
  positive_from (k + (length - 1)) (ref_wma length x).
Proof.
  intros HL Hx i Hi. rewrite ref_wma_length in Hi.
  unfold ref_wma. rewrite entry_map_seq by exact Hi.
  destruct (i <? k + (length - 1))%nat eqn:Hk.
  - apply Nat.ltb_lt in Hk.
    destruct (length <=? i + 1)%nat eqn:Hw; [|reflexivity]. cbn [andb].
    apply Nat.leb_le in Hw.
    rewrite (@all_defined_false x (i + 1 - length) length 0); [reflexivity|lia|].
    specialize (Hx (i + 1 - length)%nat).
    rewrite Nat.add_0_r.
    replace (i + 1 - length <? k)%nat with true in Hx
      by (symmetry; apply Nat.ltb_lt; lia).
    rewrite Hx by lia. reflexivity.
  - apply Nat.ltb_ge in Hk.
    assert (Hrow : forall j, (j < length)%nat ->
              exists q, (0 < q)%Qc /\ entry x (i + 1 - length + j) = Num q).
    { intros j Hj. specialize (Hx (i + 1 - length + j)%nat).
      replace (i + 1 - length + j <? k)%nat with false in Hx
        by (symmetry; apply Nat.ltb_ge; lia).
      apply Hx. lia. }
    replace (length <=? i + 1)%nat with true by (symmetry; apply Nat.leb_le; lia).
    rewrite all_defined_true.
    + cbn [andb]. eexists. split; [|reflexivity].
      apply Qc_pos_div.
      * apply weighted_total_pos; assumption.
      * apply of_nat_pos, weight_sum_pos. exact HL.
    + intros j Hj. destruct (Hrow j Hj) as (q & _ & ->). reflexivity.
Qed.

Lemma qdiv_pos (p q : Qc) :
  (0 < p)%Qc -> (0 < q)%Qc -> qdiv (Num p) (Num q) = Num (p / q)%Qc.
Proof.
  intros _ Hq. unfold qdiv, fdiv. rewrite Qc_is_zero_pos by exact Hq.
  reflexivity.
Qed.

Lemma ref_quot_positive_from (a b : nat) (x y : series) :
  List.length x = List.length y ->
  positive_from a x -> positive_from b y ->
  positive_from (Nat.max a b) (ref_quot x y).
Proof.
  intros Hlen Hx Hy i Hi. unfold ref_quot in *.
  rewrite length_map, length_seq in Hi. rewrite entry_map_seq by exact Hi.
  rewrite <- Hlen, Nat.max_id in Hi.
  specialize (Hx i Hi). specialize (Hy i). rewrite <- Hlen in Hy.
  specialize (Hy Hi).
  destruct (Nat.ltb_spec i a) as [Ha|Ha], (Nat.ltb_spec i b) as [Hb|Hb].
  - replace (i <? Nat.max a b)%nat with true by (symmetry; apply Nat.ltb_lt; lia).
    rewrite Hx. reflexivity.
  - replace (i <? Nat.max a b)%nat with true by (symmetry; apply Nat.ltb_lt; lia).
    rewrite Hx. reflexivity.
  - replace (i <? Nat.max a b)%nat with true by (symmetry; apply Nat.ltb_lt; lia).
    rewrite Hy. apply qdiv_nan_r.
  - replace (i <? Nat.max a b)%nat with false by (symmetry; apply Nat.ltb_ge; lia).
    destruct Hx as (p & Hp & ->), Hy as (q & Hq & ->).
    rewrite qdiv_pos by assumption.
    eexists. split; [|reflexivity]. apply Qc_pos_div; assumption.
Qed.

Lemma ref_quot_length (x y : series) :
  List.length x = List.length y ->
  List.length (ref_quot x y) = List.length x.
Proof.
  intros H. unfold ref_quot. rewrite length_map, length_seq, <- H.
  apply Nat.max_id.
Qed.

Lemma of_Z_100_pos : (0 < of_Z 100)%Qc.
Proof. reflexivity. Qed.

Lemma entry_map {A B} (f : fnum A -> fnum B) (x : list (fnum A)) (i : nat) :
  f NaN = NaN -> entry (map f x) i = f (entry x i).
Proof.
  intros H. unfold entry. rewrite <- (map_nth f x NaN i), H. reflexivity.
Qed.

Lemma ref_scaled_positive_from (k : nat) (x : series) :
  positive_from k x -> positive_from k (ref_scaled x).
Proof.
  intros Hx i Hi. unfold ref_scaled in *. rewrite length_map in Hi.
  specialize (Hx i Hi). rewrite entry_map by reflexivity.
  destruct (i <? k)%nat.
  - rewrite Hx. reflexivity.
  - destruct Hx as (q & Hq & ->). eexists. split; [|reflexivity].
    apply Qc_pos_mul; [exact Hq|exact of_Z_100_pos].
Qed.

Lemma ref_scaled_length (x : series) :
  List.length (ref_scaled x) = List.length x.
Proof. unfold ref_scaled. apply length_map. Qed.

Lemma ref_rs_ratio_length (length : nat) (price benchmark : series) :
  List.length price = List.length benchmark ->
  List.length (ref_rs_ratio length price benchmark) = List.length price.
Proof.
  intros H. unfold ref_rs_ratio, ref_raw_ratio.
  rewrite ref_scaled_length, ref_wma_length, ref_quot_length;
    rewrite ?ref_wma_length, ?ref_quot_length; auto.
Qed.

Lemma ref_rs_ratio_positive_from (length : nat) (price benchmark : series) :
  (1 <= length)%nat ->
  List.length price = List.length benchmark ->
  positive_from 0 price -> positive_from 0 benchmark ->
  positive_from (2 * (length - 1)) (ref_rs_ratio length price benchmark).
Proof.
  intros HL Hlen Hp Hb. unfold ref_rs_ratio, ref_raw_ratio.
  apply ref_scaled_positive_from.
  replace (2 * (length - 1))%nat
    with (Nat.max 0 (0 + (length - 1)) + (length - 1))%nat by lia.
  apply ref_wma_positive_from; [exact HL|].
  pose proof (@ref_quot_positive_from 0 0 price benchmark Hlen Hp Hb) as Hraw.
  apply ref_quot_positive_from.
  - rewrite ref_wma_length. reflexivity.
  - exact Hraw.
  - apply ref_wma_positive_from; assumption.
Qed.

Lemma ref_rs_momentum_positive_from (length : nat) (price benchmark : series) :
  (1 <= length)%nat ->
  List.length price = List.length benchmark ->
  positive_from 0 price -> positive_from 0 benchmark ->
  positive_from (3 * (length - 1)) (ref_rs_momentum length price benchmark).
Proof.
  intros HL Hlen Hp Hb. unfold ref_rs_momentum.
  apply ref_scaled_positive_from.
  replace (3 * (length - 1))%nat
    with (Nat.max (2 * (length - 1)) (2 * (length - 1) + (length - 1)))%nat
    by lia.
  apply ref_quot_positive_from.
  - rewrite ref_wma_length. reflexivity.
  - apply ref_rs_ratio_positive_from; assumption.
  - apply ref_wma_positive_from; [exact HL|].
    apply ref_rs_ratio_positive_from; assumption.
Qed.

(** ** Columns of a mapped frame *)

Lemma column_at_map {A B} (f : list (fnum A) -> list (fnum B)) (d : frame A)
    (j : nat) :
  (j < List.length d)%nat ->
  column_at (frame_map f d) j = f (column_at d j).
Proof.
  unfold column_at, frame_map. revert j.
  induction d as [|c d IH]; intros j H; simpl in H; [lia|].
  destruct j as [|j]; [reflexivity|]. simpl. apply IH. lia.
Qed.

(** ** The indicator engine *)

(** C1: for every table, benchmark and window length of at least one, the
    engine returns, for every ticker column, exactly the two series of the
    reference definition: the raw ratio price / benchmark per date, its
    linearly weighted moving average (weight i for the i-th oldest row of
    the window, sum of weight times value over sum of weights), RS-Ratio
    as 100 times the same average of raw ratio / first average, and
    RS-Momentum as 100 times RS-Ratio over the same average of RS-Ratio. *)
Theorem C1_engine_equals_reference (data : frame Qc) (benchmark : series)
    (length : nat) :
  (1 <= length)%nat ->
  calculate_rrg_components_improved data benchmark length
  = Ok (frame_map (fun price => ref_rs_ratio length price benchmark) data,
        frame_map (fun price => ref_rs_momentum length price benchmark) data).
Proof. intros HL. apply engine_by_index. exact HL. Qed.

Lemma C1_witness :
  let data := [(lit "A", [Num (of_Z 1); Num (of_Z 2); NaN; Num (of_Z 4)])] in
  let benchmark := [Num (of_Z 1); Num (of_Z 0); Num (of_Z 1); Num (of_Z 2)] in
  (1 <= 2)%nat /\
  calculate_rrg_components_improved data benchmark 2
  = Ok (frame_map (fun price => ref_rs_ratio 2 price benchmark) data,
        frame_map (fun price => ref_rs_momentum 2 price benchmark) data).
Proof.
  intros data benchmark.
  split; [lia|]. apply (@C1_engine_equals_reference data benchmark 2). lia.
Defined.

(** C2, as the code has it: for every ticker column whose prices, and the
    benchmark's, are positive numbers at every date, the engine returns
    without error; RS-Ratio is not-a-number before row 2 * (length - 1)
    and a positive number from that row on; RS-Momentum, which takes a
    third pass of the moving average, is not-a-number before row
    3 * (length - 1) and a positive number from that row on. *)
Theorem C2_warm_up_rows (data : frame Qc) (benchmark : series)
    (length j : nat) :
  (1 <= length)%nat ->
  (j < List.length data)%nat ->
  List.length (column_at data j) = List.length benchmark ->
  positive_from 0 (column_at data j) ->
  positive_from 0 benchmark ->
  exists rs_ratio rs_momentum,
    calculate_rrg_components_improved data benchmark length
    = Ok (rs_ratio, rs_momentum)
    /\ List.length (column_at rs_ratio j) = List.length benchmark
    /\ List.length (column_at rs_momentum j) = List.length benchmark
    /\ positive_from (2 * (length - 1)) (column_at rs_ratio j)
    /\ positive_from (3 * (length - 1)) (column_at rs_momentum j).
Proof.
  intros HL Hj Hlen Hp Hb.
  eexists. eexists. split; [apply engine_by_index; exact HL|].
  rewrite !column_at_map by exact Hj.
  repeat split.
  - rewrite ref_rs_ratio_length; assumption.
  - unfold ref_rs_momentum.
    rewrite ref_scaled_length, ref_quot_length;
      rewrite ?ref_wma_length, ?ref_rs_ratio_length; auto.
  - apply ref_rs_ratio_positive_from; assumption.
  - apply ref_rs_momentum_positive_from; assumption.
Qed.

Lemma positive_from_start (x : series) :
  forallb (fun v => match v with Num q => Qc_ltb 0 q | _ => false end) x = true ->
  positive_from 0 x.
Proof.
  intros H i Hi. cbn [Nat.ltb Nat.leb].
  rewrite forallb_forall in H.
  specialize (H (entry x i) (nth_In x NaN Hi)).
  destruct (entry x i) as [| |q]; try discriminate.
  exists q. split; [|reflexivity].
  unfold Qc_ltb in H. apply Qclt_alt.
  destruct (0 ?= q)%Qc; try discriminate. reflexivity.
Qed.

Lemma C2_witness :
  let data := [(lit "A", map (fun z => Num (of_Z z)) [1; 2; 3; 4; 5; 6]%Z)] in
  let benchmark := repeat (Num (of_Z 1)) 6 in
  exists rs_ratio rs_momentum,
    calculate_rrg_components_improved data benchmark 2
    = Ok (rs_ratio, rs_momentum)
    /\ List.length (column_at rs_ratio 0) = List.length benchmark
    /\ List.length (column_at rs_momentum 0) = List.length benchmark
    /\ positive_from (2 * (2 - 1)) (column_at rs_ratio 0)
    /\ positive_from (3 * (2 - 1)) (column_at rs_momentum 0).
Proof.
  intros data benchmark.
  apply (@C2_warm_up_rows data benchmark 2 0).
  - lia.
  - simpl. lia.
  - reflexivity.
  - apply positive_from_start. reflexivity.
  - apply positive_from_start. reflexivity.
Defined.

(** C2 as stated fails: four valid rows, window length two, and
    RS-Momentum is still not-a-number at row 2 * (2 - 1). *)
Lemma C2_counterexample :
  let price := map (fun z => Num (of_Z z)) [1; 2; 3; 4]%Z in
  let benchmark := repeat (Num (of_Z 1)) 4 in
  (2 * 2 <= List.length price)%nat /\
  exists rs_ratio rs_momentum,
    calculate_rrg_components_improved [(lit "A", price)] benchmark 2
    = Ok (rs_ratio, rs_momentum)
    /\ entry (column_at rs_momentum 0) (2 * (2 - 1)) = NaN.
Proof.
  intros price benchmark. split; [simpl; lia|].
  eexists. eexists. split; [apply engine_by_index; lia|].
  reflexivity.
Qed.

(** ** The raw ratio where the benchmark is zero or missing *)

Lemma entry_ref_quot (x y : series) (i : nat) :
  entry (ref_quot x y) i = qdiv (entry x i) (entry y i).
Proof.
  unfold ref_quot.
  destruct (Nat.lt_ge_cases i (Nat.max (List.length x) (List.length y)))
    as [H|H].
  - rewrite entry_map_seq by exact H. reflexivity.
  - unfold entry. rewrite !nth_overflow;
      rewrite ?length_map, ?length_seq; try lia. reflexivity.
Qed.

(** C3, as the code has it: at a date where the benchmark is missing the
    raw ratio of every equity column is not-a-number; at a date where the
    benchmark is zero it is not-a-number when the equity price is zero or
    missing and an infinity with the sign of the price otherwise; the
    engine raises no exception. *)
Theorem C3_ratio_at_degenerate_benchmark (data : frame Qc)
    (benchmark : series) (j i : nat) :
  (j < List.length data)%nat ->
  let price := entry (column_at data j) i in
  let rs := entry (column_at (frame_div_axis0 data benchmark) j) i in
  (entry benchmark i = NaN -> rs = NaN)
  /\ (entry benchmark i = Num 0%Qc ->
      rs = match price with
           | NaN => NaN
           | Inf neg => Inf neg
           | Num p => if Qc_is_zero p then NaN else Inf (Qc_is_neg p)
           end)
  /\ exists indicators,
       calculate_rrg_components_improved data benchmark default_length
       = Ok indicators.
Proof.
  intros Hj price rs. subst price rs. unfold frame_div_axis0.
  rewrite column_at_map by exact Hj.
  rewrite series_div_by_index, entry_ref_quot.
  split; [|split].
  - intros ->. apply qdiv_nan_r.
  - intros ->. destruct (entry (column_at data j) i) as [|neg|p];
      try reflexivity.
    cbn. destruct neg; reflexivity.
  - eexists. apply engine_by_index. unfold default_length. lia.
Qed.

Lemma C3_witness :
  let data := [(lit "A", [Num (of_Z 100); Num (of_Z 0); NaN; Num (of_Z (-5))])] in
  let benchmark := [Num (of_Z 0); Num (of_Z 0); Num (of_Z 0); Num (of_Z 0)] in
  entry (column_at (frame_div_axis0 data benchmark) 0) 0 = Inf false
  /\ entry (column_at (frame_div_axis0 data benchmark) 0) 1 = NaN
  /\ entry (column_at (frame_div_axis0 data benchmark) 0) 3 = Inf true.
Proof.
  intros data benchmark.
  assert (Hj : (0 < List.length data)%nat) by (simpl; lia).
  pose proof (@C3_ratio_at_degenerate_benchmark data benchmark 0 0 Hj) as H0.
  pose proof (@C3_ratio_at_degenerate_benchmark data benchmark 0 1 Hj) as H1.
  pose proof (@C3_ratio_at_degenerate_benchmark data benchmark 0 3 Hj) as H3.
  cbv zeta in H0, H1, H3.
  destruct H0 as (_ & H0 & _), H1 as (_ & H1 & _), H3 as (_ & H3 & _).
  split; [|split].
  - rewrite H0 by reflexivity. reflexivity.
  - rewrite H1 by reflexivity. reflexivity.
  - rewrite H3 by reflexivity. reflexivity.
Defined.

(** C3 as stated fails: price 100 over benchmark 0 is plus infinity, not
    the not-a-number marker. *)
Lemma C3_counterexample :
  let data := [(lit "A", [Num (of_Z 100)])] in
  let benchmark := [Num (of_Z 0)] in
  entry benchmark 0 = Num 0%Qc
  /\ entry (column_at (frame_div_axis0 data benchmark) 0) 0 = Inf false
  /\ isnan (entry (column_at (frame_div_axis0 data benchmark) 0) 0) = false.
Proof. repeat split. Qed.

(** ** The forty-day scenario *)

Lemma Qc_ltb_lt (a b : Qc) : Qc_ltb a b = true -> (a < b)%Qc.
Proof.
  unfold Qc_ltb. intros H. apply Qclt_alt.
  destruct (a ?= b)%Qc; try discriminate. reflexivity.
Qed.

Lemma falling_sound (gap : Qc) (x : series) :
  falling gap x = true ->
  forall i, (S i < List.length x)%nat ->
    exists a b, entry x i = Num a /\ entry x (S i) = Num b
                /\ (b + gap < a)%Qc.
Proof.
  induction x as [|v x IH]; intros H i Hi; [simpl in Hi; lia|].
  destruct v as [| |a]; try discriminate.
  destruct x as [|w x]; [simpl in Hi; lia|].
  destruct w as [| |b]; try discriminate.
  cbn [falling] in H. apply andb_prop in H. destruct H as [Hab Hrest].
  destruct i as [|i].
  - exists a, b. repeat split. apply Qc_ltb_lt. exact Hab.
  - apply (IH Hrest i). simpl in *. lia.
Qed.

Lemma scenario_rs_ratio_falls :
  match calculate_rrg_components_improved scenario_data scenario_benchmark
          default_length with
  | Ok indicators =>
      let rs_ratio := column_at (fst indicators) 0 in
      (List.length rs_ratio =? 40)%nat
      && forallb isnan (firstn 26 rs_ratio)
      && falling margin (skipn 26 rs_ratio)
  | Raise _ => false
  end = true.
Proof. vm_compute. reflexivity. Qed.

Lemma scenario_rows (i : nat) :
  (26 <= i < 39)%nat ->
  exists indicators a b,
    calculate_rrg_components_improved scenario_data scenario_benchmark
      default_length = Ok indicators
    /\ entry (column_at (fst indicators) 0) i = Num a
    /\ entry (column_at (fst indicators) 0) (S i) = Num b
    /\ (b + margin < a)%Qc.
Proof.
  intros Hi. pose proof scenario_rs_ratio_falls as H.
  destruct (calculate_rrg_components_improved _ _ _) as [indicators|];
    [|discriminate].
  cbv zeta in H. apply andb_prop in H. destruct H as [H Hfall].
  apply andb_prop in H. destruct H as [Hlen _]. apply Nat.eqb_eq in Hlen.
  destruct (@falling_sound _ _ Hfall (i - 26)) as (a & b & Ea & Eb & Hab).
  - rewrite length_skipn. lia.
  - unfold entry in Ea, Eb. rewrite nth_skipn in Ea, Eb.
    replace (26 + (i - 26))%nat with i in Ea by lia.
    replace (26 + S (i - 26))%nat with (S i) in Eb by lia.
    exists indicators, a, b. auto.
Qed.

Lemma below_by_margin (a b : Qc) : (b + margin < a)%Qc -> (b < a)%Qc.
Proof.
  intros H. apply Qcle_lt_trans with (b + margin)%Qc; [|exact H].
  rewrite <- (Qcplus_0_r b) at 1.
  apply Qcplus_le_compat; [apply Qcle_refl|discriminate].
Qed.

(** C9, as the code has it: in the forty-day scenario with window length
    14, RS-Ratio is a number at every row from the warm-up boundary 26 to
    the last row 39 and strictly decreases from each of these rows to the
    next, by more than a fiftieth. *)
Theorem C9_scenario_rs_ratio_decreases (i : nat) :
  (26 <= i < 39)%nat ->
  exists indicators a b,
    calculate_rrg_components_improved scenario_data scenario_benchmark 14
    = Ok indicators
    /\ entry (column_at (fst indicators) 0) i = Num a
    /\ entry (column_at (fst indicators) 0) (S i) = Num b
    /\ (b < a)%Qc /\ (b + margin < a)%Qc.
Proof.
  intros Hi. destruct (scenario_rows Hi) as (ind & a & b & E & Ea & Eb & H).
  exists ind, a, b. repeat split; try assumption.
  apply below_by_margin. exact H.
Qed.

Lemma C9_witness :
  exists indicators a b,
    calculate_rrg_components_improved scenario_data scenario_benchmark 14
    = Ok indicators
    /\ entry (column_at (fst indicators) 0) 30 = Num a
    /\ entry (column_at (fst indicators) 0) 31 = Num b
    /\ (b < a)%Qc /\ (b + margin < a)%Qc.
Proof. apply (@C9_scenario_rs_ratio_decreases 30). lia. Defined.

(** C9 as stated fails: RS-Ratio is defined at rows 26 and 27, both after
    the warm-up, and is smaller at row 27 than at row 26. *)
Lemma C9_counterexample :
  exists indicators a b,
    calculate_rrg_components_improved scenario_data scenario_benchmark 14
    = Ok indicators
    /\ entry (column_at (fst indicators) 0) 26 = Num a
    /\ entry (column_at (fst indicators) 0) 27 = Num b
    /\ (b < a)%Qc.
Proof.
  destruct (@scenario_rows 26) as (ind & a & b & E & Ea & Eb & H); [lia|].
  exists ind, a, b. repeat split; try assumption.
  apply below_by_margin. exact H.
Qed.

(** ** Real arithmetic with the special values *)

Lemma R_is_zero_false (r : R) : r <> 0%R -> R_is_zero r = false.
Proof. intros H. unfold R_is_zero. destruct (Req_dec_T r 0); tauto. Qed.

Lemma R_is_zero_0 : R_is_zero 0 = true.
Proof. unfold R_is_zero. destruct (Req_dec_T 0 0); tauto. Qed.

Lemma R_is_neg_false (r : R) : (0 <= r)%R -> R_is_neg r = false.
Proof. intros H. unfold R_is_neg. destruct (Rlt_dec r 0); [lra|reflexivity]. Qed.

Lemma rdiv_num (a b : R) : b <> 0%R -> rdiv (Num a) (Num b) = Num (a / b)%R.
Proof. intros H. unfold rdiv, fdiv. rewrite R_is_zero_false by exact H. reflexivity. Qed.

Lemma rdiv_nan_r (v : rnum) : rdiv v NaN = NaN.
Proof. destruct v; reflexivity. Qed.

Lemma INR_S_neq_0 (n : nat) : INR (S n) <> 0%R.
Proof. apply not_0_INR. discriminate. Qed.

(** ** Sums of a column *)

Definition no_inf (x : list rnum) : Prop :=
  Forall (fun v => isinf v = false) x.

Lemma fold_radd_finite_inv (l : list rnum) (acc : rnum) (t : R) :
  fold_left radd l acc = Num t ->
  isfinite acc = true /\ Forall (fun v => isfinite v = true) l.
Proof.
  revert acc. induction l as [|a l IH]; intros acc H; simpl in H.
  - subst acc. split; [reflexivity|constructor].
  - destruct (IH _ H) as [Hacc Hl].
    destruct acc as [|sa|p], a as [|sb|q]; simpl in Hacc; try discriminate.
    + unfold radd, fadd in Hacc. destruct (Bool.eqb sa sb); discriminate.
    + split; [reflexivity|]. constructor; [reflexivity|exact Hl].
Qed.

Lemma fold_radd_numbers (l : list R) (a : R) :
  fold_left radd (map Num l) (Num a) = Num (a + total l)%R.
Proof.
  revert a. induction l as [|r l IH]; intros a; simpl.
  - f_equal. lra.
  - change (radd (Num a) (Num r)) with (@Num R (a + r)%R).
    rewrite IH. f_equal. lra.
Qed.

Lemma rsum_numbers (l : list R) : rsum (map Num l) = Num (total l).
Proof. unfold rsum. rewrite fold_radd_numbers. f_equal. lra. Qed.

Lemma valid_numbers (x : list rnum) :
  no_inf x -> valid x = map Num (numbers x).
Proof.
  unfold valid. induction 1 as [|v x Hv _ IH]; [reflexivity|].
  destruct v; simpl in *; try discriminate; rewrite IH; reflexivity.
Qed.

Lemma mean_numbers (x : list rnum) :
  no_inf x ->
  mean x = match numbers x with
           | [] => NaN
           | _ => Num (average (numbers x))
           end.
Proof.
  intros H. unfold mean. rewrite valid_numbers by exact H.
  rewrite length_map, rsum_numbers.
  destruct (numbers x) as [|r l]; [reflexivity|].
  cbn [List.length]. rewrite rdiv_num by apply INR_S_neq_0. reflexivity.
Qed.

Lemma var_numbers (x : list rnum) :
  no_inf x ->
  var x = match numbers x with
          | [] | [_] => NaN
          | l => Num (total (map (fun r => Rsqr (r - average l)) l)
                      / INR (List.length l - 1))%R
          end.
Proof.
  intros H. unfold var. rewrite valid_numbers by exact H.
  rewrite length_map, rsum_numbers.
  destruct (numbers x) as [|r0 [|r1 l]]; try reflexivity.
  cbn [List.length]. cbv zeta. set (nums := r0 :: r1 :: l).
  rewrite rdiv_num by apply INR_S_neq_0.
  rewrite map_map.
  replace (map _ nums)
    with (map Num (map (fun r => Rsqr (r - average nums)) nums)).
  - rewrite rsum_numbers, rdiv_num by apply INR_S_neq_0.
    reflexivity.
  - rewrite map_map. apply map_ext. intros r.
    cbv [rmul rsub fmul fsub]. f_equal. unfold average, Rsqr.
    change (List.length nums) with (S (S (List.length l))). ring.
Qed.

(** ** A usable deviation rules out the special values *)

Lemma rmul_square_finite (e : rnum) : isfinite (rmul e e) = true -> isfinite e = true.
Proof. destruct e; simpl; auto. Qed.

Lemma rsub_finite_r (a v : rnum) : isfinite (rsub a v) = true -> isfinite v = true.
Proof.
  destruct a as [|sa|p], v as [|sb|q]; simpl; auto.
  destruct (Bool.eqb sa sb); auto.
Qed.

Lemma var_no_inf (x : list rnum) (v : R) : var x = Num v -> no_inf x.
Proof.
  unfold var. intros V.
  destruct (List.length (valid x)) as [|[|d]]; try discriminate.
  cbv zeta in V.
  match type of V with rdiv (rsum ?sqr) _ = _ =>
    destruct (rsum sqr) as [|neg|t] eqn:S; try discriminate;
    apply fold_radd_finite_inv in S; destruct S as [_ S]
  end.
  rewrite Forall_map, Forall_forall in S.
  apply Forall_forall. intros w Hw.
  destruct w as [|neg|r]; try reflexivity.
  assert (Hin : In (Inf neg : rnum) (valid x)) by (apply filter_In; auto).
  specialize (S _ Hin). apply rmul_square_finite, rsub_finite_r in S.
  discriminate.
Qed.

Lemma std_var (x : list rnum) (s : R) :
  std x = Num s -> exists v, var x = Num v /\ (0 <= v)%R /\ s = sqrt v.
Proof.
  unfold std, rsqrt. intros H.
  destruct (var x) as [|neg|v]; try discriminate.
  - destruct neg; discriminate.
  - unfold R_is_neg in H. destruct (Rlt_dec v 0); [discriminate|].
    exists v. repeat split; [lra|congruence].
Qed.

Lemma std_no_inf (x : list rnum) (s : R) : std x = Num s -> no_inf x.
Proof.
  intros H. destruct (@std_var _ _ H) as (v & V & _). exact (@var_no_inf _ _ V).
Qed.

Lemma std_deviation (x : list rnum) (s : R) :
  std x = Num s ->
  (2 <= List.length (numbers x))%nat /\ s = deviation (numbers x).
Proof.
  intros H. destruct (@std_var _ _ H) as (v & V & _ & ->).
  rewrite (@var_numbers _ (@var_no_inf _ _ V)) in V.
  destruct (numbers x) as [|r0 [|r1 l]]; try discriminate.
  split; [simpl; lia|]. unfold deviation. congruence.
Qed.

Lemma sqrt_nonzero_square (v : R) : sqrt v <> 0%R -> (sqrt v * sqrt v = v)%R.
Proof.
  intros H. apply sqrt_sqrt.
  destruct (Rle_lt_dec v 0) as [Hle|Hlt]; [|lra].
  exfalso. apply H. apply sqrt_neg_0. exact Hle.
Qed.

(** ** The normalised column *)

Definition rescale (m s : R) (v : rnum) : rnum :=
  match v with
  | Num r => Num ((r - m) / s)%R
  | _ => NaN
  end.

Lemma normalize_column_rescale (x : list rnum) (s : R) :
  std x = Num s -> s <> 0%R ->
  normalize_column x = map (rescale (average (numbers x)) s) x.
Proof.
  intros Hs Hnz. unfold normalize_column.
  pose proof (@std_no_inf _ _ Hs) as Hinf.
  destruct (@std_deviation _ _ Hs) as [Hlen _].
  rewrite Hs, (@mean_numbers _ Hinf).
  destruct (numbers x) as [|r0 l] eqn:E; [simpl in Hlen; lia|].
  apply map_ext_in. intros v Hv.
  unfold no_inf in Hinf. rewrite Forall_forall in Hinf. specialize (Hinf v Hv).
  destruct v as [|neg|r]; try discriminate; [reflexivity|].
  change (rsub (Num r) (Num (average (r0 :: l))))
    with (@Num R (r - average (r0 :: l))%R).
  rewrite rdiv_num by exact Hnz. reflexivity.
Qed.

Lemma numbers_rescale (m s : R) (x : list rnum) :
  no_inf x ->
  numbers (map (rescale m s) x) = map (fun r => ((r - m) / s)%R) (numbers x).
Proof.
  induction 1 as [|v x Hv _ IH]; [reflexivity|].
  destruct v; simpl in *; try discriminate; rewrite IH; reflexivity.
Qed.

Lemma no_inf_rescale (m s : R) (x : list rnum) : no_inf (map (rescale m s) x).
Proof.
  apply Forall_map, Forall_forall. intros v _. destruct v; reflexivity.
Qed.

Lemma total_rescale (m s : R) (l : list R) :
  s <> 0%R ->
  total (map (fun r => ((r - m) / s)%R) l)
  = ((total l - INR (List.length l) * m) / s)%R.
Proof.
  intros Hs. induction l as [|r l IH].
  - simpl. field. exact Hs.
  - cbn [map total fold_right]. fold (total (map (fun r => ((r - m) / s)%R) l)).
    rewrite IH. fold (total l). change (List.length (r :: l)) with (S (List.length l)).
    rewrite S_INR. field. exact Hs.
Qed.

Lemma average_rescale (s : R) (l : list R) :
  s <> 0%R -> (1 <= List.length l)%nat ->
  average (map (fun r => ((r - average l) / s)%R) l) = 0%R.
Proof.
  intros Hs Hl. unfold average at 1. rewrite total_rescale by exact Hs.
  rewrite length_map. unfold average.
  assert (Hn : INR (List.length l) <> 0%R) by (apply not_0_INR; lia).
  field. split; assumption.
Qed.

Lemma squares_rescale (m s : R) (l : list R) :
  s <> 0%R ->
  total (map (fun y => Rsqr (y - 0)) (map (fun r => ((r - m) / s)%R) l))
  = (total (map (fun r => Rsqr (r - m)) l) / (s * s))%R.
Proof.
  intros Hs. induction l as [|r l IH].
  - simpl. field. exact Hs.
  - cbn [map total fold_right].
    fold (total (map (fun y => Rsqr (y - 0))
                   (map (fun r => ((r - m) / s)%R) l))).
    fold (total (map (fun r => Rsqr (r - m)) l)).
    rewrite IH. unfold Rsqr. field. exact Hs.
Qed.

Lemma deviation_rescale (l : list R) :
  deviation l <> 0%R -> (2 <= List.length l)%nat ->
  deviation (map (fun r => ((r - average l) / deviation l)%R) l) = 1%R.
Proof.
  intros Hs Hl.
  set (s := deviation l) in *.
  unfold deviation at 1.
  rewrite average_rescale by (try exact Hs; lia).
  rewrite squares_rescale by exact Hs. rewrite length_map.
  assert (Hsq : (s * s = total (map (fun r => Rsqr (r - average l)) l)
                         / INR (List.length l - 1))%R)
    by (apply sqrt_nonzero_square; exact Hs).
  assert (Hn : INR (List.length l - 1) <> 0%R) by (apply not_0_INR; lia).
  set (T := total (map (fun r => Rsqr (r - average l)) l)) in *.
  replace (T / (s * s) / INR (List.length l - 1))%R with 1%R.
  - apply sqrt_1.
  - rewrite Hsq. field. split; [exact Hn|].
    intros HT. apply Hs. unfold s, deviation. fold T. rewrite HT.
    unfold Rdiv. rewrite Rmult_0_l. apply sqrt_0.
Qed.

Lemma std_numbers (x : list rnum) :
  no_inf x -> (2 <= List.length (numbers x))%nat ->
  deviation (numbers x) <> 0%R ->
  std x = Num (deviation (numbers x)).
Proof.
  intros Hinf Hlen Hdev. unfold std. rewrite (@var_numbers _ Hinf).
  destruct (numbers x) as [|r0 [|r1 l]]; try (simpl in Hlen; lia).
  set (nums := r0 :: r1 :: l) in *. unfold rsqrt.
  rewrite R_is_neg_false; [reflexivity|].
  match goal with |- (0 <= ?V)%R =>
    destruct (Rle_lt_dec 0 V) as [H|H]; [exact H|] end.
  exfalso. apply Hdev. unfold deviation. apply sqrt_neg_0. lra.
Qed.

Lemma normalized_mean_std (x : list rnum) (s : R) :
  std x = Num s -> s <> 0%R ->
  mean (normalize_column x) = Num 0%R /\ std (normalize_column x) = Num 1%R.
Proof.
  intros Hs Hnz.
  pose proof (@std_no_inf _ _ Hs) as Hinf.
  destruct (@std_deviation _ _ Hs) as [Hlen Hdev].
  rewrite (@normalize_column_rescale _ _ Hs Hnz).
  set (l := numbers x) in *.
  assert (Hl : numbers (map (rescale (average l) s) x)
               = map (fun r => ((r - average l) / s)%R) l)
    by (apply numbers_rescale; exact Hinf).
  split.
  - rewrite (@mean_numbers _ (no_inf_rescale _ _ _)), Hl.
    destruct l as [|r0 l0] eqn:El; [simpl in Hlen; lia|].
    rewrite <- El in *. 
    replace (map _ l) with (map (fun r => ((r - average l) / s)%R) l) by reflexivity.
    destruct (map (fun r => ((r - average l) / s)%R) l) eqn:Em.
    + rewrite El in Em. discriminate.
    + rewrite <- Em. rewrite average_rescale; [reflexivity|exact Hnz|lia].
  - assert (Hone : deviation (map (fun r => ((r - average l) / s)%R) l) = 1%R)
      by (rewrite Hdev; apply deviation_rescale; [rewrite <- Hdev; exact Hnz|exact Hlen]).
    rewrite std_numbers.
    + rewrite Hl, Hone. reflexivity.
    + apply no_inf_rescale.
    + rewrite Hl, length_map. exact Hlen.
    + rewrite Hl, Hone. lra.
Qed.

Lemma rescale_twice (m s : R) (v : rnum) :
  rescale 0 1 (rescale m s v) = rescale m s v.
Proof.
  destruct v; try reflexivity. simpl. f_equal.
  unfold Rdiv. rewrite Rinv_1. ring.
Qed.

Lemma normalize_column_idempotent (x : list rnum) (s : R) :
  std x = Num s -> s <> 0%R ->
  normalize_column (normalize_column x) = normalize_column x.
Proof.
  intros Hs Hnz.
  destruct (@normalized_mean_std _ _ Hs Hnz) as [Hmean Hstd].
  pose proof (@std_no_inf _ _ Hstd) as Hinf.
  assert (Havg : average (numbers (normalize_column x)) = 0%R).
  { rewrite (@mean_numbers _ Hinf) in Hmean.
    destruct (numbers (normalize_column x)); [discriminate|].
    injection Hmean as Hmean. exact Hmean. }
  rewrite (@normalize_column_rescale (normalize_column x) 1 Hstd) by lra.
  rewrite Havg, (@normalize_column_rescale _ _ Hs Hnz).
  rewrite map_map. apply map_ext. intros v. apply rescale_twice.
Qed.

Lemma normalize_column_length (x : list rnum) :
  List.length (normalize_column x) = List.length x.
Proof. unfold normalize_column. apply length_map. Qed.

(** ** The constant column *)

Lemma total_constant (c : R) (l : list R) :
  Forall (eq c) l -> total l = (INR (List.length l) * c)%R.
Proof.
  induction 1 as [|r l <- _ IH].
  - simpl. lra.
  - cbn [total fold_right]. fold (total l). rewrite IH.
    change (List.length (c :: l)) with (S (List.length l)).
    rewrite S_INR. lra.
Qed.

Lemma squares_constant (c : R) (l : list R) :
  Forall (eq c) l -> total (map (fun r => Rsqr (r - c)) l) = 0%R.
Proof.
  induction 1 as [|r l <- _ IH]; [reflexivity|].
  cbn [map total fold_right]. fold (total (map (fun r => Rsqr (r - c)) l)).
  rewrite IH. unfold Rsqr. lra.
Qed.

Lemma average_constant (c : R) (l : list R) :
  Forall (eq c) l -> (1 <= List.length l)%nat -> average l = c.
Proof.
  intros H Hl. unfold average. rewrite (total_constant H).
  field. apply not_0_INR. lia.
Qed.

Lemma numbers_constant (c : R) (x : list rnum) :
  (forall v, In v x -> v = NaN \/ v = Num c) ->
  no_inf x /\ Forall (eq c) (numbers x).
Proof.
  induction x as [|v x IH]; intros H; [split; constructor|].
  destruct IH as [Hinf Hc]; [intros w Hw; apply H; right; exact Hw|].
  destruct (H v (or_introl eq_refl)) as [-> | ->]; simpl.
  - split; [constructor; [reflexivity|exact Hinf]|exact Hc].
  - split; [constructor; [reflexivity|exact Hinf]|constructor; auto].
Qed.

Lemma rsub_nan_r (v : rnum) : rsub v NaN = NaN.
Proof. destruct v; reflexivity. Qed.

Lemma normalize_constant (c : R) (x : list rnum) :
  (forall v, In v x -> v = NaN \/ v = Num c) ->
  forall w, In w (normalize_column x) -> w = NaN.
Proof.
  intros H w Hw. destruct (numbers_constant x H) as [Hinf Hc].
  unfold normalize_column in Hw. apply in_map_iff in Hw.
  destruct Hw as (v & <- & Hv).
  destruct (H v Hv) as [-> | ->]; [reflexivity|].
  unfold std. rewrite (@mean_numbers _ Hinf), (@var_numbers _ Hinf).
  destruct (numbers x) as [|r0 [|r1 l]] eqn:E.
  - reflexivity.
  - apply rdiv_nan_r.
  - rewrite <- E in *.
    assert (Hlen : (2 <= List.length (numbers x))%nat) by (rewrite E; simpl; lia).
    cbv zeta. rewrite !(average_constant Hc) by lia.
    rewrite (squares_constant Hc).
    unfold Rdiv at 1. rewrite Rmult_0_l. unfold rsqrt.
    rewrite R_is_neg_false by lra. rewrite sqrt_0.
    cbv [rsub fsub rdiv fdiv].
    replace (c - c)%R with 0%R by lra. rewrite R_is_zero_0. reflexivity.
Qed.

Lemma entry_all_nan {A} (x : list (fnum A)) :
  (forall w, In w x -> w = NaN) -> forall i, entry x i = NaN.
Proof.
  intros H i. unfold entry.
  destruct (nth_in_or_default i x NaN) as [Hin|Hd]; [apply H; exact Hin|exact Hd].
Qed.

Lemma squares_nonneg (m : R) (l : list R) :
  (0 <= total (map (fun r => Rsqr (r - m)) l))%R.
Proof.
  induction l as [|r l IH]; [simpl; lra|].
  cbn [map total fold_right]. fold (total (map (fun r => Rsqr (r - m)) l)).
  pose proof (Rle_0_sqr (r - m)). lra.
Qed.

Lemma squares_zero (m : R) (l : list R) :
  total (map (fun r => Rsqr (r - m)) l) = 0%R -> Forall (eq m) l.
Proof.
  induction l as [|r l IH]; intros H; [constructor|].
  cbn [map total fold_right] in H.
  fold (total (map (fun r => Rsqr (r - m)) l)) in H.
  pose proof (Rle_0_sqr (r - m)) as Hr.
  pose proof (squares_nonneg m l) as Hl.
  constructor.
  - assert (Hz : Rsqr (r - m) = 0%R) by lra.
    apply Rsqr_0_uniq in Hz. lra.
  - apply IH. lra.
Qed.

Lemma std_zero_constant (x : list rnum) :
  std x = Num 0%R ->
  forall v, In v x -> v = NaN \/ v = Num (average (numbers x)).
Proof.
  intros Hs v Hv.
  pose proof (@std_no_inf _ _ Hs) as Hinf.
  destruct (@std_deviation _ _ Hs) as [Hlen Hdev].
  assert (Hn : (0 < INR (List.length (numbers x) - 1))%R)
    by (apply lt_0_INR; lia).
  assert (Hc : Forall (eq (average (numbers x))) (numbers x)).
  { apply squares_zero. unfold deviation in Hdev. symmetry in Hdev.
    pose proof (squares_nonneg (average (numbers x)) (numbers x)) as Hsq.
    apply sqrt_eq_0 in Hdev.
    - unfold Rdiv in Hdev. apply Rmult_integral in Hdev.
      destruct Hdev as [Hd|Hd]; [exact Hd|].
      exfalso. apply Rinv_neq_0_compat in Hd; [exact Hd|lra].
    - apply Rmult_le_pos; [exact Hsq|].
      apply Rlt_le, Rinv_0_lt_compat. exact Hn. }
  unfold no_inf in Hinf. rewrite Forall_forall in Hinf, Hc.
  specialize (Hinf v Hv). destruct v as [|neg|r]; try discriminate; [left; reflexivity|].
  right. f_equal. symmetry. apply Hc.
  clear - Hv. induction x as [|w x IH]; [destruct Hv|].
  destruct Hv as [->|Hv]; [left; reflexivity|].
  destruct w; simpl; auto.
Qed.

(** ** The normaliser's contract *)


Lemma deviation_1_3 : deviation [1; 3]%R = sqrt 2.
Proof.
  unfold deviation, average, total, Rsqr. simpl. f_equal. field.
Qed.

Lemma sqrt_2_neq_0 : sqrt 2 <> 0%R.
Proof. pose proof (sqrt_lt_R0 2). lra. Qed.




(** In exact arithmetic every column whose defined entries all carry one
    and the same value, and likewise every column whose standard deviation
    is the number zero, is returned as a column of the same length in
    which every entry is the not-a-number marker. *)
Lemma constant_column_exact (data : frame R) (j : nat) :
  (j < List.length data)%nat ->
  (exists c, forall v, In v (column_at data j) -> v = NaN \/ v = Num c)
  \/ std (column_at data j) = Num 0%R ->
  let y := column_at (normalize_data data) j in
  List.length y = List.length (column_at data j)
  /\ (forall w, In w y -> w = NaN)
  /\ (forall i, entry y i = NaN).
Proof.
  intros Hj H y. subst y. unfold normalize_data.
  rewrite column_at_map by exact Hj.
  assert (Hnan : forall w, In w (normalize_column (column_at data j)) ->
                           w = NaN).
  { destruct H as [[c H]|H].
    - exact (@normalize_constant c _ H).
    - exact (@normalize_constant _ _ (@std_zero_constant _ H)). }
  repeat split.
  - apply normalize_column_length.
  - exact Hnan.
  - apply entry_all_nan. exact Hnan.
Qed.

(** * The normaliser in binary64 *)

Section Binary64Facts.
Import PrimFloat SpecFloat FloatOps FloatAxioms Binary64.

(** ** Floats against their specification *)

Lemma Prim2SF_nan : Prim2SF nan = S754_nan.
Proof. reflexivity. Qed.

Lemma SFcompare_refl (p : spec_float) :
  p <> S754_nan -> SFcompare p p = Some Eq.
Proof.
  destruct p as [s|s| |s m e]; intros H; try congruence.
  - reflexivity.
  - destruct s; reflexivity.
  - cbn. destruct s; rewrite Z.compare_refl, Pos.compare_refl; reflexivity.
Qed.

Lemma is_nan_spec (v : float) : is_nan v = true -> v = nan.
Proof.
  unfold is_nan. rewrite eqb_spec. unfold SFeqb. intros H.
  apply Prim2SF_inj. rewrite Prim2SF_nan.
  destruct (Prim2SF v) eqn:E; try reflexivity;
    rewrite SFcompare_refl in H by discriminate; discriminate.
Qed.

Lemma of_SF_zero (v : float) (s : bool) :
  Prim2SF v = S754_zero s -> v = zero \/ v = neg_zero.
Proof.
  intros H. destruct s; [right|left]; apply Prim2SF_inj; rewrite H;
    reflexivity.
Qed.

Lemma finite_cases (c : float) :
  is_finite c = true ->
  (exists s, Prim2SF c = S754_zero s)
  \/ (exists s m e, Prim2SF c = S754_finite s m e).
Proof.
  unfold is_finite, is_nan, is_infinity.
  rewrite !eqb_spec, abs_spec.
  destruct (Prim2SF c) as [s|s| |s m e] eqn:E; intros H.
  - left. eexists. reflexivity.
  - exfalso. cbn in H.
    change (Prim2SF infinity) with (S754_infinity false) in H.
    cbn in H. destruct s; cbn in H; discriminate.
  - exfalso. cbn in H. discriminate.
  - right. do 3 eexists. reflexivity.
Qed.

Lemma finite_not_nan (c : float) : is_finite c = true -> is_nan c = false.
Proof.
  unfold is_finite. destruct (is_nan c); [discriminate|reflexivity].
Qed.

(** A finite number less itself is zero. *)
Lemma sub_self (c : float) : is_finite c = true -> sub c c = zero.
Proof.
  intros H. apply Prim2SF_inj. rewrite sub_spec.
  destruct (finite_cases c H) as [(s & ->)|(s & m & e & ->)].
  - destruct s; reflexivity.
  - unfold SF64sub, SFsub. rewrite Z.sub_diag. reflexivity.
Qed.

Lemma sub_nan_l (c : float) : sub nan c = nan.
Proof. apply Prim2SF_inj. rewrite sub_spec, Prim2SF_nan. reflexivity. Qed.

(** Zero over anything is a zero or not-a-number. *)
Lemma div_zero_l (y : float) : is_zero_or_nan (div zero y).
Proof.
  unfold is_zero_or_nan.
  pose proof (div_spec zero y) as H.
  change (Prim2SF zero) with (S754_zero false) in H.
  destruct (Prim2SF y) as [s|s| |s m e]; unfold SF64div, SFdiv in H.
  - right. right. apply Prim2SF_inj. rewrite H. reflexivity.
  - destruct (@of_SF_zero _ _ H); tauto.
  - right. right. apply Prim2SF_inj. rewrite H. reflexivity.
  - destruct (@of_SF_zero _ _ H); tauto.
Qed.

Lemma sqrt_zero_or_nan (v : float) :
  is_zero_or_nan v -> is_zero_or_nan (sqrt v).
Proof.
  unfold is_zero_or_nan. intros [ -> | [ -> | -> ] ]; vm_compute; tauto.
Qed.

Lemma div_by_zero_or_nan (a s : float) :
  a = zero \/ a = nan -> is_zero_or_nan s -> is_nan (div a s) = true.
Proof.
  unfold is_zero_or_nan. intros [ -> | -> ] [ -> | [ -> | -> ] ]; reflexivity.
Qed.

Lemma map_constant {A B} (f : A -> B) (b : B) (l : list A) :
  (forall a, In a l -> f a = b) -> map f l = repeat b (List.length l).
Proof.
  induction l as [|a l IH]; intros H; [reflexivity|].
  cbn [map List.length repeat]. rewrite (H a) by (left; reflexivity).
  f_equal. apply IH. intros a' Ha'. apply H. right. exact Ha'.
Qed.

Lemma count_le_length (x : list float) : (count x <= List.length x)%nat.
Proof. unfold count. apply filter_length_le. Qed.

Lemma sum_in_order_zeros (n : nat) : sum_in_order (repeat zero n) = zero.
Proof.
  unfold sum_in_order. induction n as [|n IH]; [reflexivity|].
  cbn [repeat fold_left]. exact IH.
Qed.

(** ** A column of one number *)

Section ConstantColumn.
Variable np_sum : list float -> float.
Variable x : list float.
Variable c : float.
Hypothesis Hsum : forall n, np_sum (repeat zero (S n)) = zero.
Hypothesis Hc : is_finite c = true.
Hypothesis Hx : forall v, In v x -> is_nan v = true \/ v = c.
Hypothesis Hm : mean64 np_sum x = c.

Lemma deviation_of_constant (v : float) :
  In v x -> sub v c = zero \/ sub v c = nan.
Proof.
  intros Hv. destruct (Hx v Hv) as [Hn | -> ].
  - right. rewrite (is_nan_spec v Hn). apply sub_nan_l.
  - left. apply sub_self. exact Hc.
Qed.

Lemma std_of_constant : is_zero_or_nan (std64 np_sum x).
Proof.
  unfold std64. apply sqrt_zero_or_nan.
  unfold var64. unfold mean64 in Hm.
  destruct (count x) as [|[|k]] eqn:En;
    [right; right; reflexivity|right; right; reflexivity|].
  cbv zeta. rewrite Hm.
  rewrite (@map_constant _ _ _ zero x).
  - pose proof (count_le_length x) as Hlen. rewrite En in Hlen.
    destruct (List.length x) as [|n]; [lia|].
    rewrite Hsum. apply div_zero_l.
  - intros v Hv. destruct (Hx v Hv) as [Hn | -> ].
    + rewrite Hn. reflexivity.
    + rewrite (finite_not_nan c Hc), (sub_self c Hc). reflexivity.
Qed.

Lemma normalize_constant64 (w : float) :
  In w (normalize_column64 np_sum x) -> is_nan w = true.
Proof.
  unfold normalize_column64. intros Hw. apply in_map_iff in Hw.
  destruct Hw as (v & <- & Hv). rewrite Hm.
  apply div_by_zero_or_nan; [apply deviation_of_constant; exact Hv|].
  apply std_of_constant.
Qed.
End ConstantColumn.

End Binary64Facts.



(** ** The plot builder *)

Lemma iloc_from_negative {A} (n : Z) (x : list A) :
  (0 < n)%Z -> iloc_from (- n) x = last_points (Z.to_nat n) x.
Proof.
  intros Hn. unfold iloc_from, last_points.
  replace (- n <? 0)%Z with true by (symmetry; apply Z.ltb_lt; lia).
  f_equal. lia.
Qed.

Lemma last_points_length {A} (n : nat) (x : list A) :
  List.length (last_points n x) = Nat.min n (List.length x).
Proof. unfold last_points. rewrite length_skipn. lia. Qed.

Lemma last_points_all {A} (n : nat) (x : list A) :
  (List.length x <= n)%nat -> last_points n x = x.
Proof.
  intros H. unfold last_points.
  replace (List.length x - n)%nat with 0%nat by lia. reflexivity.
Qed.

Lemma iloc_last_nonempty {A} (x : list A) :
  x <> [] -> exists a, iloc_last x = Ok a.
Proof.
  intros H. unfold iloc_last. destruct (rev x) as [|a r] eqn:E.
  - exfalso. apply H. rewrite <- (rev_involutive x), E. reflexivity.
  - exists a. reflexivity.
Qed.

(** C8, as the code has it: for every pair of non-empty normalised series
    and every trail length t from 1 to 52, the plot builder returns a
    figure whose trail is the last 5 * t points of each series, which is
    the whole series when it has no more than 5 * t points. *)
Theorem C8_trail_is_clipped_suffix (ratio momentum : list rnum)
    (ticker : str) (t : Z) :
  (1 <= t <= 52)%Z ->
  ratio <> [] ->
  momentum <> [] ->
  exists fig,
    create_rrg_plot ratio momentum ticker t = Ok fig
    /\ trail_x fig = last_points (Z.to_nat (t * 5)) ratio
    /\ trail_y fig = last_points (Z.to_nat (t * 5)) momentum
    /\ List.length (trail_x fig)
       = Nat.min (Z.to_nat (t * 5)) (List.length ratio)
    /\ List.length (trail_y fig)
       = Nat.min (Z.to_nat (t * 5)) (List.length momentum)
    /\ ((List.length ratio <= Z.to_nat (t * 5))%nat -> trail_x fig = ratio)
    /\ ((List.length momentum <= Z.to_nat (t * 5))%nat ->
        trail_y fig = momentum).
Proof.
  intros Ht Hr Hm. unfold create_rrg_plot.
  destruct (iloc_last_nonempty Hr) as (mx & ->).
  destruct (iloc_last_nonempty Hm) as (my & ->).
  cbn [bind]. eexists. split; [reflexivity|]. cbn [trail_x trail_y].
  rewrite !iloc_from_negative by lia.
  repeat split; try apply last_points_length; apply last_points_all.
Qed.

Lemma C8_witness :
  let ratio : list rnum := map (fun k => Num (INR k)) (seq 0 10) in
  let momentum : list rnum := map (fun k => Num (INR k)) (seq 5 10) in
  exists fig,
    create_rrg_plot ratio momentum (lit "A") 52 = Ok fig
    /\ trail_x fig = ratio /\ trail_y fig = momentum.
Proof.
  intros ratio momentum.
  destruct (@C8_trail_is_clipped_suffix ratio momentum (lit "A") 52)
    as (fig & E & _ & _ & _ & _ & Hx & Hy).
  - lia.
  - discriminate.
  - discriminate.
  - exists fig. split; [exact E|].
    split; [apply Hx|apply Hy]; simpl; lia.
Defined.

(** C8 as stated fails on an empty series: the request exceeds the history
    and the builder raises instead of returning a figure. *)
Lemma C8_counterexample :
  (Z.of_nat (List.length (@nil rnum)) < 52 * 5)%Z
  /\ create_rrg_plot [] [] (lit "A") 52 = Raise IndexError.
Proof. split; [simpl; lia|reflexivity]. Qed.

(** ** The script's trace *)

Lemma date_ge_not_lt (a b : date) : date_ge a b = negb (date_lt a b).
Proof. unfold date_ge, date_lt. destruct (date_cmp a b); reflexivity. Qed.

Lemma then_trace {A B} (P : event -> Prop) (m : script A)
    (k : A -> script B) :
  Forall P (fst m) -> (forall a, Forall P (fst (k a))) ->
  Forall P (fst (then_ m k)).
Proof.
  intros Hm Hk. destruct m as [t [a|e]]; simpl in *; [|exact Hm].
  specialize (Hk a). destruct (k a) as [t' r]. simpl in *.
  apply Forall_app. split; assumption.
Qed.

Lemma lift_trace {A} (P : event -> Prop) (r : result A) :
  Forall P (fst (lift r)).
Proof. constructor. Qed.

Lemma for_enumerate_trace {A} (P : event -> Prop) (l : list A)
    (body : nat -> A -> script unit) (n : nat) :
  (forall k a, Forall P (fst (body k a))) ->
  Forall P (fst (for_enumerate n l body)).
Proof.
  intros H. revert n. induction l as [|a l IH]; intros n; [constructor|].
  cbn [for_enumerate]. apply then_trace; [apply H|]. intros _. apply IH.
Qed.

Lemma emit_then {B} (e : event) (rest : script B) :
  fst (emit e ;;; rest) = e :: fst rest.
Proof. unfold then_, emit. destruct rest. reflexivity. Qed.

(** One step through a bind whose first part emits nothing. *)
Ltac silent_steps :=
  repeat (apply then_trace; [apply lift_trace|]; intros ?).

Section MainFacts.
Variable download_data : list str -> date -> date -> result (frame Qc).
Variable i : inputs.

Lemma main_rejected :
  checks_pass i = false ->
  main download_data i
  = (Text (lit "VS " ++ effective_benchmark i)
       :: map Error (expected_errors i), Ok tt).
Proof.
  unfold checks_pass, expected_errors,
    effective_equity_input, effective_benchmark, main.
  destruct (apply_presets i) as [text bench]. cbn [fst snd].
  intros ->. rewrite date_ge_not_lt.
  destruct (date_lt _ _), (truthy (parse_tickers text)), (truthy bench);
    reflexivity.
Qed.

Lemma main_accepted :
  checks_pass i = true ->
  exists t, fst (main download_data i)
            = Text (lit "VS " ++ effective_benchmark i) :: t
            /\ Forall after_checks t.
Proof.
  unfold checks_pass, effective_equity_input, effective_benchmark, main.
  destruct (apply_presets i) as [text bench]. cbn [fst snd].
  intros ->.
  eexists. split; [apply emit_then|]. cbv iota.
  apply then_trace; [repeat constructor|]. intros _.
  silent_steps.
  apply for_enumerate_trace. intros k ticker.
  silent_steps. repeat constructor.
Qed.
End MainFacts.

Lemma errors_of_errors (l : list str) : errors_of (map Error l) = l.
Proof.
  unfold errors_of. induction l as [|m l IH]; [reflexivity|].
  simpl. rewrite IH. reflexivity.
Qed.

Lemma charts_of_errors (l : list str) : charts_of (map Error l) = [].
Proof. unfold charts_of. induction l as [|m l IH]; [reflexivity|exact IH]. Qed.

Lemma downloads_of_errors (l : list str) : downloads_of (map Error l) = [].
Proof.
  unfold downloads_of. induction l as [|m l IH]; [reflexivity|exact IH].
Qed.

Lemma errors_after_checks (t : list event) :
  Forall after_checks t -> errors_of t = [].
Proof.
  unfold errors_of. induction 1 as [|e t He _ IH]; [reflexivity|].
  simpl. rewrite IH. destruct e; simpl in *; tauto.
Qed.

Lemma truthy_nonempty {A} (l : list A) : truthy l = true -> l <> [].
Proof. destruct l; [discriminate|discriminate]. Qed.

(** C4: for every input, the messages shown are exactly those of the
    failed checks (end date not after start date, no ticker, no
    benchmark), one each, all together; a chart is rendered only when the
    start date is before the end date, the ticker list is non-empty and
    the benchmark is non-empty; and when a check fails the run shows the
    benchmark line and these messages and nothing else: no chart, no
    download. *)
Theorem C4_validation_gates_rendering
    (download_data : list str -> date -> date -> result (frame Qc))
    (i : inputs) :
  let trace := fst (main download_data i) in
  errors_of trace = expected_errors i
  /\ (charts_of trace <> [] ->
      date_lt (start_date i) (end_date i) = true
      /\ parse_tickers (effective_equity_input i) <> []
      /\ effective_benchmark i <> [])
  /\ (checks_pass i = false ->
      charts_of trace = []
      /\ downloads_of trace = []
      /\ main download_data i
         = (Text (lit "VS " ++ effective_benchmark i)
              :: map Error (expected_errors i), Ok tt)).
Proof.
  intros trace. subst trace.
  destruct (checks_pass i) eqn:E.
  - destruct (main_accepted download_data i E) as (t & -> & Ht).
    unfold checks_pass in E.
    apply andb_prop in E. destruct E as [E Hb].
    apply andb_prop in E. destruct E as [Hd He].
    split; [|split].
    + change (errors_of (Text _ :: t)) with (errors_of t).
      rewrite (errors_after_checks Ht). unfold expected_errors.
      rewrite Hd, He, Hb. reflexivity.
    + intros _. repeat split; try assumption; apply truthy_nonempty; assumption.
    + discriminate.
  - rewrite (main_rejected download_data i E). cbn [fst].
    split; [|split].
    + change (errors_of (Text ?x :: ?t)) with (errors_of t).
      apply errors_of_errors.
    + intros H. exfalso. apply H.
      change (charts_of (Text ?x :: ?t)) with (charts_of t).
      apply charts_of_errors.
    + intros _. repeat split.
      * apply (charts_of_errors (expected_errors i)).
      * apply (downloads_of_errors (expected_errors i)).
Qed.

Lemma C4_witness :
  main (fun _ _ _ => Raise ProviderError) example_inputs
  = ([Text (lit "VS CCC"); Error msg_dates], Ok tt).
Proof.
  destruct (@C4_validation_gates_rendering
              (fun _ _ _ => Raise ProviderError) example_inputs)
    as (_ & _ & H).
  destruct H as (_ & _ & ->); reflexivity.
Defined.

(** ** Parsing the ticker text *)

Lemma filter_map_commute {A B} (f : A -> B) (p : B -> bool) (l : list A) :
  map f (filter (fun a => p (f a)) l) = filter p (map f l).
Proof.
  induction l as [|a l IH]; [reflexivity|].
  simpl. destruct (p (f a)); simpl; rewrite IH; reflexivity.
Qed.

Lemma parse_tickers_spec (text : str) :
  parse_tickers text = filter truthy (map strip (split_newline text)).
Proof. unfold parse_tickers. apply filter_map_commute. Qed.

Lemma parse_tickers_nonempty (text : str) (ticker : str) :
  In ticker (parse_tickers text) -> ticker <> [].
Proof.
  rewrite parse_tickers_spec. intros H. apply filter_In in H.
  destruct H as [_ H]. apply truthy_nonempty. exact H.
Qed.

Lemma lstrip_blank (s : str) : blank s -> lstrip s = [].
Proof.
  induction 1 as [|c s Hc _ IH]; [reflexivity|].
  simpl. rewrite Hc. exact IH.
Qed.

Lemma strip_blank (s : str) : blank s -> strip s = [].
Proof. intros H. unfold strip. rewrite (lstrip_blank H). reflexivity. Qed.

Lemma split_newline_blank (s : str) :
  blank s -> Forall blank (split_newline s).
Proof.
  induction 1 as [|c s Hc _ IH].
  - repeat constructor.
  - cbn [split_newline]. destruct (c =? newline)%N.
    + constructor; [constructor|exact IH].
    + destruct (split_newline s) as [|piece rest].
      * repeat constructor. exact Hc.
      * inversion IH; subst. constructor; [constructor; assumption|assumption].
Qed.

Lemma parse_tickers_blank (text : str) : blank text -> parse_tickers text = [].
Proof.
  intros H. unfold parse_tickers.
  pose proof (split_newline_blank H) as Hp.
  induction Hp as [|piece rest Hpiece _ IH]; [reflexivity|].
  simpl. rewrite (strip_blank Hpiece). exact IH.
Qed.

Lemma no_preset_inputs (i : inputs) :
  no_preset i = true ->
  effective_equity_input i = equity_input i
  /\ effective_benchmark i = benchmark_index i.
Proof.
  unfold no_preset, effective_equity_input, effective_benchmark, apply_presets.
  destruct (button_IT i), (button_Banks i), (button_Auto i), (button_Energy i);
    try discriminate.
  intros _. split; reflexivity.
Qed.

(** * Further properties of the indicator engine *)

(** ** Shape of the result *)

Lemma labels_frame_map {A B} (f : list (fnum A) -> list (fnum B)) (d : frame A) :
  labels (frame_map f d) = labels d.
Proof.
  unfold labels, frame_map. rewrite map_map. apply map_ext. reflexivity.
Qed.

Lemma ref_quot_length_max (x y : series) :
  List.length (ref_quot x y) = Nat.max (List.length x) (List.length y).
Proof. unfold ref_quot. rewrite length_map, length_seq. reflexivity. Qed.

Lemma ref_rs_ratio_rows (length : nat) (price benchmark : series) :
  List.length (ref_rs_ratio length price benchmark)
  = Nat.max (List.length price) (List.length benchmark).
Proof.
  unfold ref_rs_ratio, ref_raw_ratio.
  rewrite ref_scaled_length, ref_wma_length, ref_quot_length_max,
    ref_wma_length, ref_quot_length_max. lia.
Qed.

Lemma ref_rs_momentum_rows (length : nat) (price benchmark : series) :
  List.length (ref_rs_momentum length price benchmark)
  = Nat.max (List.length price) (List.length benchmark).
Proof.
  unfold ref_rs_momentum.
  rewrite ref_scaled_length, ref_quot_length_max, ref_wma_length,
    ref_rs_ratio_rows. lia.
Qed.

(** X1: for every table, benchmark and window length of at least one, the
    engine returns without raising; both result tables carry the labels of
    the input table in the same order, and every result column has as
    many rows as the longer of its price column and the benchmark. *)
Theorem X1_engine_keeps_shape (data : frame Qc) (benchmark : series)
    (length : nat) :
  (1 <= length)%nat ->
  exists rs_ratio rs_momentum,
    calculate_rrg_components_improved data benchmark length
    = Ok (rs_ratio, rs_momentum)
    /\ labels rs_ratio = labels data
    /\ labels rs_momentum = labels data
    /\ forall j, (j < List.length data)%nat ->
         List.length (column_at rs_ratio j)
         = Nat.max (List.length (column_at data j)) (List.length benchmark)
         /\ List.length (column_at rs_momentum j)
            = Nat.max (List.length (column_at data j)) (List.length benchmark).
Proof.
  intros HL. eexists. eexists.
  split; [apply engine_by_index; exact HL|].
  rewrite !labels_frame_map. repeat split.
  - rewrite column_at_map by assumption. apply ref_rs_ratio_rows.
  - rewrite column_at_map by assumption. apply ref_rs_momentum_rows.
Qed.

Lemma X1_witness :
  exists rs_ratio rs_momentum,
    calculate_rrg_components_improved
      [(lit "A", [Num (of_Z 3); NaN]); (lit "B", [])]
      [Num (of_Z 2); Num (of_Z 0); Inf true] 2
    = Ok (rs_ratio, rs_momentum)
    /\ labels rs_ratio = [lit "A"; lit "B"]
    /\ labels rs_momentum = [lit "A"; lit "B"]
    /\ forall j, (j < 2)%nat ->
         List.length (column_at rs_ratio j)
         = Nat.max (List.length
                      (column_at [(lit "A", [Num (of_Z 3); NaN]);
                                  (lit "B", [])] j)) 3
         /\ List.length (column_at rs_momentum j)
            = Nat.max (List.length
                         (column_at [(lit "A", [Num (of_Z 3); NaN]);
                                     (lit "B", [])] j)) 3.
Proof.
  apply (@X1_engine_keeps_shape
           [(lit "A", [Num (of_Z 3); NaN]); (lit "B", [])]
           [Num (of_Z 2); Num (of_Z 0); Inf true] 2).
  lia.
Defined.

(** ** The function handed to the rolling window *)

Lemma times_rows_length (x : series) (w : list nat) :
  List.length x = List.length w -> exists p, times_rows x w = Ok p.
Proof.
  revert w. induction x as [|a x IH]; intros [|k w] H; try discriminate.
  - exists []. reflexivity.
  - injection H as H. destruct (IH w H) as (p & E).
    cbn [times_rows]. rewrite E. eexists. reflexivity.
Qed.

Lemma times_rows_mismatch (x : series) (w : list nat) :
  List.length x <> List.length w -> times_rows x w = Raise ValueError.
Proof.
  revert w. induction x as [|a x IH]; intros [|k w] H;
    try reflexivity; try (exfalso; apply H; reflexivity).
  cbn [times_rows]. rewrite IH; [reflexivity|]. simpl in H. lia.
Qed.

Lemma series_times_mismatch (x : series) (w : list nat) :
  List.length x <> List.length w -> List.length w <> 1%nat ->
  series_times x w = Raise ValueError.
Proof.
  intros H H1. destruct w as [|k [|k' w]].
  - apply times_rows_mismatch. exact H.
  - exfalso. apply H1. reflexivity.
  - apply (@times_rows_mismatch x (k :: k' :: w)). exact H.
Qed.

Lemma series_times_broadcast (x : series) (w : list nat) :
  List.length x = List.length w \/ List.length w = 1%nat ->
  exists p, series_times x w = Ok p.
Proof.
  intros [H|H].
  - rewrite series_times_rows by exact H. apply times_rows_length. exact H.
  - destruct w as [|k [|k' w]]; try discriminate H.
    eexists. reflexivity.
Qed.

Lemma of_nat_1 : of_nat 1 = 1%Qc.
Proof. apply Qc_is_canon. reflexivity. Qed.

Lemma qmul_one (a : qnum) : qmul a (Num (of_nat 1)) = a.
Proof.
  rewrite of_nat_1. destruct a as [|neg|q]; try reflexivity.
  - destruct neg; reflexivity.
  - cbn. f_equal. ring.
Qed.

Lemma qdiv_one (a : qnum) : qdiv a (Num (of_nat 1)) = a.
Proof.
  rewrite of_nat_1. destruct a as [|neg|q]; try reflexivity.
  - destruct neg; reflexivity.
  - unfold qdiv, fdiv. change (Qc_is_zero 1) with false. cbv iota.
    f_equal. field; discriminate.
Qed.

Lemma weighted_mean_one (x : series) : weighted_mean 1 x = Ok (series_sum x).
Proof.
  unfold weighted_mean, arange1. cbn [seq series_times bind].
  rewrite (map_ext _ (fun a => a) qmul_one), map_id.
  change (np_sum [1%nat]) with 1%nat. rewrite qdiv_one. reflexivity.
Qed.

(** X2: the weighted-mean function and the number of rows of its window.
    With a window length other than 1 it raises [ValueError] on every
    window whose number of rows differs from the length; on a window of
    that many rows it returns a value, whatever the window holds.  With
    the length 1 the single weight is broadcast over the rows: a window of
    any number of rows gives the sum of its entries that are not
    not-a-number (6 for the rows 1, 2, 3). *)
Theorem X2_weighted_mean_error (length : nat) (x : series) :
  (List.length x <> length -> length <> 1%nat ->
   weighted_mean length x = Raise ValueError)
  /\ (List.length x = length \/ length = 1%nat ->
      exists v, weighted_mean length x = Ok v)
  /\ weighted_mean 1 x = Ok (series_sum x)
  /\ weighted_mean 1 [Num (of_Z 1); Num (of_Z 2); Num (of_Z 3)]
     = Ok (Num (of_Z 6)).
Proof.
  split; [|split; [|split]].
  - intros H H1. unfold weighted_mean, arange1.
    rewrite series_times_mismatch by (rewrite length_seq; assumption).
    reflexivity.
  - intros H. unfold weighted_mean, arange1.
    destruct (@series_times_broadcast x (seq 1 length)) as (p & ->).
    + rewrite length_seq. exact H.
    + eexists. reflexivity.
  - apply weighted_mean_one.
  - rewrite weighted_mean_one. unfold series_sum.
    cbn [filter isnan negb fold_left]. cbv [qadd fadd].
    apply f_equal. apply f_equal. apply Qc_is_canon. reflexivity.
Qed.

(** ** A window of one row *)

Lemma map_seq_entries {A B} (f : fnum A -> B) (x : list (fnum A)) :
  map (fun i => f (entry x i)) (seq 0 (List.length x)) = map f x.
Proof.
  induction x as [|a x IH]; [reflexivity|].
  cbn [List.length seq map]. f_equal.
  rewrite <- seq_shift, map_map. exact IH.
Qed.

Lemma ref_wma_one (x : series) : ref_wma 1 x = map prep_value x.
Proof.
  unfold ref_wma. rewrite <- (map_seq_entries prep_value x).
  apply map_ext. intros i.
  replace (i + 1 - 1)%nat with i by lia.
  replace (1 <=? i + 1)%nat with true by (symmetry; apply Nat.leb_le; lia).
  unfold all_defined. cbn [seq forallb andb weighted_total].
  rewrite Nat.add_0_r, andb_true_r.
  change (weight_sum 1) with 1%nat. rewrite of_nat_1.
  destruct (entry x i) as [|neg|q]; try reflexivity.
  cbn [isfinite value prep_value]. f_equal. field. discriminate.
Qed.

(** X3: with a window of one row the rolling weighted mean returns the
    series itself, except that an infinite entry comes back as
    not-a-number. *)
Theorem X3_window_of_one (x : series) :
  rolling_apply 1 (weighted_mean 1) x = Ok (map prep_value x)
  /\ (forall i, isinf (entry x i) = false ->
        entry (map prep_value x) i = entry x i)
  /\ (forall i, isinf (entry x i) = true ->
        entry (map prep_value x) i = NaN).
Proof.
  split; [|split].
  - rewrite rolling_weighted_mean by lia. rewrite ref_wma_one. reflexivity.
  - intros i H. rewrite entry_map by reflexivity.
    destruct (entry x i); try reflexivity; discriminate.
  - intros i H. rewrite entry_map by reflexivity.
    destruct (entry x i); try reflexivity; discriminate.
Qed.

(** ** How a missing value spreads *)

Lemma ref_wma_entry (length : nat) (x : series) (i : nat) :
  entry (ref_wma length x) i
  = if (i <? List.length x)%nat && (length <=? i + 1)%nat
       && all_defined x (i + 1 - length) length
    then Num (weighted_total x (i + 1 - length) length
              / of_nat (weight_sum length))%Qc
    else NaN.
Proof.
  unfold ref_wma. destruct (Nat.ltb_spec i (List.length x)) as [H|H].
  - rewrite entry_map_seq by exact H. reflexivity.
  - unfold entry. rewrite nth_overflow
      by (rewrite length_map, length_seq; exact H). reflexivity.
Qed.

Lemma ref_wma_nan_run (length : nat) (x : series) (a b : nat) :
  (1 <= length)%nat -> (a <= b)%nat ->
  (forall i, (a <= i <= b)%nat -> isfinite (entry x i) = false) ->
  forall i, (a <= i <= b + (length - 1))%nat ->
    entry (ref_wma length x) i = NaN.
Proof.
  intros HL Hab Hx i Hi. rewrite ref_wma_entry.
  destruct (i <? List.length x)%nat; [|reflexivity].
  destruct (Nat.leb_spec length (i + 1)) as [Hw|Hw]; [|reflexivity].
  cbn [andb].
  (* a row of the run lies in the window [i + 1 - length .. i] *)
  set (base := (i + 1 - length)%nat).
  set (hit := Nat.max a base).
  rewrite (@all_defined_false x base length (hit - base)); [reflexivity| |].
  - unfold hit, base. lia.
  - replace (base + (hit - base))%nat with hit by (unfold hit; lia).
    apply Hx. unfold hit, base. lia.
Qed.

Lemma ref_quot_nan_r (x y : series) (i : nat) :
  entry y i = NaN -> entry (ref_quot x y) i = NaN.
Proof. intros H. rewrite entry_ref_quot, H. apply qdiv_nan_r. Qed.

Lemma ref_quot_nan_l (x y : series) (i : nat) :
  entry x i = NaN -> entry (ref_quot x y) i = NaN.
Proof. intros H. rewrite entry_ref_quot, H. reflexivity. Qed.

Lemma ref_scaled_nan (x : series) (i : nat) :
  entry x i = NaN -> entry (ref_scaled x) i = NaN.
Proof.
  intros H. unfold ref_scaled. rewrite entry_map by reflexivity.
  rewrite H. reflexivity.
Qed.

Lemma nan_not_finite (v : qnum) : v = NaN -> isfinite v = false.
Proof. intros ->. reflexivity. Qed.

Lemma ref_rs_ratio_nan_run (length : nat) (price benchmark : series) (d : nat) :
  (1 <= length)%nat ->
  isfinite (entry (ref_raw_ratio price benchmark) d) = false ->
  forall i, (d <= i <= d + 2 * (length - 1))%nat ->
    entry (ref_rs_ratio length price benchmark) i = NaN.
Proof.
  intros HL Hd i Hi. unfold ref_rs_ratio.
  set (raw := ref_raw_ratio price benchmark) in *.
  apply ref_scaled_nan.
  apply (@ref_wma_nan_run length _ d (d + (length - 1))); try lia.
  intros k Hk. apply nan_not_finite, ref_quot_nan_r.
  apply (@ref_wma_nan_run length raw d d); try lia.
  intros k' Hk'. replace k' with d by lia. exact Hd.
Qed.

Lemma ref_rs_momentum_nan_run (length : nat) (price benchmark : series)
    (d : nat) :
  (1 <= length)%nat ->
  isfinite (entry (ref_raw_ratio price benchmark) d) = false ->
  forall i, (d <= i <= d + 3 * (length - 1))%nat ->
    entry (ref_rs_momentum length price benchmark) i = NaN.
Proof.
  intros HL Hd i Hi. unfold ref_rs_momentum.
  apply ref_scaled_nan, ref_quot_nan_r.
  apply (@ref_wma_nan_run length _ d (d + 2 * (length - 1))); try lia.
  intros k Hk. apply nan_not_finite.
  apply ref_rs_ratio_nan_run with (d := d); assumption.
Qed.

(** X4: when the raw ratio of a ticker is not a finite number at a date
    (a missing price, a missing or zero benchmark), its RS-Ratio is
    not-a-number at that date and the 2 * (length - 1) dates after it, and
    its RS-Momentum at that date and the 3 * (length - 1) dates after
    it. *)
Theorem X4_missing_value_spreads (data : frame Qc) (benchmark : series)
    (length j d : nat) :
  (1 <= length)%nat ->
  (j < List.length data)%nat ->
  isfinite (entry (column_at (frame_div_axis0 data benchmark) j) d) = false ->
  exists rs_ratio rs_momentum,
    calculate_rrg_components_improved data benchmark length
    = Ok (rs_ratio, rs_momentum)
    /\ (forall i, (d <= i <= d + 2 * (length - 1))%nat ->
          entry (column_at rs_ratio j) i = NaN)
    /\ (forall i, (d <= i <= d + 3 * (length - 1))%nat ->
          entry (column_at rs_momentum j) i = NaN).
Proof.
  intros HL Hj Hd. eexists. eexists.
  split; [apply engine_by_index; exact HL|].
  unfold frame_div_axis0 in Hd.
  rewrite column_at_map in Hd by exact Hj.
  rewrite series_div_by_index in Hd.
  rewrite !column_at_map by exact Hj. split.
  - intros i Hi. apply ref_rs_ratio_nan_run with (d := d); assumption.
  - intros i Hi. apply ref_rs_momentum_nan_run with (d := d); assumption.
Qed.

Lemma X4_witness :
  let data := [(lit "A", map (fun z => Num (of_Z z)) [5; 6; 7; 8; 9; 10; 11]%Z)] in
  let benchmark := map (fun z => Num (of_Z z)) [1; 0; 1; 1; 1; 1; 1]%Z in
  exists rs_ratio rs_momentum,
    calculate_rrg_components_improved data benchmark 2
    = Ok (rs_ratio, rs_momentum)
    /\ (forall i, (1 <= i <= 1 + 2 * (2 - 1))%nat ->
          entry (column_at rs_ratio 0) i = NaN)
    /\ (forall i, (1 <= i <= 1 + 3 * (2 - 1))%nat ->
          entry (column_at rs_momentum 0) i = NaN).
Proof.
  intros data benchmark.
  apply (@X4_missing_value_spreads data benchmark 2 0 1).
  - lia.
  - simpl. lia.
  - reflexivity.
Defined.

(** ** A ticker that moves with the benchmark *)

Lemma of_nat_add (a b : nat) : of_nat (a + b) = (of_nat a + of_nat b)%Qc.
Proof.
  unfold of_nat, Qcplus. apply Q2Qc_eq_iff.
  rewrite !this_Q2Qc, Nat2Z.inj_add, inject_Z_plus. reflexivity.
Qed.

Lemma weight_sum_S (n : nat) : weight_sum (S n) = (weight_sum n + S n)%nat.
Proof.
  rewrite <- !np_sum_arange. unfold np_sum, arange1.
  rewrite seq_S, fold_left_app. reflexivity.
Qed.

Lemma weighted_total_constant (x : series) (base n : nat) (c : Qc) :
  (forall j, (j < n)%nat -> entry x (base + j) = Num c) ->
  weighted_total x base n = (of_nat (weight_sum n) * c)%Qc.
Proof.
  induction n as [|n IH]; intros H.
  - cbn [weighted_total]. change (weight_sum 0) with 0%nat.
    change (of_nat 0) with 0%Qc. ring.
  - cbn [weighted_total]. rewrite IH by (intros j Hj; apply H; lia).
    rewrite (H n) by lia. cbn [value].
    rewrite weight_sum_S, of_nat_add. ring.
Qed.

Lemma ref_wma_constant_from (length k : nat) (c : Qc) (x : series) :
  (1 <= length)%nat ->
  constant_from k c x ->
  constant_from (k + (length - 1)) c (ref_wma length x).
Proof.
  intros HL Hx i Hi. rewrite ref_wma_length in Hi.
  unfold ref_wma. rewrite entry_map_seq by exact Hi.
  destruct (Nat.ltb_spec i (k + (length - 1))) as [Hk|Hk].
  - destruct (Nat.leb_spec length (i + 1)) as [Hw|Hw]; [|reflexivity].
    cbn [andb].
    rewrite (@all_defined_false x (i + 1 - length) length 0);
      [reflexivity|lia|].
    rewrite Nat.add_0_r, Hx by lia.
    replace (i + 1 - length <? k)%nat with true
      by (symmetry; apply Nat.ltb_lt; lia).
    reflexivity.
  - assert (Hrow : forall j, (j < length)%nat ->
              entry x (i + 1 - length + j) = Num c).
    { intros j Hj. rewrite Hx by lia.
      replace (i + 1 - length + j <? k)%nat with false
        by (symmetry; apply Nat.ltb_ge; lia).
      reflexivity. }
    replace (length <=? i + 1)%nat with true
      by (symmetry; apply Nat.leb_le; lia).
    rewrite all_defined_true
      by (intros j Hj; rewrite Hrow by exact Hj; reflexivity).
    cbn [andb]. rewrite (weighted_total_constant _ _ Hrow). f_equal.
    field. intros E. pose proof (of_nat_pos (weight_sum_pos HL)) as Hp.
    rewrite E in Hp. exact (Qclt_irrefl Hp).
Qed.

Lemma ref_quot_constant_from (a b : nat) (c d : Qc) (x y : series) :
  List.length x = List.length y ->
  d <> 0%Qc ->
  constant_from a c x -> constant_from b d y ->
  constant_from (Nat.max a b) (c / d) (ref_quot x y).
Proof.
  intros Hlen Hd Hx Hy i Hi. rewrite ref_quot_length in Hi by exact Hlen.
  rewrite entry_ref_quot, Hx, Hy by lia.
  destruct (Nat.ltb_spec i a) as [Ha|Ha], (Nat.ltb_spec i b) as [Hb|Hb].
  - replace (i <? Nat.max a b)%nat with true
      by (symmetry; apply Nat.ltb_lt; lia). reflexivity.
  - replace (i <? Nat.max a b)%nat with true
      by (symmetry; apply Nat.ltb_lt; lia). reflexivity.
  - replace (i <? Nat.max a b)%nat with true
      by (symmetry; apply Nat.ltb_lt; lia). reflexivity.
  - replace (i <? Nat.max a b)%nat with false
      by (symmetry; apply Nat.ltb_ge; lia).
    unfold qdiv, fdiv.
    destruct (Qc_is_zero d) eqn:E; [apply Qc_is_zero_true in E; contradiction|].
    reflexivity.
Qed.

Lemma ref_scaled_constant_from (k : nat) (c : Qc) (x : series) :
  constant_from k c x ->
  constant_from k (c * of_Z 100) (ref_scaled x).
Proof.
  intros Hx i Hi. unfold ref_scaled in *. rewrite length_map in Hi.
  rewrite entry_map by reflexivity. rewrite Hx by exact Hi.
  destruct (i <? k)%nat; reflexivity.
Qed.

Lemma constant_from_value (k : nat) (c c' : Qc) (x : series) :
  c = c' -> constant_from k c x -> constant_from k c' x.
Proof. intros ->. auto. Qed.

Lemma hundred_neq_0 : of_Z 100 <> 0%Qc.
Proof. discriminate. Qed.

(** X5: when at every date the price of a ticker is one and the same
    non-zero multiple of a non-zero benchmark, its RS-Ratio is exactly 100
    from row 2 * (length - 1) on and its RS-Momentum exactly 100 from row
    3 * (length - 1) on, and both are not-a-number before. *)
Theorem X5_tracking_the_benchmark (data : frame Qc) (benchmark : series)
    (length j : nat) (k : Qc) :
  (1 <= length)%nat ->
  (j < List.length data)%nat ->
  k <> 0%Qc ->
  List.length (column_at data j) = List.length benchmark ->
  (forall i, (i < List.length benchmark)%nat ->
     exists b, b <> 0%Qc /\ entry benchmark i = Num b
               /\ entry (column_at data j) i = Num (k * b)%Qc) ->
  exists rs_ratio rs_momentum,
    calculate_rrg_components_improved data benchmark length
    = Ok (rs_ratio, rs_momentum)
    /\ constant_from (2 * (length - 1)) (of_Z 100) (column_at rs_ratio j)
    /\ constant_from (3 * (length - 1)) (of_Z 100) (column_at rs_momentum j).
Proof.
  intros HL Hj Hk Hlen Hrows. eexists. eexists.
  split; [apply engine_by_index; exact HL|].
  rewrite !column_at_map by exact Hj.
  set (price := column_at data j) in *.
  assert (Hraw : constant_from 0 k (ref_raw_ratio price benchmark)).
  { intros i Hi. unfold ref_raw_ratio in *.
    rewrite ref_quot_length in Hi by exact Hlen.
    rewrite entry_ref_quot. cbn [Nat.ltb Nat.leb].
    destruct (Hrows i) as (b & Hb & -> & ->); [lia|].
    unfold qdiv, fdiv.
    destruct (Qc_is_zero b) eqn:E; [apply Qc_is_zero_true in E; contradiction|].
    f_equal. field. exact Hb. }
  assert (Hratio : constant_from (2 * (length - 1)) (of_Z 100)
                     (ref_rs_ratio length price benchmark)).
  { unfold ref_rs_ratio.
    apply constant_from_value with (c := (k / k * of_Z 100)%Qc);
      [field; exact Hk|].
    apply ref_scaled_constant_from.
    replace (2 * (length - 1))%nat
      with (Nat.max 0 (0 + (length - 1)) + (length - 1))%nat by lia.
    apply ref_wma_constant_from; [exact HL|].
    apply ref_quot_constant_from; try assumption.
    - rewrite ref_wma_length. reflexivity.
    - apply ref_wma_constant_from; assumption. }
  split; [exact Hratio|].
  unfold ref_rs_momentum.
  apply constant_from_value with (c := (of_Z 100 / of_Z 100 * of_Z 100)%Qc);
    [field; exact hundred_neq_0|].
  apply ref_scaled_constant_from.
  replace (3 * (length - 1))%nat
    with (Nat.max (2 * (length - 1)) (2 * (length - 1) + (length - 1)))%nat
    by lia.
  apply ref_quot_constant_from.
  - rewrite ref_wma_length. reflexivity.
  - exact hundred_neq_0.
  - exact Hratio.
  - apply ref_wma_constant_from; assumption.
Qed.

Lemma X5_witness :
  let benchmark := map (fun z => Num (of_Z z)) [1; 2; 3; 4; 1; 2]%Z in
  let data := [(lit "A", map (fun z => Num (of_Z 2 * of_Z z)%Qc)
                             [1; 2; 3; 4; 1; 2]%Z)] in
  exists rs_ratio rs_momentum,
    calculate_rrg_components_improved data benchmark 2
    = Ok (rs_ratio, rs_momentum)
    /\ constant_from (2 * (2 - 1)) (of_Z 100) (column_at rs_ratio 0)
    /\ constant_from (3 * (2 - 1)) (of_Z 100) (column_at rs_momentum 0).
Proof.
  intros benchmark data.
  apply (@X5_tracking_the_benchmark data benchmark 2 0 (of_Z 2)).
  - lia.
  - simpl. lia.
  - discriminate.
  - reflexivity.
  - intros i Hi.
    do 6 (destruct i as [|i];
          [eexists; split; [|split; reflexivity]; discriminate|]).
    simpl in Hi. lia.
Defined.

(** ** Units do not matter *)

Lemma Qc_is_zero_mul (p c : Qc) :
  c <> 0%Qc -> Qc_is_zero (p * c) = Qc_is_zero p.
Proof.
  intros Hc. destruct (Qc_is_zero p) eqn:E.
  - apply Qc_is_zero_true in E. subst p. apply Qc_is_zero_true. ring.
  - destruct (Qc_is_zero (p * c)) eqn:E'; [|reflexivity].
    apply Qc_is_zero_true in E'. apply Qcmult_integral in E'.
    destruct E' as [E'|E']; [|contradiction].
    apply Qc_is_zero_true in E'. congruence.
Qed.

Lemma Qc_is_neg_mul (p c : Qc) :
  (0 < c)%Qc -> Qc_is_neg (p * c) = Qc_is_neg p.
Proof.
  intros Hc. unfold Qc_is_neg.
  assert (H : forall a b : Qc, (a < b)%Qc -> (a * c < b * c)%Qc)
    by (intros a b; apply Qcmult_lt_compat_r; exact Hc).
  destruct (Qc_dec p 0) as [[Hlt|Hgt]|Heq].
  - pose proof (H _ _ Hlt) as H'. rewrite Qcmult_0_l in H'.
    rewrite (proj1 (Qclt_alt p 0) Hlt), (proj1 (Qclt_alt (p * c) 0) H').
    reflexivity.
  - pose proof (H _ _ Hgt) as H'. rewrite Qcmult_0_l in H'.
    rewrite (proj1 (Qcgt_alt p 0) Hgt), (proj1 (Qcgt_alt (p * c) 0) H').
    reflexivity.
  - subst p. rewrite Qcmult_0_l. reflexivity.
Qed.

Lemma Qc_pos_neq_0 (c : Qc) : (0 < c)%Qc -> c <> 0%Qc.
Proof. intros H E. subst c. exact (Qclt_irrefl H). Qed.

Lemma qmul_pos_inf (s : bool) (c : Qc) :
  (0 < c)%Qc -> qmul (Inf s) (Num c) = Inf s.
Proof.
  intros Hc. unfold qmul, fmul.
  rewrite (Qc_is_zero_pos Hc), (Qc_is_neg_pos Hc).
  rewrite xorb_false_r. reflexivity.
Qed.

(** Unfolds the extended operations and settles what the sign and zero
    tests of a positive factor leave. *)
Ltac scale_cases Hc Hnz :=
  cbv [qmul qdiv fmul fdiv];
  rewrite ?(Qc_is_zero_mul _ Hnz), ?(Qc_is_neg_mul _ Hc),
    ?(Qc_is_zero_pos Hc), ?(Qc_is_neg_pos Hc), ?xorb_false_r;
  try reflexivity.

Lemma Qc_is_zero_false (q : Qc) : Qc_is_zero q = false -> q <> 0%Qc.
Proof. intros H E. apply Qc_is_zero_true in E. congruence. Qed.

(** Scaling the dividend scales the quotient. *)
Lemma qdiv_scaled_l (c : Qc) (v w : qnum) :
  (0 < c)%Qc ->
  qdiv (qmul v (Num c)) w = qmul (qdiv v w) (Num c).
Proof.
  intros Hc. pose proof (Qc_pos_neq_0 Hc) as Hnz.
  destruct v as [|s|p], w as [|t|q]; scale_cases Hc Hnz.
  - f_equal. ring.
  - destruct (Qc_is_zero q) eqn:Eq.
    + destruct (Qc_is_zero p); scale_cases Hc Hnz.
    + f_equal. field. apply Qc_is_zero_false. exact Eq.
Qed.

(** Scaling both sides leaves the quotient as it was. *)
Lemma qdiv_scaled_both (c : Qc) (v w : qnum) :
  (0 < c)%Qc ->
  qdiv (qmul v (Num c)) (qmul w (Num c)) = qdiv v w.
Proof.
  intros Hc. pose proof (Qc_pos_neq_0 Hc) as Hnz.
  destruct v as [|s|p], w as [|t|q]; scale_cases Hc Hnz.
  destruct (Qc_is_zero q) eqn:Eq; [reflexivity|].
  f_equal. field. split; first [exact Hnz|apply Qc_is_zero_false; exact Eq].
Qed.

(** Scaling the divisor scales the quotient by the inverse. *)
Lemma qdiv_scaled_r (c : Qc) (v w : qnum) :
  (0 < c)%Qc ->
  qdiv v (qmul w (Num c)) = qmul (qdiv v w) (Num (/ c)%Qc).
Proof.
  intros Hc. pose proof (Qc_pos_neq_0 Hc) as Hnz.
  assert (Hi : (0 < / c)%Qc).
  { replace (/ c)%Qc with (1 / c)%Qc by (field; exact Hnz).
    apply Qc_pos_div; [reflexivity|exact Hc]. }
  destruct v as [|s|p], w as [|t|q]; scale_cases Hc Hnz;
    rewrite ?(Qc_is_zero_pos Hi), ?(Qc_is_neg_pos Hi), ?xorb_false_r;
    try reflexivity.
  - f_equal. ring.
  - destruct (Qc_is_zero q) eqn:Eq.
    + destruct (Qc_is_zero p); [reflexivity|].
      rewrite ?(Qc_is_zero_pos Hi), ?(Qc_is_neg_pos Hi), ?xorb_false_r.
      reflexivity.
    + f_equal. field. split; first [exact Hnz|apply Qc_is_zero_false; exact Eq].
Qed.

Lemma scaled_by_length (c : Qc) (x : series) :
  List.length (scaled_by c x) = List.length x.
Proof. unfold scaled_by. apply length_map. Qed.

Lemma entry_scaled_by (c : Qc) (x : series) (i : nat) :
  entry (scaled_by c x) i = qmul (entry x i) (Num c).
Proof.
  unfold scaled_by.
  rewrite (entry_map (fun v => qmul v (Num c))) by reflexivity. reflexivity.
Qed.

Lemma scaled_by_seq (c : Qc) (F : nat -> qnum) (n : nat) :
  scaled_by c (map F (seq 0 n)) = map (fun i => qmul (F i) (Num c)) (seq 0 n).
Proof. unfold scaled_by. apply map_map. Qed.

Lemma ref_quot_scaled_l (c : Qc) (x y : series) :
  (0 < c)%Qc -> ref_quot (scaled_by c x) y = scaled_by c (ref_quot x y).
Proof.
  intros Hc. unfold ref_quot. rewrite scaled_by_seq, scaled_by_length.
  apply map_ext. intros i. rewrite entry_scaled_by.
  apply qdiv_scaled_l. exact Hc.
Qed.

Lemma ref_quot_scaled_r (c : Qc) (x y : series) :
  (0 < c)%Qc ->
  ref_quot x (scaled_by c y) = scaled_by (/ c) (ref_quot x y).
Proof.
  intros Hc. unfold ref_quot. rewrite scaled_by_seq, scaled_by_length.
  apply map_ext. intros i. rewrite entry_scaled_by.
  apply qdiv_scaled_r. exact Hc.
Qed.

Lemma ref_quot_scaled_both (c : Qc) (x y : series) :
  (0 < c)%Qc -> ref_quot (scaled_by c x) (scaled_by c y) = ref_quot x y.
Proof.
  intros Hc. unfold ref_quot. rewrite !scaled_by_length.
  apply map_ext. intros i. rewrite !entry_scaled_by.
  apply qdiv_scaled_both. exact Hc.
Qed.

Lemma isfinite_scaled (c : Qc) (v : qnum) :
  (0 < c)%Qc -> isfinite (qmul v (Num c)) = isfinite v.
Proof.
  intros Hc. destruct v as [|s|p]; try reflexivity.
  rewrite (qmul_pos_inf s Hc). reflexivity.
Qed.

Lemma value_scaled (c : Qc) (v : qnum) :
  (0 < c)%Qc -> value (qmul v (Num c)) = (value v * c)%Qc.
Proof.
  intros Hc. destruct v as [|s|p]; cbn [value].
  - change (qmul NaN (Num c)) with (@NaN Qc). cbn [value]. ring.
  - rewrite (qmul_pos_inf s Hc). cbn [value]. ring.
  - reflexivity.
Qed.

Lemma weighted_total_scaled (c : Qc) (x : series) (base n : nat) :
  (0 < c)%Qc ->
  weighted_total (scaled_by c x) base n = (weighted_total x base n * c)%Qc.
Proof.
  intros Hc. induction n as [|n IH]; cbn [weighted_total]; [ring|].
  rewrite IH, entry_scaled_by, (value_scaled _ Hc). ring.
Qed.

Lemma forallb_pointwise {A} (p q : A -> bool) (l : list A) :
  (forall a, p a = q a) -> forallb p l = forallb q l.
Proof.
  intros H. induction l as [|a l IH]; [reflexivity|].
  simpl. rewrite H, IH. reflexivity.
Qed.

Lemma all_defined_scaled (c : Qc) (x : series) (base n : nat) :
  (0 < c)%Qc -> all_defined (scaled_by c x) base n = all_defined x base n.
Proof.
  intros Hc. unfold all_defined. apply forallb_pointwise. intros k.
  rewrite entry_scaled_by. apply isfinite_scaled. exact Hc.
Qed.

Lemma ref_wma_scaled (length : nat) (c : Qc) (x : series) :
  (0 < c)%Qc ->
  ref_wma length (scaled_by c x) = scaled_by c (ref_wma length x).
Proof.
  intros Hc. unfold ref_wma. rewrite scaled_by_seq, scaled_by_length.
  apply map_ext. intros i.
  rewrite (all_defined_scaled _ _ _ Hc), (weighted_total_scaled _ _ _ Hc).
  destruct (_ && _); [|reflexivity].
  cbv [qmul fmul]. f_equal. unfold Qcdiv. ring.
Qed.

(** Both indicators follow from the raw ratio alone, and do not change
    when the raw ratio is scaled. *)
Lemma smoothed_quotient_scaled (length : nat) (c : Qc) (raw : series) :
  (0 < c)%Qc ->
  ref_quot (scaled_by c raw) (ref_wma length (scaled_by c raw))
  = ref_quot raw (ref_wma length raw).
Proof.
  intros Hc. rewrite (ref_wma_scaled _ _ Hc).
  apply ref_quot_scaled_both. exact Hc.
Qed.

Lemma ref_rs_ratio_scaled_price (length : nat) (c : Qc)
    (price benchmark : series) :
  (0 < c)%Qc ->
  ref_rs_ratio length (scaled_by c price) benchmark
  = ref_rs_ratio length price benchmark.
Proof.
  intros Hc. unfold ref_rs_ratio, ref_raw_ratio.
  rewrite (ref_quot_scaled_l _ _ Hc), (smoothed_quotient_scaled _ _ Hc).
  reflexivity.
Qed.

Lemma ref_rs_ratio_scaled_benchmark (length : nat) (c : Qc)
    (price benchmark : series) :
  (0 < c)%Qc ->
  ref_rs_ratio length price (scaled_by c benchmark)
  = ref_rs_ratio length price benchmark.
Proof.
  intros Hc. unfold ref_rs_ratio, ref_raw_ratio.
  assert (Hi : (0 < / c)%Qc).
  { replace (/ c)%Qc with (1 / c)%Qc by (field; apply Qc_pos_neq_0; exact Hc).
    apply Qc_pos_div; [reflexivity|exact Hc]. }
  rewrite (ref_quot_scaled_r _ _ Hc), (smoothed_quotient_scaled _ _ Hi).
  reflexivity.
Qed.

(** X6: the unit of the prices does not matter: multiplying every price
    of every ticker by a positive factor, or the benchmark by a positive
    factor, leaves both results of the engine exactly as they were. *)
Theorem X6_units_do_not_matter (data : frame Qc) (benchmark : series)
    (length : nat) (c : Qc) :
  (1 <= length)%nat ->
  (0 < c)%Qc ->
  calculate_rrg_components_improved (frame_map (scaled_by c) data)
    benchmark length
  = calculate_rrg_components_improved data benchmark length
  /\ calculate_rrg_components_improved data (scaled_by c benchmark) length
     = calculate_rrg_components_improved data benchmark length.
Proof.
  intros HL Hc. rewrite !engine_by_index by exact HL.
  rewrite !frame_map_map. split; f_equal; f_equal;
    apply frame_map_ext; intros price; unfold ref_rs_momentum;
    rewrite ?(ref_rs_ratio_scaled_price _ _ _ Hc),
      ?(ref_rs_ratio_scaled_benchmark _ _ _ Hc); reflexivity.
Qed.

Lemma X6_witness :
  let data := [(lit "A", [Num (of_Z 3); NaN; Num (of_Z 0); Num (of_Z (-2))])] in
  let benchmark := [Num (of_Z 2); Num (of_Z 0); Num (of_Z 1); Inf false] in
  calculate_rrg_components_improved (frame_map (scaled_by (of_Z 7)) data)
    benchmark 2
  = calculate_rrg_components_improved data benchmark 2
  /\ calculate_rrg_components_improved data (scaled_by (of_Z 7) benchmark) 2
     = calculate_rrg_components_improved data benchmark 2.
Proof.
  intros data benchmark.
  apply (@X6_units_do_not_matter data benchmark 2 (of_Z 7)).
  - lia.
  - reflexivity.
Defined.

(** * Further properties of the normaliser *)

(** ** Too few values to have a deviation *)

Lemma normalize_column_few (x : list rnum) :
  (List.length (valid x) <= 1)%nat ->
  forall w, In w (normalize_column x) -> w = NaN.
Proof.
  intros H w Hw. unfold normalize_column in Hw.
  apply in_map_iff in Hw. destruct Hw as (v & <- & _).
  assert (Hs : std x = NaN).
  { unfold std, var. destruct (List.length (valid x)) as [|[|n]];
      try reflexivity. lia. }
  rewrite Hs. apply rdiv_nan_r.
Qed.

(** X7: a column with fewer than two entries that are not not-a-number has
    no sample deviation, and the normaliser returns not-a-number at every
    entry of it, the defined one included. *)
Theorem X7_fewer_than_two_values (data : frame R) (j : nat) :
  (j < List.length data)%nat ->
  (List.length (valid (column_at data j)) <= 1)%nat ->
  std (column_at data j) = NaN
  /\ forall i, entry (column_at (normalize_data data) j) i = NaN.
Proof.
  intros Hj H. split.
  - unfold std, var.
    destruct (List.length (valid (column_at data j))) as [|[|n]];
      try reflexivity. lia.
  - unfold normalize_data. rewrite column_at_map by exact Hj.
    apply entry_all_nan. apply normalize_column_few. exact H.
Qed.

Lemma X7_witness :
  let data : frame R := [(lit "A", [NaN; Num 5%R; NaN])] in
  std (column_at data 0) = NaN
  /\ forall i, entry (column_at (normalize_data data) 0) i = NaN.
Proof.
  intros data. apply (@X7_fewer_than_two_values data 0).
  - simpl. lia.
  - simpl. lia.
Defined.

(** ** Scale and offset of the input *)

Lemma affine_num (a b r : R) :
  radd (rmul (Num r) (Num a)) (Num b) = Num (r * a + b)%R.
Proof. reflexivity. Qed.

Lemma numbers_affine (a b : R) (x : list rnum) :
  no_inf x ->
  numbers (affine a b x) = map (fun r => (r * a + b)%R) (numbers x).
Proof.
  unfold affine. induction 1 as [|v x Hv _ IH]; [reflexivity|].
  destruct v; simpl in *; try discriminate; rewrite IH; reflexivity.
Qed.

Lemma no_inf_affine (a b : R) (x : list rnum) :
  no_inf x -> no_inf (affine a b x).
Proof.
  unfold affine, no_inf. intros H. apply Forall_map.
  eapply Forall_impl; [|exact H].
  intros v Hv. destruct v; try reflexivity; discriminate.
Qed.

Lemma total_affine (a b : R) (l : list R) :
  total (map (fun r => (r * a + b)%R) l)
  = (total l * a + INR (List.length l) * b)%R.
Proof.
  induction l as [|r l IH]; [simpl; lra|].
  cbn [map total fold_right]. fold (total (map (fun r => (r * a + b)%R) l)).
  fold (total l). rewrite IH.
  change (List.length (r :: l)) with (S (List.length l)). rewrite S_INR. lra.
Qed.

Lemma average_affine (a b : R) (l : list R) :
  (1 <= List.length l)%nat ->
  average (map (fun r => (r * a + b)%R) l) = (average l * a + b)%R.
Proof.
  intros Hl. unfold average. rewrite total_affine, length_map.
  field. apply not_0_INR. lia.
Qed.

Lemma squares_affine (a b m : R) (l : list R) :
  total (map (fun r => Rsqr (r - (m * a + b)))
             (map (fun r => (r * a + b)%R) l))
  = (total (map (fun r => Rsqr (r - m)) l) * (a * a))%R.
Proof.
  induction l as [|r l IH]; [simpl; lra|].
  cbn [map total fold_right].
  fold (total (map (fun r => Rsqr (r - (m * a + b)))
                 (map (fun r => (r * a + b)%R) l))).
  fold (total (map (fun r => Rsqr (r - m)) l)).
  rewrite IH. unfold Rsqr. ring.
Qed.

Lemma deviation_affine (a b : R) (l : list R) :
  (0 < a)%R -> (1 <= List.length l)%nat ->
  deviation (map (fun r => (r * a + b)%R) l) = (deviation l * a)%R.
Proof.
  intros Ha Hl. unfold deviation.
  rewrite average_affine by exact Hl. rewrite squares_affine, length_map.
  set (T := total (map (fun r => Rsqr (r - average l)) l)).
  set (N := INR (List.length l - 1)).
  replace (T * (a * a) / N)%R with ((T / N) * (a * a))%R
    by (unfold Rdiv; ring).
  destruct (Rle_lt_dec 0 (T / N)) as [Hpos|Hneg].
  - rewrite sqrt_mult_alt by exact Hpos.
    rewrite sqrt_square by lra. reflexivity.
  - rewrite (sqrt_neg_0 (T / N)) by lra.
    rewrite sqrt_neg_0; [lra|].
    assert (0 < a * a)%R by (apply Rmult_lt_0_compat; lra). nra.
Qed.

Lemma rescale_affine (a b m s : R) (v : rnum) :
  a <> 0%R -> s <> 0%R -> isinf v = false ->
  rescale (m * a + b) (s * a) (radd (rmul v (Num a)) (Num b)) = rescale m s v.
Proof.
  intros Ha Hs Hv. destruct v as [|neg|r]; try discriminate; [reflexivity|].
  rewrite affine_num. cbn [rescale]. f_equal. field. split; assumption.
Qed.

(** X8: for every column whose standard deviation is a non-zero number,
    multiplying every entry by a positive factor and adding an offset does
    not change the normalised column (exactly so in real arithmetic); in
    particular the engine's factor of 100 has no effect on what is
    plotted. *)
Theorem X8_normalizer_ignores_scale_and_offset (data : frame R) (j : nat)
    (s a b : R) :
  (j < List.length data)%nat ->
  std (column_at data j) = Num s ->
  s <> 0%R ->
  (0 < a)%R ->
  column_at (normalize_data (frame_map (affine a b) data)) j
  = column_at (normalize_data data) j.
Proof.
  intros Hj Hs Hnz Ha. unfold normalize_data.
  rewrite !column_at_map;
    try (unfold frame_map; rewrite length_map); try exact Hj.
  set (x := column_at data j) in *.
  pose proof (@std_no_inf _ _ Hs) as Hinf.
  destruct (@std_deviation _ _ Hs) as [Hlen Hdev].
  assert (Hnum := numbers_affine a b Hinf).
  assert (Hs' : std (affine a b x) = Num (s * a)%R).
  { rewrite std_numbers.
    - rewrite Hnum, deviation_affine, <- Hdev by (try exact Ha; lia).
      reflexivity.
    - apply no_inf_affine. exact Hinf.
    - rewrite Hnum, length_map. exact Hlen.
    - rewrite Hnum, deviation_affine, <- Hdev by (try exact Ha; lia). nra. }
  rewrite (@normalize_column_rescale _ _ Hs' ltac:(nra)).
  rewrite (@normalize_column_rescale _ _ Hs Hnz).
  rewrite Hnum, average_affine by lia.
  unfold affine. rewrite map_map. apply map_ext_in. intros v Hv.
  apply rescale_affine; try lra.
  unfold no_inf in Hinf. rewrite Forall_forall in Hinf. apply Hinf. exact Hv.
Qed.

Lemma X8_witness :
  let data : frame R := [(lit "A", [Num 1%R; NaN; Num 3%R])] in
  column_at (normalize_data (frame_map (affine 100 5) data)) 0
  = column_at (normalize_data data) 0.
Proof.
  intros data.
  apply (@X8_normalizer_ignores_scale_and_offset data 0 (sqrt 2) 100 5).
  - simpl. lia.
  - change (column_at data 0) with [Num 1%R; NaN; Num 3%R].
    rewrite std_numbers.
    + simpl numbers. rewrite deviation_1_3. reflexivity.
    + repeat constructor.
    + simpl. lia.
    + simpl numbers. rewrite deviation_1_3. exact sqrt_2_neq_0.
  - exact sqrt_2_neq_0.
  - lra.
Defined.

(** * The engine and the normaliser together *)

Lemma ref_wma_nan_prefix (length k : nat) (x : series) :
  (1 <= length)%nat ->
  (forall i, (i < k)%nat -> isfinite (entry x i) = false) ->
  forall i, (i < k + (length - 1))%nat -> entry (ref_wma length x) i = NaN.
Proof.
  intros HL Hx i Hi. rewrite ref_wma_entry.
  destruct (i <? List.length x)%nat; [|reflexivity].
  destruct (Nat.leb_spec length (i + 1)) as [Hw|Hw]; [|reflexivity].
  cbn [andb].
  rewrite (@all_defined_false x (i + 1 - length) length 0);
    [reflexivity|lia|].
  rewrite Nat.add_0_r. apply Hx. lia.
Qed.

Lemma ref_rs_ratio_warm_up (length : nat) (price benchmark : series) (i : nat) :
  (1 <= length)%nat -> (i < 2 * (length - 1))%nat ->
  entry (ref_rs_ratio length price benchmark) i = NaN.
Proof.
  intros HL Hi. unfold ref_rs_ratio. apply ref_scaled_nan.
  apply (@ref_wma_nan_prefix length (length - 1)); [exact HL| |lia].
  intros k Hk. apply nan_not_finite, ref_quot_nan_r.
  apply (@ref_wma_nan_prefix length 0); [exact HL| |lia].
  intros k' Hk'. lia.
Qed.

Lemma ref_rs_momentum_warm_up (length : nat) (price benchmark : series)
    (i : nat) :
  (1 <= length)%nat -> (i < 3 * (length - 1))%nat ->
  entry (ref_rs_momentum length price benchmark) i = NaN.
Proof.
  intros HL Hi. unfold ref_rs_momentum.
  apply ref_scaled_nan, ref_quot_nan_r.
  apply (@ref_wma_nan_prefix length (2 * (length - 1))); [exact HL| |lia].
  intros k Hk. apply nan_not_finite, ref_rs_ratio_warm_up; assumption.
Qed.

(** X9: whatever the table holds, RS-Ratio is not-a-number at every row
    before 2 * (length - 1) and RS-Momentum at every row before
    3 * (length - 1). *)
Theorem X9_warm_up_is_undefined (data : frame Qc) (benchmark : series)
    (length j : nat) :
  (1 <= length)%nat ->
  (j < List.length data)%nat ->
  exists rs_ratio rs_momentum,
    calculate_rrg_components_improved data benchmark length
    = Ok (rs_ratio, rs_momentum)
    /\ (forall i, (i < 2 * (length - 1))%nat ->
          entry (column_at rs_ratio j) i = NaN)
    /\ (forall i, (i < 3 * (length - 1))%nat ->
          entry (column_at rs_momentum j) i = NaN).
Proof.
  intros HL Hj. eexists. eexists.
  split; [apply engine_by_index; exact HL|].
  rewrite !column_at_map by exact Hj. split; intros i Hi.
  - apply ref_rs_ratio_warm_up; assumption.
  - apply ref_rs_momentum_warm_up; assumption.
Qed.

Lemma X9_witness :
  let data := [(lit "A", map (fun z => Num (of_Z z)) [3; 1; 4; 1; 5; 9; 2; 6]%Z)] in
  let benchmark := map (fun z => Num (of_Z z)) [2; 7; 1; 8; 2; 8; 1; 8]%Z in
  exists rs_ratio rs_momentum,
    calculate_rrg_components_improved data benchmark 3
    = Ok (rs_ratio, rs_momentum)
    /\ (forall i, (i < 2 * (3 - 1))%nat ->
          entry (column_at rs_ratio 0) i = NaN)
    /\ (forall i, (i < 3 * (3 - 1))%nat ->
          entry (column_at rs_momentum 0) i = NaN).
Proof.
  intros data benchmark.
  apply (@X9_warm_up_is_undefined data benchmark 3 0).
  - lia.
  - simpl. lia.
Defined.

Lemma to_real_nan (v : qnum) : v = NaN -> to_real v = NaN.
Proof. intros ->. reflexivity. Qed.

Lemma valid_after_prefix (k : nat) (x : series) :
  (forall i, (i < k)%nat -> entry x i = NaN) ->
  (List.length (valid (map to_real x)) <= List.length x - k)%nat.
Proof.
  revert k. induction x as [|v x IH]; intros k H; [simpl; lia|].
  destruct k as [|k].
  - pose proof (filter_length_le (fun v : rnum => negb (isnan v))
                  (map to_real (v :: x))) as Hle.
    rewrite length_map in Hle. unfold valid. lia.
  - assert (Hv : v = NaN) by (apply (H 0%nat); lia). subst v.
    cbn [map to_real fmap valid filter isnan negb]. fold (valid (map to_real x)).
    specialize (IH k). cbn [List.length]. 
    assert (Hx : forall i, (i < k)%nat -> entry x i = NaN)
      by (intros i Hi; apply (H (S i)); lia).
    specialize (IH Hx). lia.
Qed.

(** X10: with too short a history there is nothing to plot: when a ticker
    and the benchmark have at most 3 * (length - 1) + 1 rows, the
    normalised RS-Momentum of that ticker is not-a-number at every row,
    and with at most 2 * (length - 1) + 1 rows so is its normalised
    RS-Ratio.  With the window of 14 that the script uses these bounds are
    40 and 27 rows. *)
Theorem X10_short_history_plots_nothing (data : frame Qc)
    (benchmark : series) (length j : nat) :
  (1 <= length)%nat ->
  (j < List.length data)%nat ->
  let rows := Nat.max (List.length (column_at data j))
                      (List.length benchmark) in
  exists rs_ratio rs_momentum,
    calculate_rrg_components_improved data benchmark length
    = Ok (rs_ratio, rs_momentum)
    /\ ((rows <= 2 * (length - 1) + 1)%nat ->
        forall i,
          entry (column_at (normalize_data (frame_map (map to_real) rs_ratio))
                   j) i = NaN)
    /\ ((rows <= 3 * (length - 1) + 1)%nat ->
        forall i,
          entry (column_at
                   (normalize_data (frame_map (map to_real) rs_momentum)) j) i
          = NaN).
Proof.
  intros HL Hj rows. eexists. eexists.
  split; [apply engine_by_index; exact HL|].
  unfold normalize_data. rewrite !frame_map_map.
  rewrite !column_at_map by exact Hj.
  split; intros Hrows; apply entry_all_nan, normalize_column_few.
  - pose proof (@valid_after_prefix (2 * (length - 1))
                  (ref_rs_ratio length (column_at data j) benchmark)) as H.
    rewrite ref_rs_ratio_rows in H. fold rows in H.
    specialize (H (fun i Hi => ref_rs_ratio_warm_up _ _ HL Hi)). lia.
  - pose proof (@valid_after_prefix (3 * (length - 1))
                  (ref_rs_momentum length (column_at data j) benchmark)) as H.
    rewrite ref_rs_momentum_rows in H. fold rows in H.
    specialize (H (fun i Hi => ref_rs_momentum_warm_up _ _ HL Hi)). lia.
Qed.

Lemma X10_witness :
  let data := [(lit "A", map (fun k => Num (of_nat (100 + k))) (seq 0 40))] in
  let benchmark := repeat (Num (of_Z 100)) 40 in
  exists rs_ratio rs_momentum,
    calculate_rrg_components_improved data benchmark 14
    = Ok (rs_ratio, rs_momentum)
    /\ forall i,
         entry (column_at
                  (normalize_data (frame_map (map to_real) rs_momentum)) 0) i
         = NaN.
Proof.
  intros data benchmark.
  destruct (@X10_short_history_plots_nothing data benchmark 14 0)
    as (r & m & E & _ & H).
  - lia.
  - simpl. lia.
  - exists r, m. split; [exact E|]. apply H. simpl. lia.
Defined.

(** * Further properties of the plot builder *)

Lemma iloc_last_empty_iff {A} (x : list A) :
  iloc_last x = Raise IndexError <-> x = [].
Proof.
  split.
  - intros H. destruct x as [|a x]; [reflexivity|].
    destruct (@iloc_last_nonempty _ (a :: x)) as (b & E); [discriminate|].
    rewrite E in H. discriminate.
  - intros ->. reflexivity.
Qed.

(** X11: the plot builder raises exactly when one of the two series has no
    row, and then it raises [IndexError]; otherwise it returns a figure
    named after the ticker, titled "RRG for " followed by the ticker, with
    the two reference lines through the origin. *)
Theorem X11_plot_builder_error (ratio momentum : list rnum) (ticker : str)
    (t : Z) :
  (ratio = [] \/ momentum = [] ->
   create_rrg_plot ratio momentum ticker t = Raise IndexError)
  /\ (ratio <> [] /\ momentum <> [] ->
      exists fig,
        create_rrg_plot ratio momentum ticker t = Ok fig
        /\ marker_name fig = ticker
        /\ title fig = lit "RRG for " ++ ticker
        /\ shapes fig = [ {| x0 := 0; y0 := -6; x1 := 0; y1 := 6 |};
                          {| x0 := -6; y0 := 0; x1 := 6; y1 := 0 |} ]).
Proof.
  unfold create_rrg_plot. split.
  - intros [-> | ->]; [reflexivity|].
    unfold iloc_last. destruct (rev ratio); reflexivity.
  - intros [Hr Hm].
    destruct (iloc_last_nonempty Hr) as (mx & ->).
    destruct (iloc_last_nonempty Hm) as (my & ->).
    eexists. split; [reflexivity|]. repeat split.
Qed.

Lemma iloc_last_skipn {A} (k : nat) (x : list A) :
  (k < List.length x)%nat -> iloc_last (skipn k x) = iloc_last x.
Proof.
  intros Hk. unfold iloc_last.
  rewrite <- (firstn_skipn k x) at 2. rewrite rev_app_distr.
  destruct (rev (skipn k x)) as [|a r] eqn:E; [|reflexivity].
  exfalso. apply (f_equal (@List.length A)) in E.
  rewrite length_rev, length_skipn in E. simpl in E. lia.
Qed.

Lemma iloc_from_suffix {A} (start : Z) (x : list A) :
  (start <= 0)%Z -> x <> [] -> iloc_last (iloc_from start x) = iloc_last x.
Proof.
  intros Hs Hx. unfold iloc_from.
  assert (Hlen : (0 < List.length x)%nat) by (destruct x; [contradiction|simpl; lia]).
  apply iloc_last_skipn.
  destruct (Z.ltb_spec start 0); lia.
Qed.

(** X12: for every trail length that is not negative, the highlighted
    marker is the last point of the trail: the current position ends the
    path. *)
Theorem X12_marker_ends_the_trail (ratio momentum : list rnum)
    (ticker : str) (t : Z) :
  (0 <= t)%Z -> ratio <> [] -> momentum <> [] ->
  exists fig,
    create_rrg_plot ratio momentum ticker t = Ok fig
    /\ iloc_last (trail_x fig) = Ok (marker_x fig)
    /\ iloc_last (trail_y fig) = Ok (marker_y fig).
Proof.
  intros Ht Hr Hm. unfold create_rrg_plot.
  destruct (iloc_last_nonempty Hr) as (mx & Ex).
  destruct (iloc_last_nonempty Hm) as (my & Ey).
  rewrite Ex, Ey. cbn [bind]. eexists. split; [reflexivity|].
  cbn [trail_x trail_y marker_x marker_y].
  rewrite !iloc_from_suffix by (try assumption; lia).
  split; assumption.
Qed.

Lemma X12_witness :
  exists fig,
    create_rrg_plot [Num 1%R; NaN; Num 3%R] [Num 4%R; Num 5%R; Num 6%R]
      (lit "A") 1 = Ok fig
    /\ iloc_last (trail_x fig) = Ok (marker_x fig)
    /\ iloc_last (trail_y fig) = Ok (marker_y fig).
Proof.
  apply (@X12_marker_ends_the_trail
           [Num 1%R; NaN; Num 3%R] [Num 4%R; Num 5%R; Num 6%R] (lit "A") 1).
  - lia.
  - discriminate.
  - discriminate.
Defined.

(** X13: a trail length that is not positive does not select a suffix: at
    0 the trail is the whole series, and at -n it is the series without
    its first 5 * n points. *)
Theorem X13_trail_length_not_positive (ratio momentum : list rnum)
    (ticker : str) (t : Z) :
  (t <= 0)%Z -> ratio <> [] -> momentum <> [] ->
  exists fig,
    create_rrg_plot ratio momentum ticker t = Ok fig
    /\ trail_x fig = skipn (Z.to_nat (- t * 5)) ratio
    /\ trail_y fig = skipn (Z.to_nat (- t * 5)) momentum
    /\ (t = 0%Z -> trail_x fig = ratio /\ trail_y fig = momentum).
Proof.
  intros Ht Hr Hm. unfold create_rrg_plot.
  destruct (iloc_last_nonempty Hr) as (mx & ->).
  destruct (iloc_last_nonempty Hm) as (my & ->).
  cbn [bind]. eexists. split; [reflexivity|].
  cbn [trail_x trail_y]. unfold iloc_from.
  replace (- (t * 5) <? 0)%Z with false by (symmetry; apply Z.ltb_ge; lia).
  assert (Hskip : forall A (x : list A),
            skipn (Z.to_nat (Z.min (- (t * 5)) (Z.of_nat (List.length x)))) x
            = skipn (Z.to_nat (- t * 5)) x).
  { intros A x.
    destruct (Z.le_gt_cases (- (t * 5)) (Z.of_nat (List.length x))) as [H|H].
    - f_equal. lia.
    - rewrite !skipn_all2 by lia. reflexivity. }
  rewrite !Hskip. repeat split; subst; reflexivity.
Qed.

Lemma X13_witness :
  exists fig,
    create_rrg_plot (map (fun k => Num (INR k)) (seq 0 12))
      (map (fun k => Num (INR k)) (seq 0 12)) (lit "A") (-2) = Ok fig
    /\ List.length (trail_x fig) = 2%nat.
Proof.
  destruct (@X13_trail_length_not_positive
              (map (fun k => Num (INR k)) (seq 0 12))
              (map (fun k => Num (INR k)) (seq 0 12)) (lit "A") (-2))
    as (fig & E & Hx & _).
  - lia.
  - discriminate.
  - discriminate.
  - exists fig. split; [exact E|]. rewrite Hx. reflexivity.
Defined.

(** * Further properties of the ticker parser *)

Lemma split_newline_nonempty (s : str) : split_newline s <> [].
Proof.
  destruct s as [|c s]; [discriminate|]. cbn [split_newline].
  destruct (c =? newline)%N; [discriminate|].
  destruct (split_newline s); discriminate.
Qed.

Lemma join_split (s : str) : join_newline (split_newline s) = s.
Proof.
  induction s as [|c s IH]; [reflexivity|].
  cbn [split_newline].
  destruct (N.eqb_spec c newline) as [->|Hc].
  - pose proof (split_newline_nonempty s) as Hne.
    destruct (split_newline s) as [|p rest]; [contradiction|].
    cbn [join_newline app]. cbn [join_newline] in IH. rewrite IH. reflexivity.
  - pose proof (split_newline_nonempty s) as Hne.
    destruct (split_newline s) as [|p rest]; [contradiction|].
    cbn [join_newline] in *.
    destruct rest as [|q rest'].
    + rewrite IH. reflexivity.
    + rewrite <- IH. reflexivity.
Qed.

Lemma split_pieces_no_newline (s : str) :
  Forall (Forall (fun c => c <> newline)) (split_newline s).
Proof.
  induction s as [|c s IH]; [repeat constructor|].
  cbn [split_newline].
  destruct (N.eqb_spec c newline) as [->|Hc].
  - constructor; [constructor|exact IH].
  - destruct (split_newline s) as [|p rest].
    + repeat constructor. exact Hc.
    + inversion IH; subst. constructor; [constructor; assumption|assumption].
Qed.

Lemma split_pieces_count (s : str) :
  List.length (split_newline s)
  = S (List.length (filter (fun c => (c =? newline)%N) s)).
Proof.
  induction s as [|c s IH]; [reflexivity|].
  cbn [split_newline filter].
  destruct (c =? newline)%N.
  - cbn [List.length]. rewrite IH. reflexivity.
  - pose proof (split_newline_nonempty s) as Hne.
    destruct (split_newline s) as [|p rest]; [contradiction|].
    exact IH.
Qed.

(** X14: splitting a text at newlines loses nothing: joining the pieces
    with newlines gives the text back; there is one piece more than there
    are newlines, and no piece holds a newline. *)
Theorem X14_split_join_round_trip (text : str) :
  join_newline (split_newline text) = text
  /\ List.length (split_newline text)
     = S (List.length (filter (fun c => (c =? newline)%N) text))
  /\ Forall (Forall (fun c => c <> newline)) (split_newline text).
Proof.
  split; [apply join_split|].
  split; [apply split_pieces_count|apply split_pieces_no_newline].
Qed.

(** ** What stripping leaves *)

Lemma lstrip_head (s : str) : lstrip s = [] \/ isspace (hd 0%N (lstrip s)) = false.
Proof.
  induction s as [|c s IH]; [left; reflexivity|].
  cbn [lstrip]. destruct (isspace c) eqn:E; [exact IH|].
  right. exact E.
Qed.

Lemma lstrip_suffix (s : str) : exists p, s = p ++ lstrip s.
Proof.
  induction s as [|c s IH]; [exists []; reflexivity|].
  cbn [lstrip]. destruct (isspace c).
  - destruct IH as (p & E). exists (c :: p). cbn [app]. rewrite <- E.
    reflexivity.
  - exists []. reflexivity.
Qed.

Lemma lstrip_fixed (s : str) :
  isspace (hd 0%N s) = false -> lstrip s = s.
Proof.
  destruct s as [|c s]; [reflexivity|]. cbn [hd lstrip]. intros ->.
  reflexivity.
Qed.

Lemma rstrip_prefix (s : str) : exists q, s = rstrip s ++ q.
Proof.
  unfold rstrip. destruct (lstrip_suffix (rev s)) as (p & E).
  exists (rev p). rewrite <- rev_app_distr, <- E, rev_involutive. reflexivity.
Qed.

Lemma rstrip_last (s : str) :
  rstrip s = [] \/ isspace (last (rstrip s) 0%N) = false.
Proof.
  unfold rstrip. destruct (lstrip_head (rev s)) as [E|E].
  - left. rewrite E. reflexivity.
  - right. destruct (lstrip (rev s)) as [|c l]; [exact E|].
    cbn [rev]. rewrite last_last. exact E.
Qed.

Lemma isspace_0 : isspace 0%N = false.
Proof. reflexivity. Qed.

Lemma rstrip_head (s : str) :
  isspace (hd 0%N s) = false ->
  rstrip s = [] \/ hd 0%N (rstrip s) = hd 0%N s.
Proof.
  intros H. destruct (rstrip_prefix s) as (q & E).
  destruct (rstrip s) as [|c r]; [left; reflexivity|].
  right. rewrite E. reflexivity.
Qed.

Lemma rstrip_keeps_nonspace_head (s : str) :
  s <> [] -> isspace (hd 0%N s) = false -> rstrip s <> [].
Proof.
  intros Hne H E. unfold rstrip in E.
  apply (f_equal (@rev N)) in E. rewrite rev_involutive in E. cbn [rev] in E.
  (* the last element of [rev s] is the head of [s], which is no space *)
  destruct s as [|c s]; [contradiction|]. cbn [hd] in H. cbn [rev] in E.
  assert (Hin : In c (rev s ++ [c])) by (apply in_or_app; right; left; reflexivity).
  clear Hne. revert E Hin. generalize (rev s ++ [c]). intros l.
  induction l as [|d l IH]; intros E Hin; [destruct Hin|].
  cbn [lstrip] in E. destruct (isspace d) eqn:Ed; [|discriminate].
  destruct Hin as [->|Hin]; [congruence|]. apply IH; assumption.
Qed.

Lemma strip_clean_or_empty (s : str) :
  Forall (fun c => c <> newline) s ->
  strip s = [] \/ clean (strip s).
Proof.
  intros Hs. unfold strip.
  destruct (lstrip_head s) as [E|Hhead].
  - left. rewrite E. reflexivity.
  - destruct (lstrip s) as [|c l] eqn:El.
    + left. reflexivity.
    + right. rewrite <- El in *.
      assert (Hne : rstrip (lstrip s) <> [])
        by (apply rstrip_keeps_nonspace_head; [rewrite El; discriminate|exact Hhead]).
      unfold clean. split; [exact Hne|]. split; [|split].
      * destruct (lstrip_suffix s) as (p & Ep).
        destruct (rstrip_prefix (lstrip s)) as (q & Eq).
        rewrite Ep, Eq in Hs.
        apply Forall_app in Hs. destruct Hs as [_ Hs].
        apply Forall_app in Hs. destruct Hs as [Hs _]. exact Hs.
      * destruct (rstrip_head _ Hhead) as [E|E]; [contradiction|].
        rewrite E. exact Hhead.
      * destruct (rstrip_last (lstrip s)) as [E|E]; [contradiction|exact E].
Qed.

(** X15: every ticker the parser returns is non-empty, holds no newline,
    and neither begins nor ends with whitespace. *)
Theorem X15_parsed_tickers_are_clean (text : str) :
  Forall clean (parse_tickers text).
Proof.
  rewrite parse_tickers_spec. apply Forall_forall. intros t Ht.
  apply filter_In in Ht. destruct Ht as [Hin Hne].
  apply in_map_iff in Hin. destruct Hin as (piece & <- & Hpiece).
  pose proof (split_pieces_no_newline text) as Hno.
  rewrite Forall_forall in Hno.
  destruct (strip_clean_or_empty (Hno _ Hpiece)) as [E|Hc]; [|exact Hc].
  rewrite E in Hne. discriminate.
Qed.

(** ** Parsing what was joined *)

Lemma split_single (p : str) :
  Forall (fun c => c <> newline) p -> split_newline p = [p].
Proof.
  induction 1 as [|c p Hc _ IH]; [reflexivity|].
  cbn [split_newline]. destruct (N.eqb_spec c newline); [contradiction|].
  rewrite IH. reflexivity.
Qed.

Lemma split_app_newline (p s : str) :
  Forall (fun c => c <> newline) p ->
  split_newline (p ++ newline :: s) = p :: split_newline s.
Proof.
  induction 1 as [|c p Hc _ IH]; [reflexivity|].
  cbn [app split_newline]. destruct (N.eqb_spec c newline); [contradiction|].
  rewrite IH. reflexivity.
Qed.

Lemma split_join (pieces : list str) :
  pieces <> [] ->
  Forall (Forall (fun c => c <> newline)) pieces ->
  split_newline (join_newline pieces) = pieces.
Proof.
  intros Hne H. induction H as [|p rest Hp Hrest IH]; [contradiction|].
  destruct rest as [|q rest'].
  - apply split_single. exact Hp.
  - change (join_newline (p :: q :: rest'))
      with (p ++ newline :: join_newline (q :: rest')).
    rewrite split_app_newline by exact Hp. f_equal. apply IH. discriminate.
Qed.

Lemma hd_rev (d : N) (s : str) : hd d (rev s) = last s d.
Proof.
  induction s as [|c l _] using rev_ind; [reflexivity|].
  rewrite rev_app_distr, last_last. reflexivity.
Qed.

Lemma strip_clean (ticker : str) : clean ticker -> strip ticker = ticker.
Proof.
  intros (Hne & _ & Hhd & Hlast). unfold strip, rstrip.
  rewrite (lstrip_fixed _ Hhd).
  rewrite lstrip_fixed by (rewrite hd_rev; exact Hlast).
  apply rev_involutive.
Qed.

(** X16: the parser inverts the layout it expects: a list of tickers, each
    non-empty, free of newlines and of whitespace at its ends, written one
    per line, parses back into the same list in the same order. *)
Theorem X16_parse_of_joined_tickers (tickers : list str) :
  Forall clean tickers ->
  parse_tickers (join_newline tickers) = tickers.
Proof.
  intros H. destruct tickers as [|t rest]; [reflexivity|].
  unfold parse_tickers. rewrite split_join.
  - induction H as [|a l Ha _ IH]; [reflexivity|].
    pose proof (strip_clean Ha) as Hs.
    cbn [filter]. rewrite Hs.
    destruct Ha as (Hne & _). destruct a as [|c a]; [contradiction|].
    cbn [truthy map]. rewrite Hs. f_equal. exact IH.
  - discriminate.
  - eapply Forall_impl; [|exact H]. intros a (_ & Ha & _). exact Ha.
Qed.

Lemma clean_lit_check (t : str) :
  match t with
  | [] => false
  | c :: _ => negb (isspace c) && negb (isspace (last t 0%N))
              && forallb (fun c => negb (c =? newline)%N) t
  end = true -> clean t.
Proof.
  destruct t as [|c t]; [discriminate|]. intros H.
  apply andb_prop in H. destruct H as [H Hnl].
  apply andb_prop in H. destruct H as [Hh Hl].
  unfold clean. split; [discriminate|]. split; [|split].
  - apply Forall_forall. intros d Hd. rewrite forallb_forall in Hnl.
    specialize (Hnl d Hd). destruct (N.eqb_spec d newline); [discriminate|assumption].
  - cbn [hd]. destruct (isspace c); [discriminate|reflexivity].
  - destruct (isspace (last (c :: t) 0%N)); [discriminate|reflexivity].
Qed.

Lemma X16_witness :
  parse_tickers (join_newline [lit "M&M.NS"; lit "^CNX 100"; lit "A"])
  = [lit "M&M.NS"; lit "^CNX 100"; lit "A"].
Proof.
  apply (@X16_parse_of_joined_tickers
           [lit "M&M.NS"; lit "^CNX 100"; lit "A"]).
  repeat (apply Forall_cons; [apply clean_lit_check; reflexivity|]).
  apply Forall_nil.
Defined.

(** * Further properties of the dashboard shell *)

(** ** The order of dates *)

Lemma date_lt_spec (a b : date) :
  date_lt a b = true <->
  (year a < year b
   \/ (year a = year b
       /\ (month a < month b \/ (month a = month b /\ day a < day b))))%Z.
Proof.
  unfold date_lt, date_cmp.
  destruct (Z.compare_spec (year a) (year b));
    destruct (Z.compare_spec (month a) (month b));
    destruct (Z.compare_spec (day a) (day b));
    split; intros; try discriminate; try reflexivity; lia.
Qed.

Lemma date_lt_false_spec (a b : date) :
  date_lt a b = false <-> ~ date_lt a b = true.
Proof. destruct (date_lt a b); split; intros; try congruence; tauto. Qed.

Lemma date_lt_irrefl (a : date) : date_lt a a = false.
Proof. apply date_lt_false_spec. rewrite date_lt_spec. lia. Qed.

(** X17: the comparison of dates the script relies on is a strict total
    order on (year, month, day): no date is before itself, before is
    transitive, and two dates of which neither is before the other are the
    same date. *)
Theorem X17_date_order (a b c : date) :
  date_lt a a = false
  /\ (date_lt a b = true -> date_lt b c = true -> date_lt a c = true)
  /\ (date_lt a b = false -> date_lt b a = false -> a = b)
  /\ date_ge a b = negb (date_lt a b).
Proof.
  split; [apply date_lt_irrefl|]. split; [|split].
  - rewrite !date_lt_spec. lia.
  - rewrite !date_lt_false_spec, !date_lt_spec. intros H1 H2.
    destruct a as [ya ma da], b as [yb mb db]. cbn [year month day] in *.
    assert (ya = yb /\ ma = mb /\ da = db) as (-> & -> & ->) by lia.
    reflexivity.
  - apply date_ge_not_lt.
Qed.

(** X18: a range whose start and end are the same day is refused like a
    reversed one: the run shows the end-date message and neither downloads
    nor charts anything. *)
Theorem X18_same_day_is_refused
    (download_data : list str -> date -> date -> result (frame Qc))
    (i : inputs) :
  start_date i = end_date i ->
  let trace := fst (main download_data i) in
  In msg_dates (errors_of trace)
  /\ downloads_of trace = []
  /\ charts_of trace = [].
Proof.
  intros Hd trace. subst trace.
  assert (Hlt : date_lt (start_date i) (end_date i) = false)
    by (rewrite Hd; apply date_lt_irrefl).
  assert (Hchecks : checks_pass i = false)
    by (unfold checks_pass; rewrite Hlt; reflexivity).
  rewrite (main_rejected download_data i Hchecks). cbn [fst].
  change (errors_of (Text ?x :: ?t)) with (errors_of t).
  change (downloads_of (Text ?x :: ?t)) with (downloads_of t).
  change (charts_of (Text ?x :: ?t)) with (charts_of t).
  rewrite errors_of_errors, downloads_of_errors, charts_of_errors.
  repeat split. unfold expected_errors. rewrite Hlt. left. reflexivity.
Qed.

Lemma X18_witness :
  let download_data := fun (_ : list str) (_ _ : date) =>
                         @Raise (frame Qc) ProviderError in
  let i := {| equity_input := lit "AAA"; benchmark_index := lit "CCC";
              start_date := {| year := 2024; month := 7; day := 1 |};
              end_date := {| year := 2024; month := 7; day := 1 |};
              trail_length := 6;
              button_IT := false; button_Banks := false;
              button_Auto := false; button_Energy := false |} in
  let trace := fst (main download_data i) in
  In msg_dates (errors_of trace)
  /\ downloads_of trace = []
  /\ charts_of trace = [].
Proof.
  intros download_data i.
  apply (@X18_same_day_is_refused download_data i). reflexivity.
Defined.

(** ** The preset buttons *)

(** X19: a pressed preset replaces what was typed: two runs with the same
    buttons pressed, at least one of them, work with the same ticker text
    and benchmark whatever was typed; the ticker list and the benchmark
    are then never empty; and of several pressed presets the one latest in
    the script (IT, Banks, Auto, Energy) decides. *)
Theorem X19_presets_override_typed_input (i i' : inputs) :
  no_preset i = false ->
  button_IT i' = button_IT i ->
  button_Banks i' = button_Banks i ->
  button_Auto i' = button_Auto i ->
  button_Energy i' = button_Energy i ->
  apply_presets i' = apply_presets i
  /\ truthy (parse_tickers (effective_equity_input i)) = true
  /\ truthy (effective_benchmark i) = true
  /\ effective_benchmark i
     = (if button_Energy i then lit "^CNXENERGY"
        else if button_Auto i then lit "^CNXAUTO"
        else if button_Banks i then lit "^NSEBANK"
        else lit "^CNXIT").
Proof.
  unfold no_preset, effective_equity_input, effective_benchmark, apply_presets.
  intros Hp -> -> -> ->.
  destruct (button_IT i), (button_Banks i), (button_Auto i),
    (button_Energy i); try discriminate;
    cbn [fst snd]; repeat split; vm_compute; reflexivity.
Qed.

Lemma X19_witness :
  let i := {| equity_input := lit "AAA"; benchmark_index := [];
              start_date := {| year := 2024; month := 7; day := 1 |};
              end_date := {| year := 2024; month := 7; day := 2 |};
              trail_length := 6;
              button_IT := true; button_Banks := false;
              button_Auto := true; button_Energy := false |} in
  truthy (parse_tickers (effective_equity_input i)) = true
  /\ effective_benchmark i = lit "^CNXAUTO".
Proof.
  intros i.
  destruct (@X19_presets_override_typed_input i i) as (_ & H1 & _ & H2);
    try reflexivity.
  split; [exact H1|exact H2].
Defined.

(** ** The run after the checks *)

Lemma then_lift_ok {A B} (a : A) (k : A -> script B) :
  then_ (lift (Ok a)) k = k a.
Proof. unfold then_, lift. destruct (k a). reflexivity. Qed.

Lemma then_lift_raise {A B} (e : exn) (k : A -> script B) :
  then_ (lift (@Raise A e)) k = ([], Raise e).
Proof. reflexivity. Qed.

Lemma emit_then_pair {B} (e : event) (rest : script B) :
  emit e ;;; rest = (e :: fst rest, snd rest).
Proof. unfold then_, emit. destruct rest. reflexivity. Qed.

Lemma str_eqb_eq (a b : str) : str_eqb a b = true <-> a = b.
Proof.
  unfold str_eqb. destruct (list_eq_dec N.eq_dec a b); split;
    intros; try assumption; try reflexivity; try discriminate; contradiction.
Qed.

Lemma str_eqb_refl (a : str) : str_eqb a a = true.
Proof. apply str_eqb_eq. reflexivity. Qed.

Lemma column_ok_or_missing {A} (d : frame A) (name : str) :
  (exists c, column d name = Ok c) \/ column d name = Raise KeyError.
Proof.
  induction d as [|[n c] d IH]; [right; reflexivity|].
  cbn [column]. destruct (str_eqb n name); [left; eexists; reflexivity|exact IH].
Qed.

Lemma column_frame_map {A B} (F : list (fnum A) -> list (fnum B))
    (d : frame A) (name : str) :
  column (frame_map F d) name = (c <- column d name ;; Ok (F c)).
Proof.
  induction d as [|[n c] d IH]; [reflexivity|].
  cbn [frame_map map fst snd column].
  destruct (str_eqb n name); [reflexivity|exact IH].
Qed.

Lemma columns_found {A} (d : frame A) (names : list str) :
  (forall t, In t names -> exists c, column d t = Ok c) ->
  columns d names = Ok (map (fun n => (n, found d n)) names).
Proof.
  intros H. unfold columns. apply mapM_ok. intros n Hn.
  unfold found. destruct (H n Hn) as (c & ->). reflexivity.
Qed.

Lemma columns_missing {A} (d : frame A) (names : list str) (t : str) :
  In t names -> column d t = Raise KeyError ->
  columns d names = Raise KeyError.
Proof.
  unfold columns. induction names as [|n names IH]; intros Hin Ht;
    [destruct Hin|].
  cbn [mapM]. destruct (column_ok_or_missing d n) as [(c & E)|E];
    rewrite E; cbn [bind]; [|reflexivity].
  destruct Hin as [->|Hin]; [congruence|].
  rewrite (IH Hin Ht). reflexivity.
Qed.

Lemma columns_ok_or_missing {A} (d : frame A) (names : list str) :
  (exists s, columns d names = Ok s) \/ columns d names = Raise KeyError.
Proof.
  unfold columns. induction names as [|n names IH]; [left; eexists; reflexivity|].
  cbn [mapM]. destruct (column_ok_or_missing d n) as [(c & E)|E];
    rewrite E; cbn [bind]; [|right; reflexivity].
  destruct IH as [(s & Es)|Es]; rewrite Es; cbn [bind];
    [left; eexists; reflexivity|right; reflexivity].
Qed.

Lemma column_of_selection {A} (g : str -> list (fnum A)) (names : list str)
    (t : str) :
  In t names -> column (map (fun n => (n, g n)) names) t = Ok (g t).
Proof.
  induction names as [|n names IH]; intros Hin; [destruct Hin|].
  cbn [map column]. destruct (str_eqb n t) eqn:E.
  - apply str_eqb_eq in E. subst. reflexivity.
  - destruct Hin as [->|Hin]; [rewrite str_eqb_refl in E; discriminate|].
    apply IH. exact Hin.
Qed.

Lemma for_enumerate_charts {A} (name : A -> str) (l : list A)
    (body : nat -> A -> script unit) (start : nat) :
  (forall k a, In a l ->
     exists fig, body k a = ([Chart (k mod 2) fig], Ok tt)
                 /\ marker_name fig = name a) ->
  exists figs,
    for_enumerate start l body = (grid start figs, Ok tt)
    /\ map marker_name figs = map name l.
Proof.
  revert start. induction l as [|a l IH]; intros start H.
  - exists []. split; reflexivity.
  - destruct (H start a (or_introl eq_refl)) as (fig & Eb & En).
    destruct (IH (S start)) as (figs & Ef & Em);
      [intros k b Hb; apply H; right; exact Hb|].
    exists (fig :: figs). split.
    + cbn [for_enumerate]. rewrite Eb. unfold then_. rewrite Ef. reflexivity.
    + cbn [map]. rewrite En, Em. reflexivity.
Qed.

Lemma normalized_rows (F : series -> series) (c : series) :
  List.length (normalize_column (map to_real (F c))) = List.length (F c).
Proof. rewrite normalize_column_length, length_map. reflexivity. Qed.

Lemma length_pos_nonempty {A} (l : list A) : (0 < List.length l)%nat -> l <> [].
Proof. destruct l; [simpl; lia|discriminate]. Qed.

Lemma main_accepted_run
    (download_data : list str -> date -> date -> result (frame Qc))
    (i : inputs) :
  checks_pass i = true ->
  let equity := parse_tickers (effective_equity_input i) in
  let benchmark := effective_benchmark i in
  let rest := render download_data equity benchmark
                (start_date i) (end_date i) (trail_length i) in
  main download_data i
  = (Text (lit "VS " ++ benchmark)
       :: Download (equity ++ [benchmark]) (start_date i) (end_date i)
       :: fst rest,
     snd rest).
Proof.
  unfold checks_pass, effective_equity_input, effective_benchmark, main.
  destruct (apply_presets i) as [text bench]. cbn [fst snd].
  intros ->. cbv zeta. rewrite !emit_then_pair. reflexivity.
Qed.

Lemma charts_of_all_charts (t : list event) :
  Forall is_chart t ->
  List.length (charts_of t) = List.length t /\ downloads_of t = [].
Proof.
  induction 1 as [|e t He _ [IH1 IH2]]; [split; reflexivity|].
  destruct e; try contradiction. unfold charts_of, downloads_of in *.
  cbn [flat_map app List.length]. rewrite IH1, IH2. split; reflexivity.
Qed.

(** Rewrites a bind whose first part has been decided. *)
Ltac step_lift :=
  rewrite ?then_lift_ok, ?then_lift_raise; cbn [fst snd].

Lemma chart_body_trace (nr nm : frame R) (ticker : str) (t : Z) (k : nat) :
  let body :=
    x <~ lift (column nr ticker) ;;
    y <~ lift (column nm ticker) ;;
    fig <~ lift (create_rrg_plot x y ticker t) ;;
    emit (Chart (k mod 2) fig) in
  Forall is_chart (fst body) /\ (List.length (fst body) <= 1)%nat.
Proof.
  cbv zeta.
  destruct (column nr ticker) as [x|e]; step_lift; [|split; [constructor|simpl; lia]].
  destruct (column nm ticker) as [y|e]; step_lift; [|split; [constructor|simpl; lia]].
  destruct (create_rrg_plot x y ticker t) as [fig|e]; step_lift;
    [|split; [constructor|simpl; lia]].
  split; [repeat constructor|simpl; lia].
Qed.

Lemma for_enumerate_bound {A} (l : list A) (body : nat -> A -> script unit)
    (start : nat) :
  (forall k a, Forall is_chart (fst (body k a))
               /\ (List.length (fst (body k a)) <= 1)%nat) ->
  Forall is_chart (fst (for_enumerate start l body))
  /\ (List.length (fst (for_enumerate start l body)) <= List.length l)%nat.
Proof.
  intros H. revert start. induction l as [|a l IH]; intros start.
  - split; [constructor|simpl; lia].
  - cbn [for_enumerate]. destruct (H start a) as [Hc Hl].
    destruct (IH (S start)) as [IHc IHl].
    unfold then_. destruct (body start a) as [t [[]|e]]; cbn [fst] in *.
    + destruct (for_enumerate (S start) l body) as [t' r]. cbn [fst] in *.
      split; [apply Forall_app; split; assumption|].
      rewrite length_app. cbn [List.length]. lia.
    + split; [exact Hc|]. cbn [List.length]. lia.
Qed.

Lemma render_trace
    (download_data : list str -> date -> date -> result (frame Qc))
    (equity : list str) (benchmark_index : str) (start_date end_date : date)
    (trail_length : Z) :
  let rest := render download_data equity benchmark_index
                start_date end_date trail_length in
  Forall is_chart (fst rest)
  /\ (List.length (fst rest) <= List.length equity)%nat.
Proof.
  cbv zeta. unfold render.
  destruct (download_data _ _ _) as [data|e]; step_lift;
    [|split; [constructor|simpl; lia]].
  destruct (columns data equity) as [selected|e]; step_lift;
    [|split; [constructor|simpl; lia]].
  destruct (column data benchmark_index) as [benchmark|e]; step_lift;
    [|split; [constructor|simpl; lia]].
  destruct (calculate_rrg_components_improved _ _ _) as [indicators|e];
    step_lift; [|split; [constructor|simpl; lia]].
  apply for_enumerate_bound. intros k ticker. apply chart_body_trace.
Qed.

(** X20: when the three checks pass, the run asks the price fetcher once,
    right after the benchmark line, for the tickers in the order entered
    followed by the benchmark, over the dates given; everything after that
    is a chart; and when the fetcher fails, the run ends there with the
    fetcher's exception and no chart. *)
Theorem X20_one_download_then_charts
    (download_data : list str -> date -> date -> result (frame Qc))
    (i : inputs) :
  checks_pass i = true ->
  let equity := parse_tickers (effective_equity_input i) in
  let benchmark := effective_benchmark i in
  let request := Download (equity ++ [benchmark])
                   (start_date i) (end_date i) in
  exists rest,
    fst (main download_data i)
    = Text (lit "VS " ++ benchmark) :: request :: rest
    /\ downloads_of (fst (main download_data i)) = [equity ++ [benchmark]]
    /\ List.length rest = List.length (charts_of rest)
    /\ (List.length rest <= List.length equity)%nat
    /\ forall e,
         download_data (equity ++ [benchmark]) (start_date i) (end_date i)
         = Raise e ->
         main download_data i
         = ([Text (lit "VS " ++ benchmark); request], Raise e).
Proof.
  intros Hc equity benchmark request.
  rewrite (main_accepted_run download_data i Hc). cbn [fst].
  fold equity benchmark request.
  set (rest := render download_data equity benchmark
                 (start_date i) (end_date i) (trail_length i)).
  destruct (render_trace download_data equity benchmark
              (start_date i) (end_date i) (trail_length i)) as [Hall Hlen].
  fold rest in Hall, Hlen.
  destruct (charts_of_all_charts Hall) as [Hcharts Hdown].
  exists (fst rest). split; [reflexivity|]. split; [|split; [|split]].
  - unfold request. unfold downloads_of in *. cbn [flat_map app].
    rewrite Hdown. reflexivity.
  - symmetry. exact Hcharts.
  - exact Hlen.
  - intros e He. unfold rest, render. fold equity benchmark.
    rewrite He. reflexivity.
Qed.

Lemma create_rrg_plot_named (ratio momentum : list rnum) (ticker : str)
    (t : Z) :
  ratio <> [] -> momentum <> [] ->
  exists fig, create_rrg_plot ratio momentum ticker t = Ok fig
              /\ marker_name fig = ticker.
Proof.
  intros Hr Hm. unfold create_rrg_plot.
  destruct (iloc_last_nonempty Hr) as (mx & ->).
  destruct (iloc_last_nonempty Hm) as (my & ->).
  eexists. split; reflexivity.
Qed.

(** ** Missing columns *)

(** X21: when the fetched table lacks the column of an entered ticker, or
    of the benchmark, the run ends with [KeyError] right after the
    download and draws no chart, whatever the other columns hold. *)
Theorem X21_missing_column_is_key_error
    (download_data : list str -> date -> date -> result (frame Qc))
    (i : inputs) (data : frame Qc) :
  checks_pass i = true ->
  let equity := parse_tickers (effective_equity_input i) in
  let benchmark := effective_benchmark i in
  download_data (equity ++ [benchmark]) (start_date i) (end_date i)
  = Ok data ->
  (exists t, In t equity /\ column data t = Raise KeyError)
  \/ column data benchmark = Raise KeyError ->
  main download_data i
  = ([Text (lit "VS " ++ benchmark);
      Download (equity ++ [benchmark]) (start_date i) (end_date i)],
     Raise KeyError).
Proof.
  intros Hc equity benchmark Hd Hmiss.
  rewrite (main_accepted_run download_data i Hc).
  fold equity benchmark. unfold render. rewrite Hd. step_lift.
  destruct Hmiss as [(t & Hin & Ht)|Hb].
  - rewrite (columns_missing data equity t Hin Ht). reflexivity.
  - destruct (columns_ok_or_missing data equity) as [(s & Es)|Es];
      rewrite Es; [|reflexivity].
    step_lift. rewrite Hb. reflexivity.
Qed.

(** ** A complete table *)

Lemma engine_rows_of_selection (get : str -> series) (benchmark : series)
    (names : list str) :
  exists F G : series -> series,
    calculate_rrg_components_improved
      (map (fun n => (n, get n)) names) benchmark default_length
    = Ok (map (fun n => (n, F (get n))) names,
          map (fun n => (n, G (get n))) names)
    /\ (forall c, List.length (F c)
                  = Nat.max (List.length c) (List.length benchmark))
    /\ (forall c, List.length (G c)
                  = Nat.max (List.length c) (List.length benchmark)).
Proof.
  exists (fun price => ref_rs_ratio default_length price benchmark),
         (fun price => ref_rs_momentum default_length price benchmark).
  split; [|split].
  - rewrite engine_by_index by (unfold default_length; lia).
    unfold frame_map. rewrite !map_map. reflexivity.
  - intros c. apply ref_rs_ratio_rows.
  - intros c. apply ref_rs_momentum_rows.
Qed.

Lemma normalized_selection (F : series -> series) (get : str -> series)
    (names : list str) :
  normalize_data (frame_map (map to_real) (map (fun n => (n, F (get n))) names))
  = map (fun n => (n, normalize_column (map to_real (F (get n))))) names.
Proof.
  unfold normalize_data, frame_map. rewrite !map_map. reflexivity.
Qed.

(** X22: when the three checks pass, the entered tickers are distinct, and
    the fetched table, whose column labels are distinct, holds a column
    for every entered ticker and a benchmark column with at least one row,
    the run ends without exception and draws exactly one chart per
    ticker, named after it, in the order entered, the k-th (from 0) in
    grid column k mod 2. *)
Theorem X22_one_chart_per_ticker
    (download_data : list str -> date -> date -> result (frame Qc))
    (i : inputs) (data : frame Qc) (rows : series) :
  checks_pass i = true ->
  let equity := parse_tickers (effective_equity_input i) in
  let benchmark := effective_benchmark i in
  NoDup equity ->
  download_data (equity ++ [benchmark]) (start_date i) (end_date i)
  = Ok data ->
  NoDup (labels data) ->
  (forall t, In t equity -> exists c, column data t = Ok c) ->
  column data benchmark = Ok rows ->
  rows <> [] ->
  exists figs,
    main download_data i
    = (Text (lit "VS " ++ benchmark)
         :: Download (equity ++ [benchmark]) (start_date i) (end_date i)
         :: grid 0 figs,
       Ok tt)
    /\ map marker_name figs = equity
    /\ List.length (charts_of (fst (main download_data i)))
       = List.length equity.
Proof.
  intros Hc equity benchmark _ Hd _ Hcols Hb Hrows.
  rewrite (main_accepted_run download_data i Hc).
  fold equity benchmark. unfold render. rewrite Hd. step_lift.
  rewrite (columns_found data equity Hcols). step_lift.
  rewrite Hb. step_lift.
  destruct (engine_rows_of_selection (found data) rows equity)
    as (F & G & -> & HF & HG).
  step_lift. rewrite !normalized_selection.
  assert (Hpos : (0 < List.length rows)%nat)
    by (destruct rows; [contradiction|simpl; lia]).
  destruct (@for_enumerate_charts str (fun t => t) equity
              (fun k ticker =>
                 x <~ lift (column
                       (map (fun n => (n, normalize_column
                                            (map to_real (F (found data n)))))
                            equity) ticker) ;;
                 y <~ lift (column
                       (map (fun n => (n, normalize_column
                                            (map to_real (G (found data n)))))
                            equity) ticker) ;;
                 fig <~ lift (create_rrg_plot x y ticker (trail_length i)) ;;
                 emit (Chart (k mod 2) fig)) 0) as (figs & Ef & Em).
  - intros k t Hin.
    rewrite (column_of_selection
               (fun n => normalize_column (map to_real (F (found data n))))
               equity t Hin).
    rewrite (column_of_selection
               (fun n => normalize_column (map to_real (G (found data n))))
               equity t Hin).
    step_lift.
    destruct (@create_rrg_plot_named
                (normalize_column (map to_real (F (found data t))))
                (normalize_column (map to_real (G (found data t))))
                t (trail_length i)) as (fig & Efig & Ename).
    + apply length_pos_nonempty.
      rewrite normalize_column_length, length_map, HF. lia.
    + apply length_pos_nonempty.
      rewrite normalize_column_length, length_map, HG. lia.
    + exists fig. rewrite Efig. step_lift. split; [reflexivity|exact Ename].
  - exists figs. rewrite Ef. cbn [fst snd]. rewrite map_id in Em.
    split; [reflexivity|]. split; [exact Em|].
    unfold charts_of. cbn [flat_map app].
    fold (charts_of (grid 0 figs)).
    assert (Hg : forall s, List.length (charts_of (grid s figs))
                           = List.length figs).
    { clear. induction figs as [|f figs IH]; intros s; [reflexivity|].
      unfold grid, charts_of in *. cbn [List.length seq combine map flat_map app].
      rewrite IH. reflexivity. }
    rewrite Hg, <- (length_map marker_name), Em. reflexivity.
Qed.

(** ** A table without rows *)

Lemma for_enumerate_head_raises {A} (l rest : list A) (t : A)
    (body : nat -> A -> script unit) (start : nat) (e : exn) :
  l = t :: rest -> body start t = ([], Raise e) ->
  for_enumerate start l body = ([], Raise e).
Proof. intros -> H. cbn [for_enumerate]. rewrite H. reflexivity. Qed.

(** X23: when the three checks pass, the entered tickers are distinct, and
    the fetched table, whose column labels are distinct, has the columns
    asked for but no rows, the run ends with [IndexError] right after the
    download, at the first ticker, and draws no chart. *)
Theorem X23_table_without_rows_is_index_error
    (download_data : list str -> date -> date -> result (frame Qc))
    (i : inputs) (data : frame Qc) :
  checks_pass i = true ->
  let equity := parse_tickers (effective_equity_input i) in
  let benchmark := effective_benchmark i in
  NoDup equity ->
  download_data (equity ++ [benchmark]) (start_date i) (end_date i)
  = Ok data ->
  NoDup (labels data) ->
  (forall t, In t equity -> column data t = Ok []) ->
  column data benchmark = Ok [] ->
  main download_data i
  = ([Text (lit "VS " ++ benchmark);
      Download (equity ++ [benchmark]) (start_date i) (end_date i)],
     Raise IndexError).
Proof.
  intros Hc equity benchmark _ Hd _ Hcols Hb.
  assert (Hne : equity <> []).
  { unfold checks_pass in Hc. fold equity in Hc.
    apply andb_prop in Hc. destruct Hc as [Hc _].
    apply andb_prop in Hc. destruct Hc as [_ Hc].
    apply truthy_nonempty. exact Hc. }
  rewrite (main_accepted_run download_data i Hc).
  fold equity benchmark. unfold render. rewrite Hd. step_lift.
  rewrite (columns_found data equity)
    by (intros t Ht; exists []; apply Hcols; exact Ht).
  step_lift. rewrite Hb. step_lift.
  destruct (engine_rows_of_selection (found data) [] equity)
    as (F & G & -> & HF & HG).
  step_lift. rewrite !normalized_selection.
  destruct equity as [|t rest] eqn:E; [contradiction|]. rewrite <- E in *.
  assert (Hin : In t equity) by (rewrite E; left; reflexivity).
  assert (Hfound : found data t = [])
    by (unfold found; rewrite (Hcols t Hin); reflexivity).
  assert (Hx : normalize_column (map to_real (F (found data t))) = []).
  { apply length_zero_iff_nil.
    rewrite normalize_column_length, length_map, HF, Hfound. reflexivity. }
  rewrite (@for_enumerate_head_raises _ equity rest t _ 0 IndexError E);
    [reflexivity|].
  rewrite (column_of_selection
             (fun n => normalize_column (map to_real (F (found data n))))
             equity t Hin).
  rewrite (column_of_selection
             (fun n => normalize_column (map to_real (G (found data n))))
             equity t Hin).
  step_lift. rewrite Hx. reflexivity.
Qed.

(** ** Instances *)

(** Distinctness of the names of a list written out. *)
Ltac distinct_names :=
  repeat (apply NoDup_cons;
          [intros H; vm_compute in H; intuition discriminate|]);
  apply NoDup_nil.

Lemma X20_witness :
  let download_data := fun (_ : list str) (_ _ : date) =>
                         @Raise (frame Qc) ProviderError in
  main download_data ordered_inputs
  = ([Text (lit "VS CCC");
      Download [lit "AAA"; lit "BBB"; lit "CCC"]
        {| year := 2024; month := 7; day := 1 |}
        {| year := 2024; month := 7; day := 2 |}],
     Raise ProviderError).
Proof.
  intros download_data.
  destruct (@X20_one_download_then_charts download_data ordered_inputs)
    as (rest & _ & _ & _ & _ & H); [reflexivity|].
  apply (H ProviderError). reflexivity.
Defined.

Lemma X21_witness :
  let data := [(lit "AAA", [Num (of_Z 1)]); (lit "CCC", [Num (of_Z 2)])] in
  main (fun _ _ _ => Ok data) ordered_inputs
  = ([Text (lit "VS CCC");
      Download [lit "AAA"; lit "BBB"; lit "CCC"]
        {| year := 2024; month := 7; day := 1 |}
        {| year := 2024; month := 7; day := 2 |}],
     Raise KeyError).
Proof.
  intros data.
  apply (@X21_missing_column_is_key_error (fun _ _ _ => Ok data)
           ordered_inputs data).
  - reflexivity.
  - reflexivity.
  - left. exists (lit "BBB"). split; [right; left; reflexivity|reflexivity].
Defined.

Lemma X22_witness :
  let data := table_of [Num (of_Z 1); Num (of_Z 2)]
                       [Num (of_Z 3)] [Num (of_Z 5); Num (of_Z 6)] in
  exists figs,
    main (fun _ _ _ => Ok data) ordered_inputs
    = (Text (lit "VS CCC")
         :: Download [lit "AAA"; lit "BBB"; lit "CCC"]
              {| year := 2024; month := 7; day := 1 |}
              {| year := 2024; month := 7; day := 2 |}
         :: grid 0 figs,
       Ok tt)
    /\ map marker_name figs = [lit "AAA"; lit "BBB"]
    /\ List.length (charts_of (fst (main (fun _ _ _ => Ok data)
                                      ordered_inputs))) = 2%nat.
Proof.
  intros data.
  apply (@X22_one_chart_per_ticker (fun _ _ _ => Ok data) ordered_inputs
           data [Num (of_Z 5); Num (of_Z 6)]).
  - reflexivity.
  - change (NoDup [lit "AAA"; lit "BBB"]). distinct_names.
  - reflexivity.
  - change (NoDup [lit "AAA"; lit "BBB"; lit "CCC"]). distinct_names.
  - intros t [<-|[<-|[]]]; eexists; reflexivity.
  - reflexivity.
  - discriminate.
Defined.

Lemma X23_witness :
  let data := table_of [] [] [] in
  main (fun _ _ _ => Ok data) ordered_inputs
  = ([Text (lit "VS CCC");
      Download [lit "AAA"; lit "BBB"; lit "CCC"]
        {| year := 2024; month := 7; day := 1 |}
        {| year := 2024; month := 7; day := 2 |}],
     Raise IndexError).
Proof.
  intros data.
  apply (@X23_table_without_rows_is_index_error (fun _ _ _ => Ok data)
           ordered_inputs data).
  - reflexivity.
  - change (NoDup [lit "AAA"; lit "BBB"]). distinct_names.
  - reflexivity.
  - change (NoDup [lit "AAA"; lit "BBB"; lit "CCC"]). distinct_names.
  - intros t [<-|[<-|[]]]; reflexivity.
  - reflexivity.
Defined.

(** * The earlier indicator function *)

Lemma aligned_length (op : rnum -> rnum -> rnum) (x y : list rnum) :
  List.length (aligned op x y) = Nat.max (List.length x) (List.length y).
Proof.
  revert y. induction x as [|a x IH]; intros y.
  - cbn [aligned]. rewrite length_map. reflexivity.
  - destruct y as [|b y]; cbn [aligned List.length].
    + rewrite length_map. reflexivity.
    + rewrite IH. reflexivity.
Qed.

Lemma entry_aligned (op : rnum -> rnum -> rnum) (x y : list rnum) (i : nat) :
  (forall v, op NaN v = NaN) -> (forall v, op v NaN = NaN) ->
  entry (aligned op x y) i = op (entry x i) (entry y i).
Proof.
  intros Hl Hr. revert y i. induction x as [|a x IH]; intros y i.
  - cbn [aligned]. rewrite entry_nil, Hl.
    apply entry_all_nan. intros w Hw. apply in_map_iff in Hw.
    destruct Hw as (_ & <- & _). reflexivity.
  - destruct y as [|b y].
    + cbn [aligned]. rewrite entry_nil, Hr.
      apply entry_all_nan. intros w Hw. apply in_map_iff in Hw.
      destruct Hw as (_ & <- & _). reflexivity.
    + destruct i as [|i]; [reflexivity|]. cbn [aligned].
      unfold entry in *. cbn [nth]. apply IH.
Qed.

Lemma rsub_nan_l (v : rnum) : rsub NaN v = NaN.
Proof. reflexivity. Qed.

Lemma rdiv_nan_l (v : rnum) : rdiv NaN v = NaN.
Proof. reflexivity. Qed.

Lemma ffill_defined (last : rnum) (x : list rnum) :
  (forall v, In v x -> isnan v = false) -> ffill_from last x = x.
Proof.
  revert last. induction x as [|v x IH]; intros last H; [reflexivity|].
  cbn [ffill_from]. rewrite (H v) by (left; reflexivity).
  rewrite IH by (intros w Hw; apply H; right; exact Hw). reflexivity.
Qed.

Lemma positive_column_defined (x : list rnum) :
  positive_column x -> forall v, In v x -> isnan v = false.
Proof.
  intros H v Hv. apply (In_nth _ _ NaN) in Hv.
  destruct Hv as (i & Hi & <-).
  destruct (H i Hi) as (p & _ & E). unfold entry in E. rewrite E. reflexivity.
Qed.

Lemma shift_length (n : nat) (x : list rnum) :
  List.length (shift n x) = List.length x.
Proof.
  unfold shift. rewrite length_firstn, length_app, repeat_length. lia.
Qed.

Lemma entry_shift (n : nat) (x : list rnum) (i : nat) :
  (i < List.length x)%nat ->
  entry (shift n x) i = if (i <? n)%nat then NaN else entry x (i - n).
Proof.
  intros Hi. unfold shift, entry.
  rewrite nth_firstn.
  replace (i <? List.length x)%nat with true
    by (symmetry; apply Nat.ltb_lt; exact Hi).
  destruct (Nat.ltb_spec i n) as [H|H].
  - rewrite app_nth1 by (rewrite repeat_length; exact H).
    apply nth_repeat.
  - rewrite app_nth2 by (rewrite repeat_length; exact H).
    rewrite repeat_length. reflexivity.
Qed.

Lemma rlog_positive (r : R) : (0 < r)%R -> rlog (Num r) = Num (ln r).
Proof.
  intros H. unfold rlog.
  rewrite R_is_neg_false by lra. rewrite R_is_zero_false by lra. reflexivity.
Qed.

Lemma ffill_length (x : list rnum) : List.length (ffill x) = List.length x.
Proof.
  unfold ffill. generalize (@NaN R). induction x as [|v x IH]; intros l;
    [reflexivity|].
  cbn [ffill_from]. destruct (isnan v); cbn [List.length]; rewrite IH;
    reflexivity.
Qed.

Lemma log_change_length (n : nat) (x : list rnum) :
  List.length (log_change n x) = List.length x.
Proof.
  unfold log_change, pct_change. rewrite !length_map, aligned_length.
  rewrite shift_length, ffill_length. lia.
Qed.

Lemma ln_quotient (p q : R) :
  (0 < p)%R -> (0 < q)%R -> ln (p / q) = (ln p - ln q)%R.
Proof.
  intros Hp Hq. unfold Rdiv.
  rewrite ln_mult by (try assumption; apply Rinv_0_lt_compat; exact Hq).
  rewrite ln_Rinv by exact Hq. lra.
Qed.

(** The log return over [n] rows of a column of positive numbers. *)
Lemma entry_log_change (n : nat) (x : list rnum) (i : nat) :
  positive_column x -> (i < List.length x)%nat ->
  (i < n)%nat /\ entry (log_change n x) i = NaN
  \/ (n <= i)%nat
     /\ exists p q, (0 < p)%R /\ (0 < q)%R
          /\ entry x i = Num p /\ entry x (i - n) = Num q
          /\ entry (log_change n x) i = Num (ln p - ln q)%R.
Proof.
  intros Hx Hi. unfold log_change, pct_change, ffill.
  rewrite (@ffill_defined NaN x (@positive_column_defined x Hx)).
  rewrite !entry_map by reflexivity.
  rewrite entry_aligned by (intros; first [apply rdiv_nan_r|reflexivity]).
  rewrite entry_shift by exact Hi.
  destruct (Hx i Hi) as (p & Hp & Ep).
  destruct (Nat.ltb_spec i n) as [H|H].
  - left. split; [exact H|]. rewrite rdiv_nan_r. reflexivity.
  - right. split; [exact H|].
    destruct (Hx (i - n)%nat) as (q & Hq & Eq); [lia|].
    exists p, q. repeat split; try assumption.
    rewrite Ep, Eq, rdiv_num by lra.
    change (radd (Num 1%R) (rsub (Num (p / q)%R) (Num 1%R)))
      with (@Num R (1 + (p / q - 1))%R).
    replace (1 + (p / q - 1))%R with (p / q)%R by lra.
    rewrite rlog_positive by (apply Rdiv_lt_0_compat; assumption).
    rewrite ln_quotient by assumption. reflexivity.
Qed.

Lemma frame_sub_map (f g : list rnum -> list rnum) (d : frame R) :
  frame_sub (frame_map f d) (frame_map g d)
  = frame_map (fun c => aligned rsub (f c) (g c)) d.
Proof.
  induction d as [|[name c] d IH]; [reflexivity|].
  simpl. f_equal. exact IH.
Qed.

(** X24: in the earlier indicator function, for a column of positive
    prices, RS-Momentum is not-a-number for the first 252 rows and from
    then on the difference of the logarithms of the prices 21 and 252 rows
    back: it depends neither on the price of the day nor on the
    benchmark.  Its RS-Ratio is 100 times price over benchmark wherever
    both are numbers and the benchmark is not zero. *)
Theorem X24_earlier_function (data : frame R) (benchmark benchmark' : list rnum)
    (j : nat) :
  (j < List.length data)%nat ->
  positive_column (column_at data j) ->
  let x := column_at data j in
  let rs_ratio := column_at (fst (calculate_rrg_components data benchmark)) j in
  let rs_momentum :=
    column_at (snd (calculate_rrg_components data benchmark)) j in
  List.length rs_momentum = List.length x
  /\ (forall i, (i < 252)%nat -> entry rs_momentum i = NaN)
  /\ (forall i, (252 <= i < List.length x)%nat ->
        exists p q, (0 < p)%R /\ (0 < q)%R
          /\ entry x (i - 21) = Num p /\ entry x (i - 252) = Num q
          /\ entry rs_momentum i = Num (ln p - ln q)%R)
  /\ snd (calculate_rrg_components data benchmark')
     = snd (calculate_rrg_components data benchmark)
  /\ (forall i p b, entry x i = Num p -> entry benchmark i = Num b ->
        b <> 0%R -> entry rs_ratio i = Num (p / b * 100)%R).
Proof.
  intros Hj Hx x rs_ratio rs_momentum.
  subst rs_ratio rs_momentum. unfold calculate_rrg_components.
  cbn [fst snd]. rewrite frame_sub_map, !column_at_map by exact Hj.
  fold x in Hx |- *.
  assert (Hmom : forall i,
            entry (aligned rsub (log_change 252 x) (log_change 21 x)) i
            = rsub (entry (log_change 252 x) i) (entry (log_change 21 x) i))
    by (intros i; apply entry_aligned;
        intros; first [apply rsub_nan_r|reflexivity]).
  split; [|split; [|split; [|split]]].
  - rewrite aligned_length, !log_change_length. lia.
  - intros i Hi. rewrite Hmom.
    destruct (Nat.lt_ge_cases i (List.length x)) as [Hlen|Hlen].
    + destruct (entry_log_change 252 Hx Hlen) as [[_ ->]|[H _]];
        [reflexivity|lia].
    + unfold entry at 1. rewrite nth_overflow
        by (rewrite log_change_length; exact Hlen). reflexivity.
  - intros i [Hi Hlen]. rewrite Hmom.
    destruct (entry_log_change 252 Hx Hlen)
      as [[H _]|(_ & p & q & Hp & Hq & Ep & Eq & ->)]; [lia|].
    destruct (entry_log_change 21 Hx Hlen)
      as [[H _]|(_ & p' & r & Hp' & Hr & Ep' & Er & ->)]; [lia|].
    assert (p' = p) by congruence. subst p'.
    exists r, q. repeat split; try assumption.
    cbn. f_equal. lra.
  - reflexivity.
  - intros i p b Ep Eb Hb.
    rewrite entry_map by reflexivity.
    rewrite entry_aligned by (intros; first [apply rdiv_nan_r|reflexivity]).
    rewrite Ep, Eb, rdiv_num by exact Hb. reflexivity.
Qed.

Lemma entry_map_seq_lt {A} (F : nat -> fnum A) (n i : nat) :
  (i < List.length (map F (seq 0 n)))%nat -> entry (map F (seq 0 n)) i = F i.
Proof.
  rewrite length_map, length_seq. apply entry_map_seq.
Qed.

Lemma X24_witness :
  let x := map (fun k => Num (INR (S k))) (seq 0 260) in
  let data : frame R := [(lit "A", x)] in
  let rs_momentum := column_at (snd (calculate_rrg_components data [])) 0 in
  List.length rs_momentum = 260%nat
  /\ (forall i, (i < 252)%nat -> entry rs_momentum i = NaN).
Proof.
  intros x data.
  destruct (@X24_earlier_function data [] [] 0) as (H1 & H2 & _).
  - simpl. lia.
  - intros i Hi. change (column_at data 0) with x in *.
    unfold x in *. rewrite entry_map_seq_lt by exact Hi.
    exists (INR (S i)). split; [apply lt_0_INR; lia|reflexivity].
  - split; [|exact H2]. rewrite H1. unfold data, x.
    change (column_at [(lit "A", ?c)] 0) with c.
    rewrite length_map, length_seq. reflexivity.
Defined.

(** * The ticker text *)

(** ** Lines that are dropped *)

Lemma blank_forallb (s : str) : blank s <-> forallb isspace s = true.
Proof.
  unfold blank. rewrite Forall_forall, forallb_forall. reflexivity.
Qed.

Lemma lstrip_empty_blank (s : str) :
  lstrip s = [] -> forallb isspace s = true.
Proof.
  induction s as [|c s IH]; [reflexivity|].
  cbn [lstrip forallb]. destruct (isspace c); [exact IH|discriminate].
Qed.

Lemma strip_truthy (line : str) :
  truthy (strip line) = negb (forallb isspace line).
Proof.
  destruct (forallb isspace line) eqn:E.
  - apply blank_forallb in E. rewrite (strip_blank E). reflexivity.
  - cbn [negb]. unfold strip.
    destruct (lstrip_head line) as [Hl|Hhead].
    + apply lstrip_empty_blank in Hl. congruence.
    + destruct (lstrip line) as [|c l] eqn:El.
      * apply lstrip_empty_blank in El. congruence.
      * assert (Hne : rstrip (c :: l) <> [])
          by (apply rstrip_keeps_nonspace_head; [discriminate|exact Hhead]).
        destruct (rstrip (c :: l)); [contradiction|reflexivity].
Qed.

Lemma parse_tickers_lines (text : str) :
  parse_tickers text
  = map strip (filter (fun line => negb (forallb isspace line))
                      (split_newline text)).
Proof.
  unfold parse_tickers. f_equal. apply filter_ext. intros line.
  apply strip_truthy.
Qed.

(** ** The text the dashboard works with *)

Lemma downloads_of_accepted
    (download_data : list str -> date -> date -> result (frame Qc))
    (i : inputs) :
  checks_pass i = true ->
  downloads_of (fst (main download_data i))
  = [parse_tickers (effective_equity_input i) ++ [effective_benchmark i]].
Proof.
  intros Hc. rewrite (main_accepted_run download_data i Hc). cbn [fst].
  destruct (render_trace download_data
              (parse_tickers (effective_equity_input i))
              (effective_benchmark i)
              (start_date i) (end_date i) (trail_length i)) as [Hall _].
  destruct (charts_of_all_charts Hall) as [_ Hdown].
  unfold downloads_of in *. cbn [flat_map app]. rewrite Hdown. reflexivity.
Qed.

(** C10: for every text, the ticker list is the lines of the text, split
    at newlines, each stripped of surrounding whitespace, those left
    empty dropped; the lines dropped are exactly the lines that hold
    nothing but whitespace.  With no preset pressed this list of the typed
    text, followed by the benchmark, is what a run whose checks pass asks
    the price fetcher for.  When the typed text holds whitespace only, the
    list is empty, the run shows the message asking for a ticker, and it
    neither downloads nor charts anything. *)
Theorem C10_blank_text_is_no_ticker
    (download_data : list str -> date -> date -> result (frame Qc))
    (i : inputs) (text : str) :
  let trace := fst (main download_data i) in
  parse_tickers text = filter truthy (map strip (split_newline text))
  /\ parse_tickers text
     = map strip (filter (fun line => negb (forallb isspace line))
                         (split_newline text))
  /\ (no_preset i = true -> checks_pass i = true ->
      downloads_of trace
      = [parse_tickers (equity_input i) ++ [benchmark_index i]])
  /\ (no_preset i = true -> blank (equity_input i) ->
      parse_tickers (equity_input i) = []
      /\ In msg_equity (errors_of trace)
      /\ downloads_of trace = []
      /\ charts_of trace = []).
Proof.
  intros trace. subst trace.
  split; [apply parse_tickers_spec|].
  split; [apply parse_tickers_lines|].
  split.
  - intros Hp Hc. destruct (no_preset_inputs i Hp) as [Et Eb].
    rewrite (downloads_of_accepted download_data i Hc), Et, Eb. reflexivity.
  - intros Hp Hb.
    destruct (no_preset_inputs i Hp) as [Et _].
    pose proof (parse_tickers_blank Hb) as Hempty.
    assert (Hchecks : checks_pass i = false).
    { unfold checks_pass. rewrite Et, Hempty. cbn [truthy].
      rewrite andb_false_r. reflexivity. }
    rewrite (main_rejected download_data i Hchecks). cbn [fst].
    split; [exact Hempty|].
    change (errors_of (Text ?x :: ?t)) with (errors_of t).
    change (downloads_of (Text ?x :: ?t)) with (downloads_of t).
    change (charts_of (Text ?x :: ?t)) with (charts_of t).
    rewrite errors_of_errors, downloads_of_errors, charts_of_errors.
    repeat split. unfold expected_errors. rewrite Et, Hempty. cbn [truthy].
    apply in_or_app. right. apply in_or_app. left. left. reflexivity.
Qed.

Lemma C10_witness :
  let download_data := fun (_ : list str) (_ _ : date) =>
                         @Raise (frame Qc) ProviderError in
  let trace := fst (main download_data blank_inputs) in
  parse_tickers [32; 65; 65; 65; 32; 10; 10; 9; 32; 10; 66; 66; 66; 13]%N
  = [lit "AAA"; lit "BBB"]
  /\ parse_tickers (equity_input blank_inputs) = []
  /\ In msg_equity (errors_of trace)
  /\ downloads_of trace = []
  /\ charts_of trace = [].
Proof.
  intros download_data.
  destruct (@C10_blank_text_is_no_ticker download_data blank_inputs
              [32; 65; 65; 65; 32; 10; 10; 9; 32; 10; 66; 66; 66; 13]%N)
    as (E & _ & _ & H).
  split.
  - rewrite E. reflexivity.
  - apply H; [reflexivity|repeat constructor].
Defined.
